(** * kodi.tvmaze.scrobbler: the localization cache and the JSON-RPC wrappers

    A shallow embedding of
    - [script.tvmaze.scrobbler/libs/kodi_service.py]: [LocalizationService]
      (catalog parsing, the pickled mapping cache, [gettext]) and the
      [debug_exception] context manager;
    - [script.tvmaze/libs/kodi_api.py]: [send_json_rpc] and the library
      queries built on it.

    Python objects are values of [pyobj]; raised exceptions are values of
    [exn]; code with effects runs in the monad [M W] over a world [W] (the
    file system for the localization service, the Kodi host for the RPC
    layer).  Library and host functions the code calls (hashlib, pickle,
    the UTF-8 codec, [Addon.getLocalizedString], [xbmc.executeJSONRPC]) are
    fields of the classes [Platform] and [JsonRpcHost]. *)

From Stdlib Require Import ZArith String Ascii Strings.Byte List.
From stdpp Require Import base option list sorting gmap strings pretty.

Local Open Scope Z_scope.
Local Open Scope string_scope.

(** ** Python values *)

(** The values that cross the pickle and JSON boundaries.  Dictionaries are
    keyed by text, as every dictionary of the two modules is. *)
#[warnings="-register-all"]
Inductive pyobj : Type :=
  | PyNone
  | PyBool (b : bool)
  | PyInt (z : Z)
  | PyStr (s : string)
  | PyList (l : list pyobj)
  | PyDict (d : gmap string pyobj).

(** ** Exceptions *)

Inductive exc_class : Type :=
  | IOError | EOFError | KeyError | TypeError | ValueError | AttributeError
  | UnicodeDecodeError | UnpicklingError | RuntimeError
  | LocalizationError | NoDataError
  | SystemExit | KeyboardInterrupt | GeneratorExit.

Record exn : Type := Exn { exc_type : exc_class; exc_args : string }.

(** [isinstance(exc, Exception)]: everything but the three classes that
    derive from [BaseException] directly. *)
Definition isinstance_Exception (e : exn) : bool :=
  match exc_type e with
  | SystemExit | KeyboardInterrupt | GeneratorExit => false
  | _ => true
  end.

Definition isinstance_IOError (e : exn) : bool :=
  match exc_type e with IOError => true | _ => false end.


(** ** The state and exception monad *)

(** A computation over a world [W]: it ends with a value or a raised
    exception, and the world it leaves behind (a raise rolls nothing
    back). *)
Definition M (W A : Type) : Type := W → (exn + A) * W.

Definition raise {W A} (e : exn) : M W A := λ w, (inl e, w).

#[global] Instance M_ret {W} : MRet (M W) := λ A a w, (inr a, w).

#[global] Instance M_bind {W} : MBind (M W) := λ A B k m w,
  match m w with
  | (inr a, w') => k a w'
  | (inl e, w') => (inl e, w')
  end.

(** [try: m  except <cls> as e: h e], for the classes [catches] accepts. *)
Definition try_except {W A} (m : M W A) (catches : exn → bool) (h : exn → M W A)
  : M W A :=
  λ w, match m w with
       | (inr a, w') => (inr a, w')
       | (inl e, w') => if catches e then h e w' else (inl e, w')
       end.

(** A pure step that may raise. *)
Definition lift {W A} (r : exn + A) : M W A := λ w, (r, w).

(** ** Operations on Python values *)

(** [o[key]] for a text key. *)
Definition py_getitem (o : pyobj) (key : string) : exn + pyobj :=
  match o with
  | PyDict d =>
      match d !! key with
      | Some v => inr v
      | None => inl (Exn KeyError key)
      end
  | PyList _ => inl (Exn TypeError "list indices must be integers")
  | PyStr _ => inl (Exn TypeError "string indices must be integers")
  | _ => inl (Exn TypeError "object is not subscriptable")
  end.

(** [o.get(key)]: dictionaries only. *)
Definition py_get (o : pyobj) (key : string) : exn + pyobj :=
  match o with
  | PyDict d => inr (default PyNone (d !! key))
  | _ => inl (Exn AttributeError "object has no attribute 'get'")
  end.

(** [bool(o)]. *)
Definition py_bool (o : pyobj) : bool :=
  match o with
  | PyNone => false
  | PyBool b => b
  | PyInt z => negb (Z.eqb z 0)
  | PyStr s => negb (String.eqb s "")
  | PyList l => match l with [] => false | _ => true end
  | PyDict d => negb (bool_decide (d = ∅))
  end.

(** [o != s] for a text [s]: only an equal text compares equal. *)
Definition py_ne_str (o : pyobj) (s : string) : bool :=
  match o with
  | PyStr s' => negb (String.eqb s' s)
  | _ => true
  end.

(** [int(b)] for a boolean. *)
Definition int_of_bool (b : bool) : Z := if b then 1 else 0.

(** ** Regular expressions: the fragment of [re] the catalog pattern uses

    Text is a [string]: a sequence of characters with code points below
    256.  On these [\d] is the class of the ten ASCII digits, in Python 2
    and in Python 3 alike. *)

Module re.

(** A single-character matcher. *)
Inductive atom : Type :=
  | Chr (c : ascii)   (* a literal character *)
  | Digit             (* [\d] *)
  | Dot.              (* [.]: any character but a newline *)

(** A compiled pattern is a sequence of items, as in the [sre] opcode
    list: a group is the pair of marks around its body. *)
Inductive item : Type :=
  | One (a : atom)        (* a   *)
  | Opt (a : atom)        (* a?  (greedy) *)
  | Star (a : atom)       (* a*  (greedy) *)
  | PlusLazy (a : atom)   (* a+? (lazy) *)
  | Bol                   (* ^ under re.M *)
  | Eol                   (* $ under re.M *)
  | Mark.                 (* an opening or closing parenthesis *)

Definition newline : ascii := ascii_of_nat 10.
Definition cr : ascii := ascii_of_nat 13.

Definition is_digit (c : ascii) : bool :=
  (48 <=? nat_of_ascii c)%nat && (nat_of_ascii c <=? 57)%nat.

Definition atom_ok (a : atom) (c : ascii) : bool :=
  match a with
  | Chr c' => Ascii.eqb c' c
  | Digit => is_digit c
  | Dot => negb (Ascii.eqb c newline)
  end.

(** [^] with re.M: at the start of the text or right after a newline. *)
Definition at_bol (prev : option ascii) : bool :=
  match prev with
  | None => true
  | Some c => Ascii.eqb c newline
  end.

(** [$] with re.M: at the end of the text or right before a newline. *)
Definition at_eol (s : list ascii) : bool :=
  match s with
  | [] => true
  | c :: _ => Ascii.eqb c newline
  end.

(** First success of [x], else [y]: the backtracking order. *)
Definition orelse {A} (x y : option A) : option A :=
  match x with Some _ => x | None => y end.

(** [a*] followed by the rest of the pattern [k]: as many [a] as
    possible, giving one back at a time while [k] fails. *)
Fixpoint star_greedy {R} (a : atom) (k : option ascii → list ascii → option R)
    (prev : option ascii) (s : list ascii) : option R :=
  match s with
  | c :: s' =>
      if atom_ok a c
      then orelse (star_greedy a k (Some c) s') (k prev s)
      else k prev s
  | [] => k prev s
  end.

(** [a+?] followed by [k]: one [a], then one more at a time while [k]
    fails. *)
Fixpoint plus_lazy {R} (a : atom) (k : option ascii → list ascii → option R)
    (s : list ascii) : option R :=
  match s with
  | c :: s' =>
      if atom_ok a c
      then orelse (k (Some c) s') (plus_lazy a k s')
      else None
  | [] => None
  end.

(** The backtracking matcher.  [prev] is the character before the
    current position, [s] the text from the current position on,
    [marks] the positions (as remaining texts) saved so far, latest
    first.  A success returns the marks and the text after the
    match. *)
Fixpoint match_here (p : list item) (prev : option ascii) (s : list ascii)
    (marks : list (list ascii))
  : option (list (list ascii) * list ascii) :=
  match p with
  | [] => Some (marks, s)
  | One a :: p' =>
      match s with
      | c :: s' => if atom_ok a c then match_here p' (Some c) s' marks else None
      | [] => None
      end
  | Opt a :: p' =>
      match s with
      | c :: s' =>
          if atom_ok a c
          then orelse (match_here p' (Some c) s' marks) (match_here p' prev s marks)
          else match_here p' prev s marks
      | [] => match_here p' prev s marks
      end
  | Star a :: p' =>
      star_greedy a (λ prev s, match_here p' prev s marks) prev s
  | PlusLazy a :: p' =>
      plus_lazy a (λ prev s, match_here p' prev s marks) s
  | Bol :: p' => if at_bol prev then match_here p' prev s marks else None
  | Eol :: p' => if at_eol s then match_here p' prev s marks else None
  | Mark :: p' => match_here p' prev s (s :: marks)
  end.

(** The text between two saved positions. *)
Definition between (from to : list ascii) : list ascii :=
  take (length from - length to)%nat from.

(** The groups of a match, first group first, from its marks (latest
    first: close of the last group, its open, ...). *)
Fixpoint groups_of (marks : list (list ascii)) (acc : list (list ascii))
  : list (list ascii) :=
  match marks with
  | close :: open :: marks' => groups_of marks' (between open close :: acc)
  | _ => acc
  end.

(** [re.findall]: the groups of every match, scanning left to right; the
    search resumes where the previous match ended ([skip] counts the
    characters of that match still to pass over), one character further
    after a failure or an empty match. *)
Fixpoint findall_from (p : list item) (prev : option ascii) (s : list ascii)
    (skip : nat) : list (list (list ascii)) :=
  match skip with
  | S k =>
      match s with
      | c :: s' => findall_from p (Some c) s' k
      | [] => []
      end
  | O =>
      match match_here p prev s [] with
      | Some (marks, rest) =>
          groups_of marks [] ::
            match s with
            | c :: s' =>
                findall_from p (Some c) s' (length s - length rest - 1)%nat
            | [] => []
            end
      | None =>
          match s with
          | c :: s' => findall_from p (Some c) s' 0%nat
          | [] => []
          end
      end
  end.

Definition findall (p : list item) (text : string) : list (list string) :=
  map (map string_of_list_ascii)
      (findall_from p None (list_ascii_of_string text) 0%nat).

(** A literal run of characters. *)
Definition lit (s : string) : list item :=
  map (λ c, One (Chr c)) (list_ascii_of_string s).

End re.

(** ** The platform: host and library functions the code calls *)

Abbreviation bytes := (list byte).

(** The file system the service sees: the regular files with their
    contents, and the paths written so far (oldest first).  The profile
    directory exists (the module creates it when it is imported, lines
    49-50), so opening a file for writing succeeds. *)
Record filesystem : Type := {
  files : gmap string bytes;
  written : list string;
}.

Class Platform : Type := {
  (** [ADDON.getAddonInfo('id')] and [ADDON.getAddonInfo('version')] *)
  ADDON_ID : string;
  ADDON_VERSION : string;
  (** [xbmc.translatePath(ADDON.getAddonInfo('path'))] *)
  ADDON_DIR : string;
  (** [xbmc.translatePath(ADDON.getAddonInfo('profile'))] *)
  ADDON_PROFILE_DIR : string;
  (** [ADDON.getLocalizedString(id)] *)
  getLocalizedString : Z → string;
  (** [hashlib.md5(data).hexdigest()] *)
  md5_hexdigest : bytes → string;
  (** [pickle.load] on a file with the given contents *)
  pickle_load : bytes → exn + pyobj;
  (** the bytes [pickle.dump(obj, fo, protocol=2)] writes *)
  pickle_dump : pyobj → bytes;
  (** [data.decode('utf-8')] *)
  decode_utf8 : bytes → exn + string;
  (** [pprint.pformat(obj)] *)
  pformat : pyobj → string;
}.

(** The levels of [xbmc.log]. *)
Inductive loglevel : Type := LOGDEBUG | LOGINFO | LOGWARNING | LOGERROR.

(** A world that holds the Kodi log: [xbmc.log(msg, level)] appends to it. *)
Class KodiLog (W : Type) : Type := xbmc_log : string → loglevel → W → W.

Module os_path.

Definition sep : ascii := "/"%char.

Definition startswith_sep (s : string) : bool :=
  match s with
  | String c _ => Ascii.eqb c sep
  | EmptyString => false
  end.

Fixpoint endswith_sep (s : string) : bool :=
  match s with
  | EmptyString => false
  | String c EmptyString => Ascii.eqb c sep
  | String _ s' => endswith_sep s'
  end.

(** [posixpath.join(a, *p)] *)
Definition join (a : string) (p : list string) : string :=
  fold_left
    (λ path b,
       if startswith_sep b then b
       else if String.eqb path "" || endswith_sep path then path ++ b
       else path ++ String sep b)
    p a.

(** [os.path.exists(path)] *)
Definition exists_ (path : string) (fs : filesystem) : bool :=
  bool_decide (is_Some (files fs !! path)).

End os_path.

(** [open(path, 'rb').read()] *)
Definition read_file (path : string) : M filesystem bytes :=
  λ fs, match files fs !! path with
        | Some data => (inr data, fs)
        | None => (inl (Exn IOError "No such file or directory"), fs)
        end.

(** [open(path, 'wb').write(data)] *)
Definition write_file (path : string) (data : bytes) : M filesystem unit :=
  λ fs, (inr tt, {| files := <[path := data]> (files fs);
                    written := written fs ++ [path] |}).

(** ** kodi_service.py *)

Module kodi_service.

Definition dquote : ascii := ascii_of_nat 34.

(** The pattern of line 151, item by item (compiled with re.M):
    ^  msgctxt "#  ( \d+? )  "  \r?  \n  msgid "  ( .* )  "  \r?  $ *)
Definition strings_po_pattern : list re.item :=
  [re.Bol] ++ re.lit "msgctxt " ++ [re.One (re.Chr dquote)] ++ re.lit "#"
    ++ [re.Mark; re.PlusLazy re.Digit; re.Mark;
        re.One (re.Chr dquote); re.Opt (re.Chr re.cr);
        re.One (re.Chr re.newline)]
    ++ re.lit "msgid " ++ [re.One (re.Chr dquote)]
    ++ [re.Mark; re.Star re.Dot; re.Mark;
        re.One (re.Chr dquote); re.Opt (re.Chr re.cr); re.Eol].

(** [int(s)] on a run of decimal digits. *)
Definition py_int (s : string) : Z :=
  fold_left (λ acc c, 10 * acc + (Z.of_nat (nat_of_ascii c) - 48))
            (list_ascii_of_string s) 0.

(** The dict comprehension of line 152: pairs are inserted in order, a
    later pair replaces an earlier one with the same key. *)
Definition dict_of_pairs (id_string_pairs : list (list string))
  : gmap string Z :=
  fold_left
    (λ d groups,
       match groups with
       | [string_id; string] =>
           if String.eqb string "" then d else <[string := py_int string_id]> d
       | _ => d
       end)
    id_string_pairs ∅.

Definition _parse_strings_po (strings_po : string) : gmap string Z :=
  let id_string_pairs := re.findall strings_po_pattern strings_po in
  dict_of_pairs id_string_pairs.

Section LocalizationService.
Context `{Platform}.

Record LocalizationService : Type := {
  _en_gb_string_po_path : string;
  _string_mapping_path : string;
  _mapping : pyobj;
}.

Definition en_gb_string_po_path : string :=
  os_path.join ADDON_DIR
    ["resources"; "language"; "resource.language.en_gb"; "strings.po"].

Definition string_mapping_path : string :=
  os_path.join ADDON_PROFILE_DIR ["strings-map.pickle"].

Definition _load_strings_po : M filesystem bytes :=
  read_file en_gb_string_po_path.

(** The dictionary written to the cache: [{'strings': ..., 'md5': ...}]. *)
Definition cache_record (strings_mapping : gmap string Z) (md5 : string)
  : pyobj :=
  PyDict (<["strings" := PyDict (PyInt <$> strings_mapping)]>
          (<["md5" := PyStr md5]> ∅)).

(** Lines 127-128: [with open(path, 'rb') as fo: pickle.load(fo)]. *)
Definition read_cache : M filesystem pyobj :=
  data ← read_file string_mapping_path;
  lift (pickle_load data).

(** Lines 137-138: [with open(path, 'wb') as fo:
    pickle.dump(mapping, fo, protocol=2)]. *)
Definition write_cache (mapping : pyobj) : M filesystem unit :=
  write_file string_mapping_path (pickle_dump mapping).

(** The [try] block, lines 127-130. *)
Definition cached_mapping (strings_po_md5 : string) : M filesystem pyobj :=
  mapping ← read_cache;
  stored ← lift (py_getitem mapping "md5");
  if py_ne_str stored strings_po_md5
  then raise (Exn IOError "English strings.po has been updated")
  else mret mapping.

(** The [except IOError] block, lines 132-138. *)
Definition rebuilt_mapping (strings_po : bytes) (strings_po_md5 : string)
  : M filesystem pyobj :=
  text ← lift (decode_utf8 strings_po);
  let strings_mapping := _parse_strings_po text in
  let mapping := cache_record strings_mapping strings_po_md5 in
  write_cache mapping;;
  mret mapping.

Definition _load_strings_mapping : M filesystem pyobj :=
  strings_po ← _load_strings_po;
  let strings_po_md5 := md5_hexdigest strings_po in
  mapping ←
    try_except (cached_mapping strings_po_md5) isinstance_IOError
               (λ _, rebuilt_mapping strings_po strings_po_md5);
  lift (py_getitem mapping "strings").

(** What the cache format must guarantee: a written record reads back
    as itself. *)
Definition pickle_contract : Prop :=
  ∀ (strings_mapping : gmap string Z) (md5 : string),
    pickle_load (pickle_dump (cache_record strings_mapping md5))
    = inr (cache_record strings_mapping md5).

(** The object [__init__] leaves behind. *)
Definition service (mapping : pyobj) : LocalizationService :=
  {| _en_gb_string_po_path := en_gb_string_po_path;
     _string_mapping_path := string_mapping_path;
     _mapping := mapping |}.

Definition __init__ : M filesystem LocalizationService :=
  λ fs,
    if negb (os_path.exists_ en_gb_string_po_path fs)
    then (inl (Exn LocalizationError
                   "Missing English strings.po localization file"), fs)
    else
      (mapping ← _load_strings_mapping;
       mret (service mapping)) fs.





(** *** Notions the statements below use *)

(** A [Dict[Text, int]] as a Python value. *)
Definition strings_dict (strings_mapping : gmap string Z) : pyobj :=
  PyDict (PyInt <$> strings_mapping).

(** The file system after the cache file has been rewritten with
    [mapping]. *)
Definition with_cache (fs : filesystem) (mapping : pyobj) : filesystem :=
  {| files := <[string_mapping_path := pickle_dump mapping]> (files fs);
     written := written fs ++ [string_mapping_path] |}.

(** The outcome of a rebuild: the mapping parsed from the catalog
    [text], and the cache rewritten with it and the digest of the
    catalog bytes [po]. *)
Definition rebuilt (fs : filesystem) (po : bytes) (text : string)
  : (exn + LocalizationService) * filesystem :=
  (inr (service (strings_dict (_parse_strings_po text))),
   with_cache fs (cache_record (_parse_strings_po text) (md5_hexdigest po))).

End LocalizationService.

(** *** The logger class *)

Module logger.
Section logger.
Context `{Platform} {W : Type} `{KodiLog W}.

(** [FORMAT.format(id=..., version=..., filename=..., lineno=...,
    message=...)].  [caller] is the file name and line of the frame
    two levels up, which the code reads with [inspect]. *)
Definition FORMAT (filename : string) (lineno : Z) (message : string)
  : string :=
  ADDON_ID ++ " [v." ++ ADDON_VERSION ++ "] - " ++ filename ++ ":"
    ++ pretty lineno ++ " - " ++ message.

Definition _write_message (caller : string * Z) (message : string)
    (level : loglevel) : M W unit :=
  λ w, (inr tt, xbmc_log (FORMAT caller.1 caller.2 message) level w).

Definition info caller message := _write_message caller message LOGINFO.
Definition debug caller message := _write_message caller message LOGDEBUG.
End logger.
End logger.

(** *** The diagnostic dump *)

(** An entry of [inspect.trace(5)]:
    [(frame, filename, lineno, function, code_context, index)]. *)
Record frame_info : Type := {
  f_globals : gmap string pyobj;
  f_locals : gmap string pyobj;
  fi_filename : string;      (* frame_info[1] *)
  fi_lineno : Z;             (* frame_info[2] *)
  fi_code_context : option (list string);  (* frame_info[4] *)
  fi_index : Z;              (* frame_info[5] *)
}.

(** What the handler of [debug_exception] reads from the interpreter and
    the host when it has caught [exc]. *)
Class Interpreter : Type := {
  (** [inspect.trace(5)[-1]] while [exc] is being handled *)
  last_trace_frame : exn → frame_info;
  (** [str(type(exc))] and [str(exc)] *)
  str_type : exc_class → string;
  str_exc : exn → string;
  (** [str(platform.uname())] *)
  uname : string;
  sys_version : string;
  sys_argv : pyobj;
  sys_path : pyobj;
  (** [xbmc.getInfoLabel(label)] *)
  getInfoLabel : string → string;
}.

Definition startswith (s prefix : string) : bool := String.prefix prefix s.

Definition endswith (s suffix : string) : bool :=
  String.prefix (String.rev suffix) (String.rev s).

(** [sep.join(lines)] *)
Fixpoint str_join (sep : string) (lines : list string) : string :=
  match lines with
  | [] => ""
  | [l] => l
  | l :: ls => l ++ sep ++ str_join sep ls
  end.

(** [s.replace(old, new)] for a one-character [old]. *)
Fixpoint replace_char (old : ascii) (new : string) (s : string) : string :=
  match s with
  | EmptyString => EmptyString
  | String c s' =>
      (if Ascii.eqb c old then new else String c EmptyString)
        ++ replace_char old new s'
  end.

(** [s.rjust(width)] *)
Definition rjust (width : nat) (s : string) : string :=
  string_of_list_ascii (replicate (width - String.length s) " "%char) ++ s.

Definition var_le (x y : string * pyobj) : Prop := String.leb x.1 y.1 = true.

#[global] Instance var_le_dec x y : Decision (var_le x y).
Proof. unfold var_le. apply _. Defined.

Section diagnostics.
Context `{Platform} `{Interpreter}.

Definition _format_vars (variables : gmap string pyobj) : string :=
  let var_list :=
    filter (λ vv : string * pyobj,
              negb (startswith vv.1 "__" || endswith vv.1 "__") = true)
           (map_to_list variables) in
  let var_list := merge_sort var_le var_list in
  let lines := map (λ vv : string * pyobj, vv.1 ++ " = " ++ pformat vv.2)
                   var_list in
  str_join (String re.newline "") lines.

(** The loop of lines 194-198 over [enumerate(lines, start)]. *)
Fixpoint code_context_lines (lineno : Z) (i : Z) (lines : list string)
  : string :=
  match lines with
  | [] => ""
  | line :: lines' =>
      (if Z.eqb i lineno
       then rjust 5 (pretty i) ++ ":>" ++ line
       else rjust 5 (pretty i) ++ ": " ++ line)
        ++ code_context_lines lineno (i + 1) lines'
  end.

Definition _format_code_context (fi : frame_info) : string :=
  match fi_code_context fi with
  | Some lines =>
      code_context_lines (fi_lineno fi) (fi_lineno fi - fi_index fi) lines
  | None => ""
  end.

(** The rendering of context lines none of which is the current one:
    each after its number and a colon. *)
Fixpoint other_lines (i : Z) (lines : list string) : string :=
  match lines with
  | [] => ""
  | line :: lines' =>
      (rjust 5 (pretty i) ++ ": " ++ line) ++ other_lines (i + 1) lines'
  end.

Definition stars (n : nat) : string :=
  string_of_list_ascii (replicate n "*"%char).
Definition rule (c : ascii) : string :=
  string_of_list_ascii (replicate 100 c).
Definition nl : string := String re.newline "".

(** [EXCEPTION_TEMPLATE.format] with its thirteen fields. *)
Definition EXCEPTION_TEMPLATE
    (exc_type exc system_info python_version os_info kodi_version
       file_path lineno sys_argv sys_path code_context global_vars
       local_vars : string) : string :=
  nl ++ stars 35 ++ " Unhandled exception detected " ++ stars 35 ++ nl
    ++ rule "="%char ++ nl
    ++ "                                           Diagnostic info" ++ nl
    ++ rule "-"%char ++ nl
    ++ "Exception type  : " ++ exc_type ++ nl
    ++ "Exception value : " ++ exc ++ nl
    ++ "System info     : " ++ system_info ++ nl
    ++ "Python version  : " ++ python_version ++ nl
    ++ "OS info         : " ++ os_info ++ nl
    ++ "Kodi version    : " ++ kodi_version ++ nl
    ++ "File            : " ++ file_path ++ ":" ++ lineno ++ nl
    ++ "sys.argv        : " ++ sys_argv ++ nl
    ++ rule "-"%char ++ nl
    ++ "sys.path:" ++ nl ++ sys_path ++ nl
    ++ rule "-"%char ++ nl
    ++ "Code context:" ++ nl ++ code_context ++ nl
    ++ rule "-"%char ++ nl
    ++ "Global variables:" ++ nl ++ global_vars ++ nl
    ++ rule "-"%char ++ nl
    ++ "Local variables:" ++ nl ++ local_vars ++ nl
    ++ rule "="%char ++ nl
    ++ stars 40 ++ " End diagnostic info " ++ stars 39 ++ nl.

(** The message built at lines 264-279. *)
Definition diagnostic_message (exc : exn) : string :=
  let frame_info := last_trace_frame exc in
  EXCEPTION_TEMPLATE
    (str_type (exc_type exc))
    (str_exc exc)
    uname
    (replace_char re.newline " " sys_version)
    (getInfoLabel "System.OSVersionInfo")
    (getInfoLabel "System.BuildVersion")
    (fi_filename frame_info)
    (pretty (fi_lineno frame_info))
    (pformat sys_argv)
    (pformat sys_path)
    (_format_code_context frame_info)
    (_format_vars (f_globals frame_info))
    (_format_vars (f_locals frame_info)).

(** [with debug_exception(logger_func): block].  The generator yields
    inside [try]; an exception of the block is thrown in at the
    [yield], and [except Exception as exc] logs and raises [exc]
    again; any other exception passes through. *)
Definition debug_exception {W A} (logger_func : string → M W unit)
    (block : M W A) : M W A :=
  try_except block isinstance_Exception
    (λ exc,
       let message := diagnostic_message exc in
       logger_func message;;
       raise exc).


End diagnostics.

End kodi_service.

(** ** kodi_api.py *)

Module kodi_api.

(** The Kodi host behind [xbmc.executeJSONRPC]. *)
Class JsonRpcHost : Type := {
  host_state : Type;
  (** [json.loads(xbmc.executeJSONRPC(json.dumps(request)))]: the
      decoded reply to a request, and the host after it *)
  executeJSONRPC : pyobj → host_state → (exn + pyobj) * host_state;
}.

Section kodi_api.
Context `{Platform} `{JsonRpcHost}.

(** The world of the RPC layer: the host, the requests sent to it so
    far (oldest first) and the Kodi log. *)
Record world : Type := {
  kodi : host_state;
  requests : list pyobj;
  log : list (loglevel * string);
}.

(** Modelled from the spec: [logger] is imported from [.kodi_utils],
    which is not among the sources; the logging sink accepts leveled
    messages, and [debug] leaves the message in the Kodi log. *)
Definition logger_debug (message : string) : M world unit :=
  λ w, (inr tt, {| kodi := kodi w; requests := requests w;
                   log := log w ++ [(LOGDEBUG, message)] |}).

(** The transport call of line 47; the request is recorded. *)
Definition call_host (request : pyobj) : M world pyobj :=
  λ w, let '(reply, k) := executeJSONRPC request (kodi w) in
       (reply, {| kodi := k; requests := requests w ++ [request];
                  log := log w |}).

(** The request of lines 43-45. *)
Definition jsonrpc_request (method : string) (params : option pyobj)
  : pyobj :=
  let request : gmap string pyobj :=
    <["id" := PyStr "1"]> (<["method" := PyStr method]>
                           (<["jsonrpc" := PyStr "2.0"]> ∅)) in
  PyDict match params with
         | Some params => <["params" := params]> request
         | None => request
         end.

Definition send_json_rpc (method : string) (params : option pyobj)
  : M world pyobj :=
  let request := jsonrpc_request method params in
  logger_debug ("JSON-RPC request:" ++ String re.newline ""
                  ++ pformat request);;
  json_reply ← call_host request;
  logger_debug ("JSON-RPC reply:" ++ String re.newline ""
                  ++ pformat json_reply);;
  lift (py_getitem json_reply "result").

Definition NoData (message : string) : exn := Exn NoDataError message.

Definition get_tvshows_params : pyobj :=
  PyDict (<["sort" := PyDict (<["method" := PyStr "label"]>
                              (<["order" := PyStr "ascending"]> ∅))]>
          (<["properties" := PyList [PyStr "uniqueid"]]> ∅)).

Definition get_tvshows : M world pyobj :=
  result ← send_json_rpc "VideoLibrary.GetTVShows" (Some get_tvshows_params);
  tvshows ← lift (py_get result "tvshows");
  if negb (py_bool tvshows)
  then raise (NoData "Kodi medialibrary has no TV shows")
  else lift (py_getitem result "tvshows").

Definition get_episodes_params (tvshowid : Z) : pyobj :=
  PyDict (<["properties" := PyList [PyStr "season"; PyStr "episode";
                                    PyStr "playcount"; PyStr "tvshowid"]]>
          (<["tvshowid" := PyInt tvshowid]> ∅)).

Definition get_episodes (tvshowid : Z) : M world pyobj :=
  result ← send_json_rpc "VideoLibrary.GetEpisodes"
             (Some (get_episodes_params tvshowid));
  episodes ← lift (py_get result "episodes");
  if negb (py_bool episodes)
  then raise (NoData ("TV show " ++ pretty tvshowid ++ " has no episodes"))
  else lift (py_getitem result "episodes").

Definition get_recent_episodes : M world pyobj :=
  let params :=
    PyDict (<["properties" := PyList [PyStr "playcount"; PyStr "tvshowid";
                                      PyStr "season"; PyStr "episode"]]> ∅) in
  result ← send_json_rpc "VideoLibrary.GetRecentlyAddedEpisodes" (Some params);
  episodes ← lift (py_get result "episodes");
  if negb (py_bool episodes)
  then raise (NoData "")
  else lift (py_getitem result "episodes").

Definition get_episode_details_params (episode_id : Z) : pyobj :=
  PyDict (<["properties" := PyList [PyStr "playcount"; PyStr "tvshowid";
                                    PyStr "season"; PyStr "episode";
                                    PyStr "uniqueid"]]>
          (<["episodeid" := PyInt episode_id]> ∅)).

Definition get_episode_details (episode_id : Z) : M world pyobj :=
  let method := "VideoLibrary.GetEpisodeDetails" in
  reply ← send_json_rpc method (Some (get_episode_details_params episode_id));
  lift (py_getitem reply "episodedetails").

Definition set_episode_playcount_params (episode_id playcount : Z) : pyobj :=
  PyDict (<["playcount" := PyInt playcount]>
          (<["episodeid" := PyInt episode_id]> ∅)).

Definition set_episode_playcount (episode_id : Z) (playcount : Z)
  : M world unit :=
  details ← get_episode_details episode_id;
  original_playcount ← lift (py_getitem details "playcount");
  if negb (Z.eqb playcount (int_of_bool (py_bool original_playcount)))
  then
    let method := "VideoLibrary.SetEpisodeDetails" in
    let params := set_episode_playcount_params episode_id playcount in
    send_json_rpc method (Some params);;
    mret tt
  else mret tt.

(** *** Notions the statements below use *)

(** The world after the request for [method] has been sent from [w]
    and answered. *)
Definition after_call (method : string) (params : option pyobj) (w : world)
  : world :=
  let request := jsonrpc_request method params in
  let '(reply, k) := executeJSONRPC request (kodi w) in
  {| kodi := k;
     requests := requests w ++ [request];
     log := (log w ++ [(LOGDEBUG, "JSON-RPC request:" ++ String re.newline ""
                                    ++ pformat request)])
            ++ match reply with
               | inr json_reply =>
                   [(LOGDEBUG, "JSON-RPC reply:" ++ String re.newline ""
                                 ++ pformat json_reply)]
               | inl _ => []
               end |}.

(** The expected key is missing from [result], or its value is empty
    (falsy: [None], [False], [0], an empty text, list or dict). *)
Definition absent_or_empty (result : gmap string pyobj) (key : string)
  : Prop :=
  result !! key = None ∨ ∃ v, result !! key = Some v ∧ py_bool v = false.

(** The rule of a library query [query] built on the request [rpc]:
    on a result dict, it raises [err] exactly when [key] is absent or
    empty, and returns the value of [key] otherwise. *)
Definition no_data_rule (query rpc : M world pyobj) (key : string)
    (err : exn) : Prop :=
  ∀ w result w',
    rpc w = (inr (PyDict result), w') →
    (query w = (inl err, w') ↔ absent_or_empty result key)
    ∧ (∀ v, result !! key = Some v → py_bool v = true →
            query w = (inr v, w')).

(** The rule of a library query on every response of the host to its
    request.  A failure of the transport propagates; a reply that is
    no dict raises [TypeError]; a reply dict without ['result'] (an
    error reply) raises [KeyError('result')]; a result that is no dict
    raises the [AttributeError] of [result.get]; and on a result dict
    the query raises [err] exactly when [key] is absent or empty, and
    returns the value of [key] otherwise.  Each time the world is the
    one the request left. *)
Definition response_rule (query : M world pyobj) (method : string)
    (params : pyobj) (key : string) (err : exn) : Prop :=
  ∀ w,
    let w' := after_call method (Some params) w in
    match (executeJSONRPC (jsonrpc_request method (Some params)) (kodi w)).1 with
    | inl e => query w = (inl e, w')
    | inr (PyDict reply) =>
        match reply !! "result" with
        | None => query w = (inl (Exn KeyError "result"), w')
        | Some (PyDict result) =>
            (query w = (inl err, w') ↔ absent_or_empty result key)
            ∧ (∀ v, result !! key = Some v → py_bool v = true →
                    query w = (inr v, w'))
        | Some _ =>
            query w = (inl (Exn AttributeError "object has no attribute 'get'"), w')
        end
    | inr _ => ∃ msg, query w = (inl (Exn TypeError msg), w')
    end.

End kodi_api.

End kodi_api.

(** ** The catalog format, as the specification words it *)

Module catalog_spec.

Definition chars (s : string) : list ascii := list_ascii_of_string s.

(** The lines of a text: the pieces between newlines. *)
Fixpoint lines (s : list ascii) : list (list ascii) :=
  match s with
  | [] => [[]]
  | c :: s' =>
      if Ascii.eqb c re.newline then [] :: lines s'
      else match lines s' with
           | l :: ls => (c :: l) :: ls
           | [] => [[c]]
           end
  end.

(** A line without its optional trailing carriage return. *)
Fixpoint strip_cr (l : list ascii) : list ascii :=
  match l with
  | [] => []
  | c :: l' =>
      match l' with
      | [] => if Ascii.eqb c re.cr then [] else [c]
      | _ :: _ => c :: strip_cr l'
      end
  end.

Fixpoint strip_prefix (pre l : list ascii) : option (list ascii) :=
  match pre, l with
  | [], _ => Some l
  | p :: pre', c :: l' => if Ascii.eqb p c then strip_prefix pre' l' else None
  | _ :: _, [] => None
  end.

(** [l] without its closing double quote. *)
Fixpoint unquote (l : list ascii) : option (list ascii) :=
  match l with
  | [] => None
  | c :: l' =>
      match l' with
      | [] => if Ascii.eqb c kodi_service.dquote then Some [] else None
      | _ :: _ => cons c <$> unquote l'
      end
  end.

Definition msgctxt_open : list ascii :=
  chars "msgctxt " ++ [kodi_service.dquote; "#"%char].

Definition msgid_open : list ascii :=
  chars "msgid " ++ [kodi_service.dquote].

(** The digits of a line [msgctxt "#<id>"]. *)
Definition msgctxt_id (line : list ascii) : option (list ascii) :=
  rest ← strip_prefix msgctxt_open (strip_cr line);
  ds ← unquote rest;
  if forallb re.is_digit ds && negb (bool_decide (ds = [])) then Some ds else None.

(** The text of a line [msgid "<string>"]. *)
Definition msgid_text (line : list ascii) : option (list ascii) :=
  rest ← strip_prefix msgid_open (strip_cr line);
  unquote rest.

(** The records of a catalog: every [msgctxt] line directly followed by
    a [msgid] line, in order. *)
Fixpoint records (ls : list (list ascii)) : list (list ascii * list ascii) :=
  match ls with
  | [] => []
  | l1 :: ls' =>
      match ls' with
      | l2 :: _ =>
          match msgctxt_id l1, msgid_text l2 with
          | Some ds, Some str => [(ds, str)]
          | _, _ => []
          end
      | [] => []
      end ++ records ls'
  end.

(** [mapping[<string>] = <id>] for each record with a non-empty string,
    in order (the last write wins). *)
Definition mapping (text : string) : gmap string Z :=
  fold_left
    (λ m (r : list ascii * list ascii),
       match r.2 with
       | [] => m
       | _ => <[string_of_list_ascii r.2 :=
                  kodi_service.py_int (string_of_list_ascii r.1)]> m
       end)
    (records (lines (chars text))) ∅.

End catalog_spec.

(** ** A reference platform

    Concrete library and host functions, to run the model on concrete
    files and requests: MD5 itself, a self-delimiting serializer standing
    in for pickle, a UTF-8 decoder for the characters of [string] (code
    points below 256), and a small Kodi library behind the JSON-RPC
    transport. *)

Module reference.

#[local] Open Scope Z_scope.

Module md5.

(** MD5 (RFC 1321) on bytes as integers below 256. *)
Definition mask32 (x : Z) : Z := Z.land x 0xffffffff.
Definition not32 (x : Z) : Z := Z.lxor x 0xffffffff.
Definition rotl32 (x : Z) (s : Z) : Z :=
  mask32 (Z.lor (Z.shiftl x s) (Z.shiftr x (32 - s))).

Definition S : list Z :=
  [7; 12; 17; 22; 7; 12; 17; 22; 7; 12; 17; 22; 7; 12; 17; 22;
   5; 9; 14; 20; 5; 9; 14; 20; 5; 9; 14; 20; 5; 9; 14; 20;
   4; 11; 16; 23; 4; 11; 16; 23; 4; 11; 16; 23; 4; 11; 16; 23;
   6; 10; 15; 21; 6; 10; 15; 21; 6; 10; 15; 21; 6; 10; 15; 21].

Definition K : list Z :=
  [0xd76aa478; 0xe8c7b756; 0x242070db; 0xc1bdceee;
   0xf57c0faf; 0x4787c62a; 0xa8304613; 0xfd469501;
   0x698098d8; 0x8b44f7af; 0xffff5bb1; 0x895cd7be;
   0x6b901122; 0xfd987193; 0xa679438e; 0x49b40821;
   0xf61e2562; 0xc040b340; 0x265e5a51; 0xe9b6c7aa;
   0xd62f105d; 0x02441453; 0xd8a1e681; 0xe7d3fbc8;
   0x21e1cde6; 0xc33707d6; 0xf4d50d87; 0x455a14ed;
   0xa9e3e905; 0xfcefa3f8; 0x676f02d9; 0x8d2a4c8a;
   0xfffa3942; 0x8771f681; 0x6d9d6122; 0xfde5380c;
   0xa4beea44; 0x4bdecfa9; 0xf6bb4b60; 0xbebfbc70;
   0x289b7ec6; 0xeaa127fa; 0xd4ef3085; 0x04881d05;
   0xd9d4d039; 0xe6db99e5; 0x1fa27cf8; 0xc4ac5665;
   0xf4292244; 0x432aff97; 0xab9423a7; 0xfc93a039;
   0x655b59c3; 0x8f0ccc92; 0xffeff47d; 0x85845dd1;
   0x6fa87e4f; 0xfe2ce6e0; 0xa3014314; 0x4e0811a1;
   0xf7537e82; 0xbd3af235; 0x2ad7d2bb; 0xeb86d391].

(** The little-endian bytes of [x], [n] of them. *)
Fixpoint le_bytes (n : nat) (x : Z) : list Z :=
  match n with
  | O => []
  | Datatypes.S n' => x mod 256 :: le_bytes n' (x / 256)
  end.

Definition le_word (bs : list Z) : Z :=
  foldr (λ b acc, b + 256 * acc) 0 bs.

Definition pad (msg : list Z) : list Z :=
  let len := Z.of_nat (length msg) in
  let zeros := Z.to_nat ((55 - len) mod 64) in
  msg ++ [0x80] ++ replicate zeros 0 ++ le_bytes 8 (8 * len).

(** The sixteen words of a 64-byte chunk. *)
Fixpoint words (n : nat) (chunk : list Z) : list Z :=
  match n with
  | O => []
  | Datatypes.S n' => le_word (take 4 chunk) :: words n' (drop 4 chunk)
  end.

Definition round (M : list Z) (st : Z * Z * Z * Z) (i : Z) : Z * Z * Z * Z :=
  let '(A, B, C, D) := st in
  let '(F, g) :=
    if i <? 16 then (Z.lor (Z.land B C) (Z.land (not32 B) D), i)
    else if i <? 32 then (Z.lor (Z.land D B) (Z.land (not32 D) C), (5 * i + 1) mod 16)
    else if i <? 48 then (Z.lxor (Z.lxor B C) D, (3 * i + 5) mod 16)
    else (Z.lxor C (Z.lor B (not32 D)), (7 * i) mod 16) in
  let F := mask32 (F + A + default 0 (K !! Z.to_nat i) + default 0 (M !! Z.to_nat g)) in
  (D, mask32 (B + rotl32 F (default 0 (S !! Z.to_nat i))), B, C).

Definition process (st : Z * Z * Z * Z) (chunk : list Z) : Z * Z * Z * Z :=
  let M := words 16 chunk in
  let '(a0, b0, c0, d0) := st in
  let '(A, B, C, D) := foldl (round M) st (map Z.of_nat (seq 0 64)) in
  (mask32 (a0 + A), mask32 (b0 + B), mask32 (c0 + C), mask32 (d0 + D)).

Fixpoint chunks (n : nat) (bs : list Z) : list (list Z) :=
  match n with
  | O => []
  | Datatypes.S n' => take 64 bs :: chunks n' (drop 64 bs)
  end.

Definition digest (msg : list Z) : list Z :=
  let padded := pad msg in
  let '(a, b, c, d) :=
    foldl process (0x67452301, 0xefcdab89, 0x98badcfe, 0x10325476)
          (chunks (length padded / 64) padded) in
  le_bytes 4 a ++ le_bytes 4 b ++ le_bytes 4 c ++ le_bytes 4 d.

Definition hex_digit (n : Z) : ascii :=
  if n <? 10 then ascii_of_nat (Z.to_nat (48 + n))
  else ascii_of_nat (Z.to_nat (87 + n)).

Definition hex (bs : list Z) : string :=
  string_of_list_ascii
    (concat (map (λ b, [hex_digit (b / 16); hex_digit (b mod 16)]) bs)).

Definition hexdigest (data : list byte) : string :=
  hex (digest (map (λ b, Z.of_N (Byte.to_N b)) data)).
End md5.

(** *** A serializer for [pyobj] *)

Module codec.

#[local] Open Scope list_scope.

Definition byte_of_N (n : N) : byte := byte_of_ascii (ascii_of_N n).
Definition N_of_byte (b : byte) : N := N_of_ascii (ascii_of_byte b).

Fixpoint varint_fuel (fuel : nat) (n : N) : bytes :=
  match fuel with
  | O => [byte_of_N n]
  | S f =>
      if (n <? 128)%N then [byte_of_N n]
      else byte_of_N (128 + n mod 128) :: varint_fuel f (n / 128)
  end.

Definition varint (n : N) : bytes := varint_fuel (N.to_nat (N.log2 n)) n.

Fixpoint read_varint (bs : bytes) : option (N * bytes) :=
  match bs with
  | [] => None
  | b :: bs' =>
      let v := N_of_byte b in
      if (v <? 128)%N then Some (v, bs')
      else '(hi, rest) ← read_varint bs'; Some (v - 128 + 128 * hi, rest)%N
  end.

Definition dump_str (s : string) : bytes :=
  varint (N.of_nat (String.length s)) ++ map byte_of_ascii (list_ascii_of_string s).

Definition tag (c : ascii) : byte := byte_of_ascii c.

Fixpoint dump_value (v : pyobj) : bytes :=
  match v with
  | PyNone => [tag "N"]
  | PyBool true => [tag "T"]
  | PyBool false => [tag "F"]
  | PyInt z => if 0 <=? z then tag "I" :: varint (Z.to_N z)
               else tag "J" :: varint (Z.to_N (- z))
  | PyStr s => tag "S" :: dump_str s
  | PyList l => tag "L" :: varint (N.of_nat (length l)) ++ concat (map dump_value l)
  | PyDict d =>
      tag "D" :: varint (N.of_nat (size d))
        ++ map_fold (λ k v acc, dump_str k ++ dump_value v ++ acc) [] d
  end.

Definition read_str (bs : bytes) : option (string * bytes) :=
  '(n, r) ← read_varint bs;
  if (n <=? N.of_nat (length r))%N
  then Some (string_of_list_ascii (map ascii_of_byte (take (N.to_nat n) r)),
             drop (N.to_nat n) r)
  else None.

Fixpoint load_items (load : bytes → option (pyobj * bytes)) (n : nat)
    (bs : bytes) : option (list pyobj * bytes) :=
  match n with
  | O => Some ([], bs)
  | S n' =>
      '(v, r1) ← load bs;
      '(l, r2) ← load_items load n' r1;
      Some (v :: l, r2)
  end.

Fixpoint load_entries (load : bytes → option (pyobj * bytes)) (n : nat)
    (bs : bytes) : option (gmap string pyobj * bytes) :=
  match n with
  | O => Some (∅, bs)
  | S n' =>
      '(k, r1) ← read_str bs;
      '(v, r2) ← load r1;
      '(d, r3) ← load_entries load n' r2;
      Some (<[k := v]> d, r3)
  end.

Fixpoint load_value (fuel : nat) (bs : bytes) : option (pyobj * bytes) :=
  match fuel with
  | O => None
  | S f =>
      match bs with
      | [] => None
      | t :: bs' =>
          let t := ascii_of_byte t in
          if Ascii.eqb t "N" then Some (PyNone, bs')
          else if Ascii.eqb t "T" then Some (PyBool true, bs')
          else if Ascii.eqb t "F" then Some (PyBool false, bs')
          else if Ascii.eqb t "I" then
            '(n, r) ← read_varint bs'; Some (PyInt (Z.of_N n), r)
          else if Ascii.eqb t "J" then
            '(n, r) ← read_varint bs'; Some (PyInt (- Z.of_N n), r)
          else if Ascii.eqb t "S" then
            '(s, r) ← read_str bs'; Some (PyStr s, r)
          else if Ascii.eqb t "L" then
            '(n, r) ← read_varint bs';
            '(l, r') ← load_items (load_value f) (N.to_nat n) r;
            Some (PyList l, r')
          else if Ascii.eqb t "D" then
            '(n, r) ← read_varint bs';
            '(d, r') ← load_entries (load_value f) (N.to_nat n) r;
            Some (PyDict d, r')
          else None
      end
  end.

Definition load (bs : bytes) : exn + pyobj :=
  match bs with
  | [] => inl (Exn EOFError "Ran out of input")
  | _ :: _ =>
      match load_value (3 + length bs) bs with
      | Some (v, _) => inr v
      | None => inl (Exn UnpicklingError "invalid pickle data")
      end
  end.

Definition dump (v : pyobj) : bytes := dump_value v.

(** The entries of a dict, as [dump_value] lays them out. *)
Definition dump_entries (es : list (string * pyobj)) : bytes :=
  foldr (uncurry (λ k v acc, dump_str k ++ dump_value v ++ acc)) [] es.

End codec.

(** *** UTF-8, for code points below 256 *)

Fixpoint utf8_chars (bs : bytes) : option (list ascii) :=
  match bs with
  | [] => Some []
  | b :: bs' =>
      let n := codec.N_of_byte b in
      if (n <? 128)%N then cons (ascii_of_byte b) <$> utf8_chars bs'
      else if (n =? 194)%N || (n =? 195)%N then
        match bs' with
        | b2 :: bs'' =>
            let m := codec.N_of_byte b2 in
            if (128 <=? m)%N && (m <? 192)%N
            then cons (ascii_of_N ((n - 192) * 64 + (m - 128))) <$> utf8_chars bs''
            else None
        | [] => None
        end
      else None
  end.

Definition decode (bs : bytes) : exn + string :=
  match utf8_chars bs with
  | Some cs => inr (string_of_list_ascii cs)
  | None => inl (Exn UnicodeDecodeError "'utf-8' codec can't decode bytes")
  end.

(** *** A one-line rendering of values *)

Fixpoint repr (v : pyobj) : string :=
  match v with
  | PyNone => "None"
  | PyBool true => "True"
  | PyBool false => "False"
  | PyInt z => pretty z
  | PyStr s => "'" ++ s ++ "'"
  | PyList l => "[" ++ kodi_service.str_join ", " (map repr l) ++ "]"
  | PyDict d =>
      "{" ++ kodi_service.str_join ", "
               (map_fold (λ k v acc, ("'" ++ k ++ "': " ++ repr v) :: acc) [] d)
          ++ "}"
  end.

(** The localized strings of the host: a Dutch table for two IDs. *)
Definition localized (string_id : Z) : string :=
  if Z.eqb string_id 100 then "Afspelen"
  else if Z.eqb string_id 102 then "Stoppen"
  else "".

#[global] Instance platform : Platform := {|
  ADDON_ID := "script.tvmaze.scrobbler";
  ADDON_VERSION := "0.1.0";
  ADDON_DIR := "/addons/script.tvmaze.scrobbler";
  ADDON_PROFILE_DIR := "/userdata/addon_data/script.tvmaze.scrobbler";
  getLocalizedString := localized;
  md5_hexdigest := md5.hexdigest;
  pickle_load := codec.load;
  pickle_dump := codec.dump;
  decode_utf8 := decode;
  pformat := repr;
|}.

(** *** A Kodi library *)

(** Episode id to playcount. *)
Abbreviation library := (gmap Z Z).

Definition reply_result (result : pyobj) : pyobj :=
  PyDict (<["result" := result]>
          (<["jsonrpc" := PyStr "2.0"]> (<["id" := PyStr "1"]> ∅))).

Definition reply_error : pyobj :=
  PyDict (<["error" := PyDict (<["code" := PyInt (-32602)]> ∅)]>
          (<["jsonrpc" := PyStr "2.0"]> (<["id" := PyStr "1"]> ∅))).

Definition episode_id_of (params : option pyobj) : option Z :=
  match params with
  | Some (PyDict p) =>
      match p !! "episodeid" with Some (PyInt i) => Some i | _ => None end
  | _ => None
  end.

Definition playcount_of (params : option pyobj) : option Z :=
  match params with
  | Some (PyDict p) =>
      match p !! "playcount" with Some (PyInt i) => Some i | _ => None end
  | _ => None
  end.

Definition serve (request : pyobj) (lib : library) : (exn + pyobj) * library :=
  match request with
  | PyDict r =>
      match r !! "method" with
      | Some (PyStr method) =>
          if String.eqb method "VideoLibrary.GetEpisodeDetails" then
            match episode_id_of (r !! "params") with
            | Some i =>
                match lib !! i with
                | Some pc =>
                    (inr (reply_result
                            (PyDict (<["episodedetails" :=
                                         PyDict (<["playcount" := PyInt pc]>
                                                 (<["episodeid" := PyInt i]> ∅))]> ∅))),
                     lib)
                | None => (inr reply_error, lib)
                end
            | None => (inr reply_error, lib)
            end
          else if String.eqb method "VideoLibrary.SetEpisodeDetails" then
            match episode_id_of (r !! "params"), playcount_of (r !! "params") with
            | Some i, Some pc =>
                (inr (reply_result (PyStr "OK")), <[i := pc]> lib)
            | _, _ => (inr reply_error, lib)
            end
          else if String.eqb method "VideoLibrary.GetEpisodes" then
            (inr (reply_result
                    (PyDict (<["episodes" :=
                                 PyList (map (λ ip : Z * Z,
                                                PyDict (<["playcount" := PyInt ip.2]>
                                                        (<["episodeid" := PyInt ip.1]> ∅)))
                                             (map_to_list lib))]> ∅))),
             lib)
          else if String.eqb method "VideoLibrary.GetTVShows" then
            (inr (reply_result (PyDict (<["limits" := PyDict ∅]> ∅))), lib)
          else (inr reply_error, lib)
      | _ => (inr reply_error, lib)
      end
  | _ => (inl (Exn ValueError "No JSON object could be decoded"), lib)
  end.

#[global] Instance host : kodi_api.JsonRpcHost := {|
  kodi_api.host_state := library;
  kodi_api.executeJSONRPC := serve;
|}.

(** A host that gives the same reply to every request. *)
Definition canned (reply : pyobj) : kodi_api.JsonRpcHost := {|
  kodi_api.host_state := unit;
  kodi_api.executeJSONRPC := λ _ s, (inr reply, s);
|}.

(** *** An interpreter snapshot and a log *)

Definition frame : kodi_service.frame_info := {|
  kodi_service.f_globals := <["__name__" := PyStr "__main__"]> ∅;
  kodi_service.f_locals := <["x" := PyInt 1]> ∅;
  kodi_service.fi_filename := "main.py";
  kodi_service.fi_lineno := 12;
  kodi_service.fi_code_context := Some ["    x = 1"; "    raise RuntimeError()"];
  kodi_service.fi_index := 1;
|}.

#[global] Instance interpreter : kodi_service.Interpreter := {|
  kodi_service.last_trace_frame := λ _, frame;
  kodi_service.str_type := λ _, "<class 'Exception'>";
  kodi_service.str_exc := exc_args;
  kodi_service.uname := "Linux";
  kodi_service.sys_version := "3.8.5 (default)";
  kodi_service.sys_argv := PyList [PyStr "main.py"];
  kodi_service.sys_path := PyList [];
  kodi_service.getInfoLabel := λ _, "";
|}.

(** The Kodi log as a list of entries, oldest first. *)
#[global] Instance log_world : KodiLog (list (loglevel * string)) :=
  λ message level w, (w ++ [(level, message)])%list.

End reference.

(** ** pickle, protocol 2

    [pickle.dump(obj, fo, protocol=2)] and [pickle.load(fo)] for the
    values of [pyobj], after the pickler and the unpickler of CPython 3
    (Modules/_pickle.c): the opcodes, the memo indices, the batches of
    1000 entries and the encodings of integers are the ones CPython
    writes.  Entries of a dict are written in the order of
    [map_to_list]; the unpickler builds the same dict from any order.
    The pickler writes no GET opcode for these values (every text is an
    object of its own), and the unpickler here knows none. *)

Module pickle.

Import reference.codec.

#[local] Open Scope list_scope.
#[local] Open Scope Z_scope.

(** The opcodes of protocol 2 that values of [pyobj] need. *)
Definition MARK : byte := x28.         (* ( *)
Definition STOP : byte := x2e.         (* . *)
Definition BININT : byte := x4a.       (* J *)
Definition BININT1 : byte := x4b.      (* K *)
Definition BININT2 : byte := x4d.      (* M *)
Definition NONE : byte := x4e.         (* N *)
Definition BINUNICODE : byte := x58.   (* X *)
Definition EMPTY_LIST : byte := x5d.   (* ] *)
Definition APPEND : byte := x61.       (* a *)
Definition APPENDS : byte := x65.      (* e *)
Definition BINPUT : byte := x71.       (* q *)
Definition LONG_BINPUT : byte := x72.  (* r *)
Definition SETITEM : byte := x73.      (* s *)
Definition SETITEMS : byte := x75.     (* u *)
Definition EMPTY_DICT : byte := x7d.   (* } *)
Definition PROTO : byte := x80.
Definition NEWTRUE : byte := x88.
Definition NEWFALSE : byte := x89.
Definition LONG1 : byte := x8a.
Definition LONG4 : byte := x8b.

Definition BATCHSIZE : nat := 1000.

(** *** Numbers as bytes *)

(** The [k] low bytes of [n], least significant first. *)
Fixpoint le_bytes (k : nat) (n : N) : bytes :=
  match k with
  | O => []
  | S k' => byte_of_N (n mod 256) :: le_bytes k' (n / 256)
  end.

(** The number whose little-endian bytes are [bs]. *)
Fixpoint le_value (bs : bytes) : N :=
  match bs with
  | [] => 0
  | b :: bs' => N_of_byte b + 256 * le_value bs'
  end.

(** [int.from_bytes(bs, 'little', signed=True)] *)
Definition decode_long (bs : bytes) : Z :=
  match bs with
  | [] => 0
  | _ :: _ =>
      let u := Z.of_N (le_value bs) in
      let bits := 8 * Z.of_nat (length bs) in
      if 2 ^ (bits - 1) <=? u then u - 2 ^ bits else u
  end.

(** The bytes of an integer other than zero: two's complement in
    [(nbits >> 3) + 1] bytes, one less when the integer is negative and
    the last byte holds sign bits only. *)
Definition encode_long (z : Z) : bytes :=
  let nbits := Z.log2 (Z.abs z) + 1 in
  let nbytes := Z.shiftr nbits 3 + 1 in
  let u := z mod 2 ^ (8 * nbytes) in
  let nbytes :=
    if (z <? 0) && (1 <? nbytes)
       && (u / 256 ^ (nbytes - 1) =? 255)
       && (128 <=? (u / 256 ^ (nbytes - 2)) mod 256)
    then nbytes - 1 else nbytes in
  le_bytes (Z.to_nat nbytes) (Z.to_N u).

(** [save_long] *)
Definition save_long (z : Z) : bytes :=
  if (- 2 ^ 31 <=? z) && (z <? 2 ^ 31) then
    let u := Z.to_N (z mod 2 ^ 32) in
    if (65536 <=? u)%N then BININT :: le_bytes 4 u
    else if (256 <=? u)%N then BININT2 :: le_bytes 2 u
    else [BININT1; byte_of_N u]
  else
    let data := encode_long z in
    let nbytes := N.of_nat (length data) in
    if (nbytes <? 256)%N then LONG1 :: byte_of_N nbytes :: data
    else LONG4 :: le_bytes 4 nbytes ++ data.

(** *** Text as UTF-8, for code points below 256 *)

Definition utf8_char (c : ascii) : bytes :=
  let n := N_of_ascii c in
  if (n <? 128)%N then [byte_of_N n]
  else [byte_of_N (192 + n / 64); byte_of_N (128 + n mod 64)].

Definition utf8 (s : string) : bytes :=
  concat (map utf8_char (list_ascii_of_string s)).

(** *** The pickler *)

(** A piece of the pickler: from the size of the memo to the bytes
    written and the size of the memo afterwards. *)
Definition saver : Type := N → bytes * N.

(** [memo_put] *)
Definition put (idx : N) : bytes :=
  if (idx <? 256)%N then [BINPUT; byte_of_N idx]
  else LONG_BINPUT :: le_bytes 4 idx.

(** [save_unicode] *)
Definition save_unicode (s : string) : saver := λ idx,
  let encoded := utf8 s in
  (BINUNICODE :: le_bytes 4 (N.of_nat (length encoded)) ++ encoded ++ put idx,
   (idx + 1)%N).

(** The loop of [batch_dict_exact], after its first MARK: [i] entries
    of the current batch are written. *)
Fixpoint batch_dict (i : nat) (entries : list saver) : saver := λ idx,
  match entries with
  | [] => ([SETITEMS], idx)
  | entry :: entries' =>
      let '(b, idx) := entry idx in
      if Nat.eqb (S i) BATCHSIZE
      then let '(bs, idx) := batch_dict 0 entries' idx in
           (b ++ SETITEMS :: MARK :: bs, idx)
      else let '(bs, idx) := batch_dict (S i) entries' idx in
           (b ++ bs, idx)
  end.

(** The loop of [batch_list_exact], after its first MARK. *)
Fixpoint batch_list (i : nat) (items : list saver) : saver := λ idx,
  match items with
  | [] => ([APPENDS], idx)
  | item :: items' =>
      let '(b, idx) := item idx in
      match items' with
      | _ :: _ =>
          if Nat.eqb (S i) BATCHSIZE
          then let '(bs, idx) := batch_list 0 items' idx in
               (b ++ APPENDS :: MARK :: bs, idx)
          else let '(bs, idx) := batch_list (S i) items' idx in
               (b ++ bs, idx)
      | [] => (b ++ [APPENDS], idx)
      end
  end.

(** [save_dict] and [save_list] after the empty container is written
    and memoized: nothing for no entry, SETITEM or APPEND for one,
    batches otherwise. *)
Definition save_entries (one many : byte) (batch : nat → list saver → saver)
    (entries : list saver) : saver := λ idx,
  match entries with
  | [] => ([], idx)
  | [entry] => let '(b, idx) := entry idx in (b ++ [one], idx)
  | _ => let '(bs, idx) := batch O entries idx in (MARK :: bs, idx)
  end.

Definition save_entry (save : pyobj → saver) (key : string) (value : pyobj)
  : saver := λ idx,
  let '(b1, idx) := save_unicode key idx in
  let '(b2, idx) := save value idx in
  (b1 ++ b2, idx).

(** [save]: None, booleans, integers, text, lists and dicts. *)
Fixpoint save (v : pyobj) : saver := λ idx,
  match v with
  | PyNone => ([NONE], idx)
  | PyBool true => ([NEWTRUE], idx)
  | PyBool false => ([NEWFALSE], idx)
  | PyInt z => (save_long z, idx)
  | PyStr s => save_unicode s idx
  | PyList l =>
      let '(bs, idx') :=
        save_entries APPEND APPENDS batch_list (map save l) (idx + 1)%N in
      (EMPTY_LIST :: put idx ++ bs, idx')
  | PyDict d =>
      let entries := map_fold (λ k x acc, save_entry save k x :: acc) [] d in
      let '(bs, idx') :=
        save_entries SETITEM SETITEMS batch_dict entries (idx + 1)%N in
      (EMPTY_DICT :: put idx ++ bs, idx')
  end.

(** [pickle.dumps(obj, protocol=2)] *)
Definition dumps (obj : pyobj) : bytes :=
  PROTO :: x02 :: (save obj 0%N).1 ++ [STOP].

(** *** The unpickler *)

(** What the stack of the unpickler holds: objects and marks. *)
Inductive item : Type :=
  | Obj (v : pyobj)
  | Mark.

(** How an opcode ends: the machine goes on, or [load] returns. *)
Inductive outcome : Type :=
  | Next (bs : bytes) (stack : list item) (memo : gmap N pyobj)
  | Done (r : exn + pyobj).

Definition truncated : outcome :=
  Done (inl (Exn UnpicklingError "pickle data was truncated")).
Definition underflow : outcome :=
  Done (inl (Exn UnpicklingError "unpickling stack underflow")).

(** [n] bytes of operand and the bytes after them. *)
Definition read (n : nat) (bs : bytes) : option (bytes * bytes) :=
  if (n <=? length bs)%nat then Some (take n bs, drop n bs) else None.

(** The objects above the topmost mark, oldest first, and the stack
    below the mark. *)
Fixpoint pop_mark (stack : list item) (acc : list pyobj)
  : option (list pyobj * list item) :=
  match stack with
  | [] => None
  | Mark :: stack' => Some (acc, stack')
  | Obj v :: stack' => pop_mark stack' (v :: acc)
  end.

(** Keys and values in turn, as pairs. *)
Fixpoint pairs (objs : list pyobj) : option (list (string * pyobj)) :=
  match objs with
  | [] => Some []
  | PyStr k :: v :: objs' => cons (k, v) <$> pairs objs'
  | _ => None
  end.

(** [d[k] = v] for each pair in turn. *)
Definition set_items (d : gmap string pyobj) (kvs : list (string * pyobj))
  : gmap string pyobj :=
  foldl (λ d kv, <[kv.1 := kv.2]> d) d kvs.

Definition push (v : pyobj) (bs : bytes) (stack : list item)
    (memo : gmap N pyobj) : outcome :=
  Next bs (Obj v :: stack) memo.

Definition load_long (n : nat) (bs : bytes) (stack : list item)
    (memo : gmap N pyobj) : outcome :=
  match read n bs with
  | Some (data, bs) => push (PyInt (decode_long data)) bs stack memo
  | None => truncated
  end.

Definition load_put (n : nat) (bs : bytes) (stack : list item)
    (memo : gmap N pyobj) : outcome :=
  match read n bs with
  | Some (i, bs) =>
      match stack with
      | Obj v :: _ => Next bs stack (<[le_value i := v]> memo)
      | _ => underflow
      end
  | None => truncated
  end.

(** One opcode [op], with the bytes after it. *)
Definition step (op : byte) (bs : bytes) (stack : list item)
    (memo : gmap N pyobj) : outcome :=
  match op with
  | x80 => (* PROTO *)
      match read 1 bs with
      | Some (p, bs) =>
          if (le_value p <=? 5)%N then Next bs stack memo
          else Done (inl (Exn ValueError "unsupported pickle protocol"))
      | None => truncated
      end
  | x2e => (* STOP *)
      match stack with
      | Obj v :: _ => Done (inr v)
      | _ => underflow
      end
  | x4e => push PyNone bs stack memo          (* NONE *)
  | x88 => push (PyBool true) bs stack memo   (* NEWTRUE *)
  | x89 => push (PyBool false) bs stack memo  (* NEWFALSE *)
  | x4b => (* BININT1 *)
      match read 1 bs with
      | Some (data, bs) => push (PyInt (Z.of_N (le_value data))) bs stack memo
      | None => truncated
      end
  | x4d => (* BININT2 *)
      match read 2 bs with
      | Some (data, bs) => push (PyInt (Z.of_N (le_value data))) bs stack memo
      | None => truncated
      end
  | x4a => load_long 4 bs stack memo  (* BININT *)
  | x8a => (* LONG1 *)
      match read 1 bs with
      | Some (n, bs) => load_long (N.to_nat (le_value n)) bs stack memo
      | None => truncated
      end
  | x8b => (* LONG4 *)
      match read 4 bs with
      | Some (n, bs) =>
          if decode_long n <? 0
          then Done (inl (Exn UnpicklingError "LONG pickle has negative byte count"))
          else load_long (Z.to_nat (decode_long n)) bs stack memo
      | None => truncated
      end
  | x58 => (* BINUNICODE *)
      match read 4 bs with
      | Some (n, bs) =>
          match read (N.to_nat (le_value n)) bs with
          | Some (data, bs) =>
              match reference.decode data with
              | inr s => push (PyStr s) bs stack memo
              | inl e => Done (inl e)
              end
          | None => truncated
          end
      | None => truncated
      end
  | x5d => push (PyList []) bs stack memo  (* EMPTY_LIST *)
  | x7d => push (PyDict ∅) bs stack memo   (* EMPTY_DICT *)
  | x61 => (* APPEND *)
      match stack with
      | Obj v :: Obj (PyList l) :: stack' =>
          Next bs (Obj (PyList (l ++ [v])) :: stack') memo
      | Obj _ :: Obj _ :: _ =>
          Done (inl (Exn AttributeError "object has no attribute 'append'"))
      | _ => underflow
      end
  | x65 => (* APPENDS *)
      match pop_mark stack [] with
      | Some (objs, Obj (PyList l) :: stack') =>
          Next bs (Obj (PyList (l ++ objs)) :: stack') memo
      | Some (_, Obj _ :: _) =>
          Done (inl (Exn AttributeError "object has no attribute 'extend'"))
      | _ => underflow
      end
  | x73 => (* SETITEM *)
      match stack with
      | Obj v :: Obj (PyStr k) :: Obj (PyDict d) :: stack' =>
          Next bs (Obj (PyDict (<[k := v]> d)) :: stack') memo
      | Obj _ :: Obj _ :: Obj _ :: _ =>
          Done (inl (Exn TypeError "object does not support item assignment"))
      | _ => underflow
      end
  | x75 => (* SETITEMS *)
      match pop_mark stack [] with
      | Some (objs, Obj (PyDict d) :: stack') =>
          match pairs objs with
          | Some kvs => Next bs (Obj (PyDict (set_items d kvs)) :: stack') memo
          | None => Done (inl (Exn UnpicklingError "odd number of items for SETITEMS"))
          end
      | Some (_, Obj _ :: _) =>
          Done (inl (Exn TypeError "object does not support item assignment"))
      | _ => underflow
      end
  | x28 => Next bs (Mark :: stack) memo  (* MARK *)
  | x71 => load_put 1 bs stack memo      (* BINPUT *)
  | x72 => load_put 4 bs stack memo      (* LONG_BINPUT *)
  | _ => Done (inl (Exn UnpicklingError "invalid load key"))
  end.

(** The loop of [load]: opcode after opcode until STOP.  Every opcode
    takes a byte, so [fuel] above the number of bytes is enough. *)
Fixpoint run (fuel : nat) (bs : bytes) (stack : list item)
    (memo : gmap N pyobj) : exn + pyobj :=
  match fuel with
  | O => inl (Exn RuntimeError "pickle: out of fuel")
  | S fuel' =>
      match bs with
      | [] => inl (Exn EOFError "Ran out of input")
      | op :: bs' =>
          match step op bs' stack memo with
          | Next bs'' stack' memo' => run fuel' bs'' stack' memo'
          | Done r => r
          end
      end
  end.

(** [pickle.loads(data)] *)
Definition loads (data : bytes) : exn + pyobj :=
  run (S (length data)) data [] ∅.

(** What protocol 2 can hold: a text below 4 GiB of UTF-8, an integer
    below 2 GiB of two's complement. *)
Definition text_fits (s : string) : Prop :=
  (N.of_nat (length (utf8 s)) < 2 ^ 32)%N.

Definition long_fits (z : Z) : Prop :=
  Z.shiftr (Z.log2 (Z.abs z) + 1) 3 + 1 < 2 ^ 31.


(** The reference platform with this pickle in the place of its
    serializer. *)
Definition platform : Platform := {|
  ADDON_ID := @ADDON_ID reference.platform;
  ADDON_VERSION := @ADDON_VERSION reference.platform;
  ADDON_DIR := @ADDON_DIR reference.platform;
  ADDON_PROFILE_DIR := @ADDON_PROFILE_DIR reference.platform;
  getLocalizedString := @getLocalizedString reference.platform;
  md5_hexdigest := @md5_hexdigest reference.platform;
  pickle_load := loads;
  pickle_dump := dumps;
  decode_utf8 := @decode_utf8 reference.platform;
  pformat := @pformat reference.platform;
|}.

End pickle.

(** ** Notions for the proofs about pickle *)

Module pickle_aux.

Import pickle.

#[local] Open Scope list_scope.

(** Running the piece [b] of a pickle takes the unpickler from the
    stack [stack] to the stack [stack'], with fuel to go on. *)
Definition exec (b : bytes) (stack stack' : list item) : Prop :=
  ∀ memo rest fuel,
    (length (b ++ rest) < fuel)%nat →
    ∃ fuel' memo',
      (length rest < fuel')%nat
      ∧ run fuel (b ++ rest) stack memo = run fuel' rest stack' memo'.

(** The stack above a mark after the pairs [kvs] were pushed, and the
    objects [pop_mark] finds there. *)
Definition pushed (kvs : list (string * pyobj)) : list item :=
  foldl (λ stack kv, Obj kv.2 :: Obj (PyStr kv.1) :: stack) [] kvs.

Definition flat (kvs : list (string * pyobj)) : list pyobj :=
  concat (map (λ kv : string * pyobj, [PyStr kv.1; kv.2]) kvs).

(** A piece that pushes a key and its value. *)
Definition entry_ok (entry : saver) (kv : string * pyobj) : Prop :=
  ∀ idx stack, exec (entry idx).1 stack (Obj kv.2 :: Obj (PyStr kv.1) :: stack).

(** Bytes in hexadecimal. *)
Definition hex (bs : bytes) : string :=
  reference.md5.hex (map (λ b, Z.of_N (Byte.to_N b)) bs).

End pickle_aux.

(** ** Concrete files and worlds on the reference platform *)

Module examples.

Import kodi_service.

Definition quoted (s : string) : string := String dquote s ++ String dquote "".

(** The catalog of three records, the second with an empty string. *)
Definition catalog : string :=
  "msgctxt " ++ quoted "#100" ++ "
msgid " ++ quoted "Play" ++ "
msgctxt " ++ quoted "#101" ++ "
msgid " ++ quoted "" ++ "
msgctxt " ++ quoted "#102" ++ "
msgid " ++ quoted "Stop".

Definition catalog_bytes : bytes := list_byte_of_string catalog.

(** No file at all. *)
Definition fs_empty : filesystem := {| files := ∅; written := [] |}.

(** A fresh installation: the catalog and no cache file. *)
Definition fs_fresh : filesystem :=
  {| files := {[ en_gb_string_po_path := catalog_bytes ]}; written := [] |}.

(** A cache written for an older catalog. *)
Definition stale_strings : gmap string pyobj := {[ "Play" := PyInt 1 ]}.
Definition stale_dict : gmap string pyobj :=
  <["strings" := PyDict stale_strings]>
    (<["md5" := PyStr "00000000000000000000000000000000"]> ∅).

Definition fs_stale : filesystem :=
  {| files := <[string_mapping_path := pickle_dump (PyDict stale_dict)]>
                (files fs_fresh);
     written := [] |}.

(** A cache file left empty (a write that was cut short). *)
Definition fs_truncated : filesystem :=
  {| files := <[string_mapping_path := []]> (files fs_fresh); written := [] |}.

(** A cache file that holds a serialized empty dict. *)
Definition fs_malformed : filesystem :=
  {| files := <[string_mapping_path := pickle_dump (PyDict ∅)]> (files fs_fresh);
     written := [] |}.

(** The same catalog with CRLF line ends and a final line break. *)
Definition crlf : string := String re.cr (String re.newline "").

Definition catalog_crlf : string :=
  "msgctxt " ++ quoted "#100" ++ crlf ++ "msgid " ++ quoted "Play" ++ crlf
    ++ "msgctxt " ++ quoted "#101" ++ crlf ++ "msgid " ++ quoted "" ++ crlf
    ++ "msgctxt " ++ quoted "#102" ++ crlf ++ "msgid " ++ quoted "Stop" ++ crlf.

(** A catalog that gives the string Play twice, and a [msgid] line whose
    text holds a double quote. *)
Definition catalog_twice : string :=
  "msgctxt " ++ quoted "#100" ++ "
msgid " ++ quoted "Play" ++ "
msgctxt " ++ quoted "#007" ++ "
msgid " ++ quoted "Play" ++ "
msgid " ++ quoted "orphan" ++ "
msgctxt " ++ quoted "#8" ++ "
msgid " ++ quoted ("say " ++ quoted "hi").

(** A Kodi library with one unwatched episode, nothing sent or logged
    yet. *)
Definition kodi0 : kodi_api.world :=
  {| kodi_api.kodi := {[ 7 := 0 ]};
     kodi_api.requests := [];
     kodi_api.log := [] |}.


(** A block that fails: [raise RuntimeError('Fatal error!')]. *)
Definition fatal_error : M (list (loglevel * string)) unit :=
  raise (Exn RuntimeError "Fatal error!").

(** A record of the catalog as text: the [msgctxt] line of [string_id]
    and the [msgid] line of [en_string]. *)
Definition po_record (string_id en_string : string) : string :=
  "msgctxt " ++ quoted ("#" ++ string_id) ++ String re.newline ""
    ++ "msgid " ++ quoted en_string.

(** A cache that carries the digest of the catalog in place and a
    mapping the catalog does not give. *)
Definition trusted_dict : gmap string pyobj :=
  <["strings" := PyDict stale_strings]>
    (<["md5" := PyStr (md5_hexdigest catalog_bytes)]> ∅).

Definition fs_trusted : filesystem :=
  {| files := <[string_mapping_path := pickle_dump (PyDict trusted_dict)]>
                (files fs_fresh);
     written := [] |}.

(** A catalog that is not UTF-8 (the single byte 0xFF), and no cache. *)
Definition fs_undecodable : filesystem :=
  {| files := {[ en_gb_string_po_path := [Byte.xff] ]}; written := [] |}.

(** A logger function that fails. *)
Definition log_closed (message : string) : M (list (loglevel * string)) unit :=
  raise (Exn IOError "log is closed").

(** A host whose every reply is a result without episodes. *)
Definition no_recent_episodes : pyobj :=
  reference.reply_result (PyDict (<["limits" := PyDict ∅]> ∅)).

Definition kodi_canned : @kodi_api.world (reference.canned no_recent_episodes) :=
  @kodi_api.Build_world (reference.canned no_recent_episodes) () [] [].

(** A host that answers every request with an error reply, and one
    whose every result is [null]; nothing sent or logged yet. *)
Definition kodi_error : @kodi_api.world (reference.canned reference.reply_error) :=
  @kodi_api.Build_world (reference.canned reference.reply_error) () [] [].

Definition null_result : pyobj := reference.reply_result PyNone.

Definition kodi_null : @kodi_api.world (reference.canned null_result) :=
  @kodi_api.Build_world (reference.canned null_result) () [] [].

End examples.

(** ** Notions for the proofs about the catalog pattern *)

Module catalog_aux.

Import catalog_spec.

#[local] Open Scope nat_scope.
#[local] Open Scope list_scope.

Abbreviation dq := kodi_service.dquote.
Abbreviation nl := re.newline.
Abbreviation cr := re.cr.

(** No [^] in the pattern: matching it does not look at the previous
    character. *)
Definition no_bol (p : list re.item) : bool :=
  forallb (λ i, match i with re.Bol => false | _ => true end) p.

(** The longest prefix of [s] in the class [f], and the rest. *)
Fixpoint span (f : ascii → bool) (s : list ascii) : list ascii * list ascii :=
  match s with
  | c :: s' => if f c then let '(a, b) := span f s' in (c :: a, b) else ([], s)
  | [] => ([], [])
  end.

(** The text after a line end: a newline, or a carriage return and a
    newline. *)
Definition eol_skip (s : list ascii) : option (list ascii) :=
  match s with
  | c :: s' =>
      if Ascii.eqb nl c then Some s'
      else if Ascii.eqb cr c
           then match s' with
                | c2 :: s'' => if Ascii.eqb nl c2 then Some s'' else None
                | [] => None
                end
           else None
  | [] => None
  end.

(** What may follow the text of a [msgid] line: the closing quote, then
    an optional carriage return. *)
Definition is_close (b : list ascii) : bool :=
  bool_decide (b = [dq] ∨ b = [dq; cr]).

(** The longest [str] with [l = str ++ b] and [b] a closing: where the
    greedy [.*] ends up. *)
Fixpoint quoted_split (l : list ascii) : option (list ascii * list ascii) :=
  match l with
  | [] => None
  | c :: l' =>
      match quoted_split l' with
      | Some (str, b) => Some (c :: str, b)
      | None => if is_close l then Some ([], l) else None
      end
  end.

(** The end of the pattern, after [.*]. *)
Definition closing : list re.item :=
  [re.Mark; re.One (re.Chr dq); re.Opt (re.Chr cr); re.Eol].

(** The two line recognizers, as the matcher runs them (left to right). *)
Definition direct_ctxt (l : list ascii) : option (list ascii) :=
  rest ← strip_prefix msgctxt_open l;
  let '(a, b) := span re.is_digit rest in
  if is_close b && negb (bool_decide (a = [])) then Some a else None.

Definition direct_msgid (l : list ascii) : option (list ascii) :=
  rest ← strip_prefix msgid_open l;
  fst <$> quoted_split rest.

(** The text after the current line: each further line after its
    newline. *)
Fixpoint tail_of (ls : list (list ascii)) : list ascii :=
  match ls with
  | [] => []
  | l :: ls' => nl :: l ++ tail_of ls'
  end.

(** The pattern, split at the line break. *)
Definition lit_items (cs : list ascii) : list re.item :=
  map (λ c, re.One (re.Chr c)) cs.

Definition msgid_part : list re.item :=
  lit_items msgid_open ++ re.Mark :: re.Star re.Dot :: closing.

(** The groups and the rest of a match. *)
Definition groups_rest (r : option (list (list ascii) * list ascii))
  : option (list (list ascii) * list ascii) :=
  match r with
  | Some (marks, rest) => Some (re.groups_of marks [], rest)
  | None => None
  end.

Abbreviation pat := kodi_service.strings_po_pattern.

(** The matches from the start of the next line on. *)
Definition from_next_line (ls : list (list ascii)) : list (list (list ascii)) :=
  match ls with
  | [] => []
  | l :: ls' => re.findall_from pat (Some nl) (l ++ tail_of ls') 0
  end.

(** A record as the list of its two groups. *)
Definition groups_of_record (r : list ascii * list ascii) : list (list ascii) :=
  [r.1; r.2].

(** The last character of a path. *)
Fixpoint str_last (s : string) : option ascii :=
  match s with
  | EmptyString => None
  | String c EmptyString => Some c
  | String _ s' => str_last s'
  end.

End catalog_aux.

(** * Theorems *)

(** ** The catalog pattern finds the records of the catalog format *)

Module catalog_proofs.

Import catalog_spec catalog_aux.

#[local] Open Scope nat_scope.
#[local] Open Scope list_scope.

Lemma star_greedy_prev {R} a (k : option ascii → list ascii → option R) :
  (∀ s pv pv', k pv s = k pv' s) →
  ∀ s pv pv', re.star_greedy a k pv s = re.star_greedy a k pv' s.
Proof.
  intros Hk. induction s as [|c s IH]; intros pv pv'; simpl; [apply Hk|].
  by rewrite (Hk (c :: s) pv pv').
Qed.

Lemma match_here_prev p : no_bol p = true → ∀ marks s prev prev',
  re.match_here p prev s marks = re.match_here p prev' s marks.
Proof.
  induction p as [|i p IH]; [done|].
  intros Hp. simpl in Hp. apply andb_prop in Hp as [Hi Hp]. specialize (IH Hp).
  destruct i; try discriminate; intros marks s prev prev'; simpl.
  - destruct s; [done|]. destruct (re.atom_ok a a0); auto.
  - destruct s; [auto|]. destruct (re.atom_ok a a0); auto.
    by rewrite (IH marks (a0 :: s) prev prev').
  - apply star_greedy_prev. intros. apply IH.
  - done.
  - destruct (re.at_eol s); auto.
  - auto.
Qed.

Lemma match_lit cs p prev s marks :
  no_bol p = true →
  re.match_here (map (λ c, re.One (re.Chr c)) cs ++ p) prev s marks =
  match strip_prefix cs s with
  | Some rest => re.match_here p None rest marks
  | None => None
  end.
Proof.
  intros Hp. revert prev s. induction cs as [|c cs IH]; intros prev s; simpl.
  - apply match_here_prev, Hp.
  - destruct s as [|c' s]; [done|]. destruct (Ascii.eqb c c'); [apply IH|done].
Qed.

Lemma match_lazy_digits p prev s marks :
  no_bol p = true →
  re.match_here (re.PlusLazy re.Digit :: re.Mark :: re.One (re.Chr dq) :: p)
                prev s marks =
  match span re.is_digit s with
  | (_ :: _, q :: rest) =>
      if Ascii.eqb dq q then re.match_here p None rest ((q :: rest) :: marks)
      else None
  | _ => None
  end.
Proof.
  intros Hp. change (re.match_here (re.PlusLazy re.Digit :: ?q) prev s marks)
    with (re.plus_lazy re.Digit (λ prev s, re.match_here q prev s marks) s).
  induction s as [|c s IH]; [done|].
  cbn [span re.plus_lazy]. change (re.atom_ok re.Digit c) with (re.is_digit c).
  destruct (re.is_digit c) eqn:Hc; [|done].
  rewrite IH. clear IH.
  destruct s as [|c' s]; [done|].
  cbn [span re.match_here]. change (re.atom_ok (re.Chr dq) c') with (Ascii.eqb dq c').
  destruct (re.is_digit c') eqn:Hc'.
  - assert (Ascii.eqb dq c' = false) as ->.
    { apply Ascii.eqb_neq. intros <-. discriminate. }
    cbn [re.orelse]. destruct (span re.is_digit s) as [a b]. done.
  - destruct (Ascii.eqb dq c') eqn:Hq; [|done].
    rewrite (match_here_prev p Hp _ s (Some c') None).
    by destruct (re.match_here p None s ((c' :: s) :: marks)).
Qed.

Lemma match_opt_cr_nl p prev s marks :
  no_bol p = true →
  re.match_here (re.Opt (re.Chr cr) :: re.One (re.Chr nl) :: p) prev s marks =
  match eol_skip s with
  | Some rest => re.match_here p None rest marks
  | None => None
  end.
Proof.
  intros Hp. cbn [re.match_here re.atom_ok]. destruct s as [|c s]; [done|].
  cbn [eol_skip]. destruct (Ascii.eqb_spec cr c) as [<-|Hc].
  - replace (Ascii.eqb nl cr) with false by done.
    destruct s as [|c2 s]; [done|].
    destruct (Ascii.eqb nl c2); cbn [re.orelse].
    + rewrite (match_here_prev p Hp _ s (Some c2) None).
      by destruct (re.match_here p None s marks).
    + done.
  - destruct (Ascii.eqb nl c); [|done]. apply match_here_prev, Hp.
Qed.

Lemma match_closing b tail prev marks :
  Forall (λ c, c ≠ nl) b → re.at_eol tail = true →
  re.match_here closing prev (b ++ tail) marks =
  if is_close b then Some ((b ++ tail) :: marks, tail) else None.
Proof.
  intros Hb Ht. unfold closing. cbn [re.match_here re.atom_ok].
  destruct b as [|c b].
  { simpl. destruct tail as [|c t]; [done|]. simpl in Ht.
    apply Ascii.eqb_eq in Ht as ->. done. }
  apply Forall_cons in Hb as [Hc Hb]. cbn [app].
  destruct (Ascii.eqb_spec dq c) as [<-|Hq].
  2:{ unfold is_close. rewrite bool_decide_eq_false_2; [done|]. intros [?|?]; congruence. }
  destruct b as [|c2 b].
  { cbn [app]. replace (is_close [dq]) with true by (symmetry; apply bool_decide_eq_true_2; auto).
    destruct tail as [|c t]; [done|]. simpl in Ht. apply Ascii.eqb_eq in Ht as ->.
    done. }
  apply Forall_cons in Hb as [Hc2 Hb]. cbn [app].
  destruct (Ascii.eqb_spec cr c2) as [<-|Hr].
  - destruct b as [|c3 b].
    + cbn [app]. rewrite Ht. cbn [re.orelse].
      replace (is_close [dq; cr]) with true by (symmetry; apply bool_decide_eq_true_2; auto).
      done.
    + apply Forall_cons in Hb as [Hc3 Hb]. cbn [app re.at_eol].
      apply Ascii.eqb_neq in Hc3 as ->. cbn.
      unfold is_close. rewrite bool_decide_eq_false_2; [done|]. intros [?|?]; congruence.
  - cbn [re.at_eol]. apply Ascii.eqb_neq in Hc2 as ->.
    unfold is_close. rewrite bool_decide_eq_false_2; [done|]. intros [?|?]; congruence.
Qed.

Lemma match_star_closing l tail prev marks :
  Forall (λ c, c ≠ nl) l → re.at_eol tail = true →
  re.match_here (re.Star re.Dot :: closing) prev (l ++ tail) marks =
  match quoted_split l with
  | Some (str, b) => Some ((b ++ tail) :: marks, tail)
  | None => None
  end.
Proof.
  intros Hl Ht.
  change (re.match_here (re.Star re.Dot :: closing) prev (l ++ tail) marks)
    with (re.star_greedy re.Dot (λ prev s, re.match_here closing prev s marks)
            prev (l ++ tail)).
  revert prev. induction Hl as [|c l Hc Hl IH]; intros prev.
  - cbn [app quoted_split].
    pose proof (match_closing [] tail prev marks (Forall_nil_2 _) Ht) as Hnone.
    cbn [app] in Hnone. change (is_close []) with false in Hnone.
    destruct tail as [|c t]; [done|]. simpl in Ht. apply Ascii.eqb_eq in Ht as ->.
    cbn [re.star_greedy]. exact Hnone.
  - cbn [app quoted_split re.star_greedy re.atom_ok].
    apply Ascii.eqb_neq in Hc as Hc'. rewrite Hc'. cbn [negb].
    rewrite IH. destruct (quoted_split l) as [[str b]|]; [done|].
    cbn [re.orelse]. change (c :: l ++ tail) with ((c :: l) ++ tail).
    rewrite (match_closing (c :: l) tail prev marks) by (by constructor || done).
    by destruct (is_close (c :: l)).
Qed.

Lemma strip_cr_nil l : strip_cr l = [] → l = [] ∨ l = [cr].
Proof.
  destruct l as [|c [|c2 l]]; simpl; auto.
  - destruct (Ascii.eqb_spec c cr); [subst; auto | done].
  - done.
Qed.

Lemma quoted_split_close l :
  is_close l = true → quoted_split l = Some ([], l).
Proof.
  intros Hl. apply bool_decide_eq_true_1 in Hl as [->| ->]; done.
Qed.

Lemma quoted_split_unquote l :
  quoted_split l = (λ str, (str, drop (length str) l)) <$> unquote (strip_cr l).
Proof.
  induction l as [|c l IH]; [done|].
  destruct l as [|c2 l].
  { simpl. destruct (Ascii.eqb_spec c cr) as [->|Hc]; [done|].
    simpl. destruct (Ascii.eqb_spec c dq) as [->|Hq]; [done|].
    unfold is_close. rewrite bool_decide_eq_false_2; [done|]. intros [?|?]; congruence. }
  change (strip_cr (c :: c2 :: l)) with (c :: strip_cr (c2 :: l)).
  change (quoted_split (c :: c2 :: l)) with
    (match quoted_split (c2 :: l) with
     | Some (str, b) => Some (c :: str, b)
     | None => if is_close (c :: c2 :: l) then Some ([], c :: c2 :: l) else None
     end).
  rewrite IH. clear IH.
  destruct (strip_cr (c2 :: l)) as [|x X] eqn:HX.
  - apply strip_cr_nil in HX as [?| [= -> ->]]; [done|].
    simpl. destruct (Ascii.eqb_spec c dq) as [->|Hq]; [done|].
    unfold is_close. rewrite bool_decide_eq_false_2; [done|]. intros [?|?]; congruence.
  - change (unquote (c :: x :: X)) with (cons c <$> unquote (x :: X)).
    destruct (unquote (x :: X)) as [str|]; [done|]. simpl.
    unfold is_close. rewrite bool_decide_eq_false_2; [done|].
    intros [?| [= -> -> ->]]; [congruence|]. done.
Qed.

Lemma strip_prefix_strip_cr pre l :
  pre ≠ [] → Forall (λ p, p ≠ cr) pre →
  strip_prefix pre (strip_cr l) = strip_cr <$> strip_prefix pre l.
Proof.
  intros Hne Hpre. revert l. induction Hpre as [|p pre Hp Hpre IH]; [done|].
  intros [|c [|c2 l]].
  - done.
  - simpl. destruct (Ascii.eqb_spec c cr) as [->|Hc].
    + apply Ascii.eqb_neq in Hp as ->. done.
    + simpl. destruct (Ascii.eqb p c); [|done]. by destruct pre.
  - change (strip_cr (c :: c2 :: l)) with (c :: strip_cr (c2 :: l)).
    simpl strip_prefix at 1. cbn [strip_prefix].
    destruct (Ascii.eqb p c); [|done].
    destruct pre as [|p' pre]; [done|]. exact (IH ltac:(done) (c2 :: l)).
Qed.

Lemma quoted_split_span l :
  (match quoted_split l with
   | Some (str, _) => if forallb re.is_digit str then Some str else None
   | None => None
   end) =
  (let '(a, b) := span re.is_digit l in if is_close b then Some a else None).
Proof.
  induction l as [|c l IH]; [done|].
  cbn [quoted_split span]. destruct (re.is_digit c) eqn:Hc.
  - destruct (span re.is_digit l) as [a b].
    destruct (quoted_split l) as [[str b']|].
    + cbn [forallb]. rewrite Hc. cbn [andb].
      destruct (forallb re.is_digit str); destruct (is_close b); congruence.
    + assert (is_close (c :: l) = false) as ->.
      { apply bool_decide_eq_false_2. intros [[= -> ->]|[= -> ->]]; done. }
      by destruct (is_close b).
  - destruct (quoted_split l) as [[str b']|] eqn:Hq.
    + cbn [forallb]. rewrite Hc. cbn [andb].
      destruct (is_close (c :: l)) eqn:Hcl; [|done].
      apply bool_decide_eq_true_1 in Hcl as [[= -> ->]|[= -> ->]]; done.
    + by destruct (is_close (c :: l)).
Qed.

Lemma msgctxt_open_no_cr : Forall (λ p, p ≠ cr) msgctxt_open.
Proof. repeat constructor; done. Qed.
Lemma msgid_open_no_cr : Forall (λ p, p ≠ cr) msgid_open.
Proof. repeat constructor; done. Qed.
Lemma msgctxt_open_no_nl : Forall (λ p, p ≠ nl) msgctxt_open.
Proof. repeat constructor; done. Qed.
Lemma msgid_open_no_nl : Forall (λ p, p ≠ nl) msgid_open.
Proof. repeat constructor; done. Qed.

Lemma unquote_strip_cr l : unquote (strip_cr l) = fst <$> quoted_split l.
Proof. rewrite quoted_split_unquote. by destruct (unquote (strip_cr l)). Qed.

Lemma msgid_text_direct l : msgid_text l = direct_msgid l.
Proof.
  unfold msgid_text, direct_msgid.
  rewrite strip_prefix_strip_cr by (done || apply msgid_open_no_cr).
  destruct (strip_prefix msgid_open l) as [r|]; [|done]. simpl.
  apply unquote_strip_cr.
Qed.

Lemma span_nil_l f l b : span f l = ([], b) → b = l.
Proof.
  destruct l as [|c l]; simpl; [congruence|].
  destruct (f c); [|congruence]. destruct (span f l). congruence.
Qed.

Lemma msgctxt_id_direct l : msgctxt_id l = direct_ctxt l.
Proof.
  unfold msgctxt_id, direct_ctxt.
  rewrite strip_prefix_strip_cr by (done || apply msgctxt_open_no_cr).
  destruct (strip_prefix msgctxt_open l) as [r|]; [|done]. simpl.
  rewrite unquote_strip_cr.
  pose proof (quoted_split_span r) as H.
  destruct (quoted_split r) as [[str b']|]; simpl;
    destruct (span re.is_digit r) as [a b]; simpl in H.
  - destruct (forallb re.is_digit str); simpl.
    + destruct (is_close b); [|done]. by injection H as ->.
    + destruct (is_close b); done.
  - destruct (is_close b); done.
Qed.

Lemma at_eol_tail_of ls : re.at_eol (tail_of ls) = true.
Proof. by destruct ls. Qed.

Lemma strip_prefix_app pre l tail :
  Forall (λ p, p ≠ nl) pre → re.at_eol tail = true →
  strip_prefix pre (l ++ tail) = (λ r, r ++ tail) <$> strip_prefix pre l.
Proof.
  intros Hpre Ht. revert l. induction Hpre as [|p pre Hp Hpre IH]; [done|].
  intros [|c l]; simpl.
  - destruct tail as [|c t]; [done|]. simpl in Ht. apply Ascii.eqb_eq in Ht as ->.
    by apply Ascii.eqb_neq in Hp as ->.
  - destruct (Ascii.eqb p c); [apply IH|done].
Qed.

Lemma strip_prefix_Forall (P : ascii → Prop) pre l r :
  Forall P l → strip_prefix pre l = Some r → Forall P r.
Proof.
  revert l. induction pre as [|p pre IH]; intros l Hl; simpl.
  - congruence.
  - destruct l as [|c l]; [done|]. destruct (Ascii.eqb p c); [|done].
    apply Forall_cons in Hl as [_ Hl]. by apply IH.
Qed.

Lemma span_app l tail :
  re.at_eol tail = true →
  span re.is_digit (l ++ tail) =
  let '(a, b) := span re.is_digit l in (a, b ++ tail).
Proof.
  intros Ht. induction l as [|c l IH]; simpl.
  - destruct tail as [|c t]; [done|]. simpl in Ht. apply Ascii.eqb_eq in Ht as ->.
    done.
  - destruct (re.is_digit c); [|done]. rewrite IH. by destruct (span re.is_digit l).
Qed.

Lemma span_eq f l a b : span f l = (a, b) → l = a ++ b.
Proof.
  revert a b. induction l as [|c l IH]; intros a b; simpl.
  - by intros [= <- <-].
  - destruct (f c); [|by intros [= <- <-]].
    destruct (span f l) as [a' b']. intros [= <- <-]. by rewrite (IH a' b').
Qed.

Lemma quoted_split_eq l str b : quoted_split l = Some (str, b) → l = str ++ b.
Proof.
  revert str b. induction l as [|c l IH]; intros str b; simpl; [done|].
  destruct (quoted_split l) as [[str' b']|].
  - intros [= <- <-]. by rewrite (IH str' b').
  - destruct (is_close (c :: l)); [|done]. by intros [= <- <-].
Qed.

Lemma between_app a b t : re.between ((a ++ b) ++ t) (b ++ t) = a.
Proof.
  unfold re.between. rewrite <-app_assoc, !length_app.
  replace (length a + (length b + length t) - (length b + length t))%nat
    with (length a) by lia.
  by rewrite take_app_length.
Qed.

Lemma pattern_eq :
  kodi_service.strings_po_pattern =
  re.Bol :: lit_items msgctxt_open ++
    (re.Mark :: re.PlusLazy re.Digit :: re.Mark :: re.One (re.Chr dq) ::
     re.Opt (re.Chr cr) :: re.One (re.Chr nl) :: msgid_part).
Proof. reflexivity. Qed.

Lemma no_bol_msgid_part : no_bol msgid_part = true.
Proof. reflexivity. Qed.

Lemma match_msgid_part l tail marks :
  Forall (λ c, c ≠ nl) l → re.at_eol tail = true →
  re.match_here msgid_part None (l ++ tail) marks =
  match strip_prefix msgid_open l with
  | Some r =>
      match quoted_split r with
      | Some (str, b) => Some ((b ++ tail) :: (r ++ tail) :: marks, tail)
      | None => None
      end
  | None => None
  end.
Proof.
  intros Hl Ht. unfold msgid_part, lit_items.
  rewrite match_lit by reflexivity.
  rewrite strip_prefix_app by (apply msgid_open_no_nl || done).
  destruct (strip_prefix msgid_open l) as [r|] eqn:Hr; [|done].
  cbn [fmap option_fmap option_map].
  apply (strip_prefix_Forall _ _ _ _ Hl) in Hr.
  change (re.match_here (re.Mark :: ?p) None ?s marks)
    with (re.match_here p None s (s :: marks)).
  by rewrite match_star_closing.
Qed.

Lemma eol_skip_close r ls :
  Forall (λ c, c ≠ nl) r →
  eol_skip (r ++ tail_of ls) =
  if is_close (dq :: r)
  then match ls with l2 :: ls' => Some (l2 ++ tail_of ls') | [] => None end
  else None.
Proof.
  intros Hr. destruct r as [|c r].
  { change (is_close [dq]) with true. cbn iota. by destruct ls. }
  apply Forall_cons in Hr as [Hc Hr]. cbn [app eol_skip].
  assert (Ascii.eqb nl c = false) as -> by (apply Ascii.eqb_neq; congruence).
  destruct (Ascii.eqb_spec cr c) as [<-|Hcr].
  2:{ unfold is_close. rewrite bool_decide_eq_false_2; [done|]. intros [?|?]; congruence. }
  destruct r as [|c3 r].
  { change (is_close [dq; cr]) with true. cbn iota. by destruct ls. }
  apply Forall_cons in Hr as [Hc3 Hr]. cbn [app].
  assert (Ascii.eqb nl c3 = false) as -> by (apply Ascii.eqb_neq; congruence).
  unfold is_close. rewrite bool_decide_eq_false_2; [done|]. intros [?|?]; congruence.
Qed.

Lemma match_pattern_lines prev l1 ls :
  re.at_bol prev = true →
  Forall (Forall (λ c, c ≠ nl)) (l1 :: ls) →
  groups_rest (re.match_here kodi_service.strings_po_pattern prev
                 (l1 ++ tail_of ls) []) =
  match ls with
  | l2 :: ls' =>
      match direct_ctxt l1, direct_msgid l2 with
      | Some ds, Some str => Some ([ds; str], tail_of ls')
      | _, _ => None
      end
  | [] => None
  end.
Proof.
  intros Hbol Hls. apply Forall_cons in Hls as [Hl1 Hls].
  rewrite pattern_eq. cbn [re.match_here]. rewrite Hbol.
  unfold lit_items. rewrite match_lit by reflexivity.
  rewrite strip_prefix_app by (apply msgctxt_open_no_nl || apply at_eol_tail_of).
  unfold direct_ctxt.
  destruct (strip_prefix msgctxt_open l1) as [r1|] eqn:Hr1;
    cbn [fmap option_fmap option_map mbind option_bind];
    [|by destruct ls].
  apply (strip_prefix_Forall _ _ _ _ Hl1) in Hr1.
  change (re.match_here (re.Mark :: ?p) None ?s [])
    with (re.match_here p None s [s]).
  rewrite match_lazy_digits by reflexivity.
  rewrite span_app by apply at_eol_tail_of.
  destruct (span re.is_digit r1) as [ds r'] eqn:Hspan.
  pose proof (span_eq _ _ _ _ Hspan) as ->.
  apply Forall_app in Hr1 as [_ Hr'].
  destruct ds as [|d ds].
  { rewrite andb_false_r. by destruct ls. }
  change (negb (bool_decide (d :: ds = []))) with true. rewrite andb_true_r.
  destruct r' as [|q r''].
  { change (is_close []) with false. cbn [app]. destruct ls; [done|].
    cbn [tail_of]. done. }
  apply Forall_cons in Hr' as [Hq Hr'']. cbn [app].
  destruct (Ascii.eqb_spec dq q) as [<-|Hdq].
  2:{ assert (is_close (q :: r'') = false) as ->.
      { apply bool_decide_eq_false_2. intros [?|?]; congruence. }
      by destruct ls. }
  rewrite match_opt_cr_nl by reflexivity.
  rewrite eol_skip_close by done.
  destruct (is_close (dq :: r'')); [|by destruct ls].
  destruct ls as [|l2 ls']; [done|].
  apply Forall_cons in Hls as [Hl2 Hls].
  rewrite match_msgid_part by (done || apply at_eol_tail_of).
  unfold direct_msgid.
  destruct (strip_prefix msgid_open l2) as [r5|];
    cbn [fmap option_fmap option_map mbind option_bind]; [|done].
  destruct (quoted_split r5) as [[str b]|] eqn:Hqs;
    cbn [fmap option_fmap option_map fst groups_rest]; [|done].
  pose proof (quoted_split_eq _ _ _ Hqs) as ->.
  cbn [re.groups_of].
  rewrite (between_app str b).
  pose proof (between_app (d :: ds) (dq :: r'') (tail_of (l2 :: ls'))) as Hb.
  cbn [app] in Hb. by rewrite Hb.
Qed.

Lemma findall_from_0 p prev s :
  re.findall_from p prev s 0 =
  match re.match_here p prev s [] with
  | Some (marks, rest) =>
      re.groups_of marks [] ::
        match s with
        | c :: s' => re.findall_from p (Some c) s' (length s - length rest - 1)
        | [] => []
        end
  | None =>
      match s with
      | c :: s' => re.findall_from p (Some c) s' 0
      | [] => []
      end
  end.
Proof. by destruct s. Qed.

Lemma findall_from_skip p a b prev :
  re.findall_from p prev (a ++ b) (length a) =
  re.findall_from p (from_option Some prev (last a)) b 0.
Proof.
  revert prev. induction a as [|c a IH]; intros prev; [done|].
  cbn [app length re.findall_from]. rewrite IH.
  destruct a as [|x a]; [done|].
  change (last (c :: x :: a)) with (last (x :: a)).
  destruct (last (x :: a)) eqn:E; [done|]. by apply last_None in E.
Qed.

Lemma match_not_bol prev s :
  re.at_bol prev = false → re.match_here pat prev s [] = None.
Proof. intros H. rewrite pattern_eq. cbn [re.match_here]. by rewrite H. Qed.

Lemma scan_mid_line prev l ls :
  re.at_bol prev = false → Forall (λ c, c ≠ nl) l →
  re.findall_from pat prev (l ++ tail_of ls) 0 = from_next_line ls.
Proof.
  intros Hprev Hl. revert prev Hprev.
  induction Hl as [|c l Hc Hl IH]; intros prev Hprev;
    rewrite findall_from_0, match_not_bol by done.
  - by destruct ls.
  - cbn [app]. apply IH. by apply Ascii.eqb_neq.
Qed.

Lemma scan_failed_line prev l ls :
  re.match_here pat prev (l ++ tail_of ls) [] = None →
  Forall (λ c, c ≠ nl) l →
  re.findall_from pat prev (l ++ tail_of ls) 0 = from_next_line ls.
Proof.
  intros Hfail Hl. rewrite findall_from_0, Hfail.
  destruct Hl as [|c l Hc Hl]; [by destruct ls|].
  cbn [app]. apply scan_mid_line; [by apply Ascii.eqb_neq|done].
Qed.

Lemma groups_rest_None r : groups_rest r = None → r = None.
Proof. by destruct r as [[??]|]. Qed.

Lemma groups_rest_Some r g rest :
  groups_rest r = Some (g, rest) →
  ∃ marks, r = Some (marks, rest) ∧ re.groups_of marks [] = g.
Proof. destruct r as [[marks ?]|]; [|done]. intros [= <- <-]. eauto. Qed.

Lemma direct_msgid_not_ctxt l str : direct_msgid l = Some str → direct_ctxt l = None.
Proof.
  unfold direct_msgid, direct_ctxt.
  destruct (strip_prefix msgid_open l) as [r|] eqn:Hr; [|done]. intros _.
  assert (strip_prefix msgctxt_open l = None) as ->; [|done].
  destruct l as [|c1 [|c2 [|c3 [|c4 l]]]]; try done.
  all: revert Hr; unfold msgid_open, msgctxt_open;
    cbn [chars list_ascii_of_string app strip_prefix];
    repeat match goal with
           | |- context [Ascii.eqb ?a ?b] =>
               destruct (Ascii.eqb_spec a b) as [<-|?]
           end; done.
Qed.

Lemma direct_msgid_last l str :
  direct_msgid l = Some str → Forall (λ c, c ≠ nl) l →
  ∃ c, last l = Some c ∧ c ≠ nl.
Proof.
  intros Hm Hl. destruct (last l) as [c|] eqn:Hlast.
  - exists c. split; [done|]. apply last_Some in Hlast as [l' ->].
    apply Forall_app in Hl as [_ Hl]. by apply Forall_cons in Hl as [? _].
  - apply last_None in Hlast as ->. done.
Qed.

Lemma last_app_cons {A} (a : list A) x b : last (a ++ x :: b) = last (x :: b).
Proof. induction a as [|y a IH]; [done|]. rewrite <-IH. by destruct a. Qed.

Lemma records_cons l1 l2 ls :
  records (l1 :: l2 :: ls) =
  match msgctxt_id l1, msgid_text l2 with
  | Some ds, Some str => [(ds, str)]
  | _, _ => []
  end ++ records (l2 :: ls).
Proof. done. Qed.

Lemma scan_lines l1 ls prev :
  re.at_bol prev = true →
  Forall (Forall (λ c, c ≠ nl)) (l1 :: ls) →
  re.findall_from pat prev (l1 ++ tail_of ls) 0 =
  map groups_of_record (records (l1 :: ls)).
Proof.
  revert l1 prev. induction ls as [|l2 ls IH]; intros l1 prev Hbol Hls.
  - pose proof (match_pattern_lines prev l1 [] Hbol Hls) as Hm.
    apply groups_rest_None in Hm. apply Forall_cons in Hls as [Hl1 _].
    by rewrite scan_failed_line.
  - pose proof (match_pattern_lines prev l1 (l2 :: ls) Hbol Hls) as Hm.
    apply Forall_cons in Hls as [Hl1 Hls].
    assert (from_next_line (l2 :: ls) = map groups_of_record (records (l2 :: ls)))
      as Hnext by (by apply IH).
    rewrite records_cons, msgctxt_id_direct, msgid_text_direct, map_app, <-Hnext.
    destruct (direct_ctxt l1) as [ds|];
      [destruct (direct_msgid l2) as [str|] eqn:Hid|].
    2,3: apply groups_rest_None in Hm; by rewrite scan_failed_line.
    apply groups_rest_Some in Hm as (marks & Hm & Hg).
    rewrite findall_from_0, Hm, Hg. cbn [map app groups_of_record fst snd]. f_equal.
    apply Forall_cons in Hls as [Hl2 Hls].
    destruct (direct_msgid_last l2 str Hid Hl2) as (c & Hlast & Hc).
    (* the text is non-empty: it holds the newline after [l1] *)
    destruct (l1 ++ tail_of (l2 :: ls)) as [|c0 s'] eqn:Hs.
    { by destruct l1. }
    assert (∃ a, c0 :: a = l1 ++ nl :: l2 ∧ s' = a ++ tail_of ls) as (a & Ha & ->).
    { destruct l1 as [|x l1]; cbn [app tail_of] in Hs |- *.
      - injection Hs as <- <-. by exists l2.
      - injection Hs as <- <-. exists (l1 ++ nl :: l2). by rewrite <-app_assoc. }
    replace (length (c0 :: a ++ tail_of ls) - length (tail_of ls) - 1)%nat
      with (length a) by (cbn [length]; rewrite length_app; lia).
    rewrite findall_from_skip.
    assert (from_option Some (Some c0) (last a) = Some c) as ->.
    { assert (last (c0 :: a) = Some c) as Hl.
      { rewrite Ha, last_app_cons. by destruct l2. }
      destruct a as [|y a]; [by injection Hl as ->|].
      change (last (c0 :: y :: a)) with (last (y :: a)) in Hl. by rewrite Hl. }
    change (tail_of ls) with ([] ++ tail_of ls) at 1.
    rewrite (scan_mid_line (Some c) [] ls) by (by apply Ascii.eqb_neq || done).
    (* the msgid line [l2] starts no record *)
    symmetry. apply (scan_failed_line (Some nl) l2 ls); [|done].
    apply groups_rest_None.
    rewrite (match_pattern_lines (Some nl) l2 ls) by (done || by constructor).
    rewrite (direct_msgid_not_ctxt l2 str Hid). by destruct ls.
Qed.

Lemma lines_spec s :
  ∃ l ls, lines s = l :: ls ∧ s = l ++ tail_of ls
          ∧ Forall (Forall (λ c, c ≠ nl)) (l :: ls).
Proof.
  induction s as [|c s (l & ls & Hl & Hs & Hnl)].
  - exists [], []. repeat split; repeat constructor.
  - cbn [lines]. destruct (Ascii.eqb_spec c nl) as [->|Hc].
    + exists [], (l :: ls). rewrite Hl. repeat split; [by rewrite Hs|].
      by constructor.
    + rewrite Hl. exists (c :: l), ls. repeat split; [by rewrite Hs|].
      apply Forall_cons in Hnl as [??]. by repeat constructor.
Qed.

Lemma string_of_list_ascii_nil l :
  String.eqb (string_of_list_ascii l) "" = true ↔ l = [].
Proof. destruct l; simpl; split; done. Qed.

Lemma parse_strings_po_refines text :
  kodi_service._parse_strings_po text = catalog_spec.mapping text.
Proof.
  unfold kodi_service._parse_strings_po, catalog_spec.mapping, re.findall.
  destruct (lines_spec (chars text)) as (l & ls & Hl & Hs & Hnl).
  unfold chars in *. rewrite Hl, Hs, scan_lines by done.
  unfold kodi_service.dict_of_pairs.
  generalize (∅ : gmap string Z).
  induction (records (l :: ls)) as [|[ds str] rs IH]; intros m; [done|].
  cbn [map fold_left groups_of_record fst snd]. rewrite IH. f_equal.
  by destruct str.
Qed.

End catalog_proofs.

(** C2. For every catalog text, [_parse_strings_po] builds exactly the
    mapping of the catalog format: the records of consecutive
    [msgctxt]/[msgid] lines with a non-empty string, the last write
    winning.  On the catalog of the records #100 Play, #101 (empty) and
    #102 Stop it is the mapping of Play to 100 and Stop to 102, and the
    empty string is no key of it. *)
Theorem parse_strings_po_correct :
  (∀ strings_po,
     kodi_service._parse_strings_po strings_po = catalog_spec.mapping strings_po)
  ∧ kodi_service._parse_strings_po examples.catalog
    = <["Stop" := 102]> (<["Play" := 100]> ∅)
  ∧ kodi_service._parse_strings_po examples.catalog !! "" = None.
Proof.
  split; [apply catalog_proofs.parse_strings_po_refines|].
  split; vm_compute; reflexivity.
Qed.

(** The pattern on CRLF line ends, and on a catalog with a repeated
    string (the later record wins), a [msgid] line without its [msgctxt]
    line and a text that holds quotes. *)
Lemma parse_strings_po_examples :
  kodi_service._parse_strings_po examples.catalog_crlf
  = <["Stop" := 102]> (<["Play" := 100]> ∅)
  ∧ kodi_service._parse_strings_po examples.catalog_twice
    = <["say " ++ examples.quoted "hi" := 8]> (<["Play" := 7]> ∅).
Proof. split; vm_compute; reflexivity. Qed.

(** ** Steps of the monad *)

Import kodi_service catalog_aux.

Lemma bind_inr {W A B} (m : M W A) (k : A → M W B) w a w' :
  m w = (inr a, w') → (m ≫= k) w = k a w'.
Proof. unfold mbind, M_bind. by intros ->. Qed.

Lemma bind_inl {W A B} (m : M W A) (k : A → M W B) w e w' :
  m w = (inl e, w') → (m ≫= k) w = (inl e, w').
Proof. unfold mbind, M_bind. by intros ->. Qed.

Lemma bind_unfold {W A B} (m : M W A) (k : A → M W B) w :
  (m ≫= k) w = match m w with
               | (inr a, w') => k a w'
               | (inl e, w') => (inl e, w')
               end.
Proof. done. Qed.

Lemma append_cons c s t : String c s ++ t = String c (s ++ t).
Proof. done. Qed.

Lemma str_last_app s t : t ≠ "" → str_last (s ++ t) = str_last t.
Proof.
  intros Ht. induction s as [|c s IH]; [done|].
  rewrite append_cons. cbn [str_last]. destruct (s ++ t) eqn:E.
  - destruct s; [by change (t = "") in E|by rewrite append_cons in E].
  - by rewrite <-IH.
Qed.

Lemma str_last_join a ps b :
  b ≠ "" → str_last (os_path.join a (ps ++ [b])) = str_last b.
Proof.
  intros Hb. unfold os_path.join. rewrite fold_left_app. cbn [fold_left].
  destruct (os_path.startswith_sep b); [done|].
  destruct (_ || _).
  - by apply str_last_app.
  - change (String os_path.sep b) with (String os_path.sep "" ++ b).
    rewrite (str_last_app _ (_ ++ b)); [by apply str_last_app|].
    by destruct b.
Qed.

(** ** The localization service *)

Section service.
Context `{Platform}.

Lemma paths_distinct : en_gb_string_po_path ≠ string_mapping_path.
Proof.
  intros Heq. apply (f_equal str_last) in Heq. revert Heq.
  unfold en_gb_string_po_path, string_mapping_path.
  rewrite (str_last_join _ ["resources"; "language"; "resource.language.en_gb"]
             "strings.po") by done.
  by rewrite (str_last_join _ [] "strings-map.pickle").
Qed.

Lemma cache_record_md5 m d : py_getitem (cache_record m d) "md5" = inr (PyStr d).
Proof. done. Qed.

Lemma cache_record_strings m d :
  py_getitem (cache_record m d) "strings" = inr (strings_dict m).
Proof. done. Qed.

Lemma read_cache_world fs : (read_cache fs).2 = fs.
Proof.
  unfold read_cache, read_file, mbind, M_bind, lift.
  by destruct (files fs !! string_mapping_path).
Qed.

Lemma cached_mapping_world d fs : (cached_mapping d fs).2 = fs.
Proof.
  unfold cached_mapping, mbind, M_bind. pose proof (read_cache_world fs) as Hr.
  destruct (read_cache fs) as [[e|v] fs']; simpl in Hr; subst; [done|].
  unfold lift. destruct (py_getitem v "md5") as [e|stored]; [done|].
  by destruct (py_ne_str stored d).
Qed.

Lemma read_cache_with_cache fs mapping :
  read_cache (with_cache fs mapping)
  = (pickle_load (pickle_dump mapping), with_cache fs mapping).
Proof.
  unfold read_cache, read_file, mbind, M_bind, lift, with_cache. simpl.
  rewrite lookup_insert_eq. by destruct (pickle_load _).
Qed.

Lemma init_present fs po :
  files fs !! en_gb_string_po_path = Some po →
  __init__ fs =
  match try_except (cached_mapping (md5_hexdigest po)) isinstance_IOError
                   (λ _, rebuilt_mapping po (md5_hexdigest po)) fs with
  | (inr mapping, fs') =>
      match py_getitem mapping "strings" with
      | inr strings => (inr (service strings), fs')
      | inl e => (inl e, fs')
      end
  | (inl e, fs') => (inl e, fs')
  end.
Proof.
  intros Hpo. unfold __init__, os_path.exists_.
  rewrite bool_decide_eq_true_2 by (rewrite Hpo; eauto). cbn [negb].
  rewrite bind_unfold. unfold _load_strings_mapping.
  rewrite (bind_inr _ _ fs po fs) by (unfold _load_strings_po, read_file; by rewrite Hpo).
  cbv zeta. rewrite bind_unfold.
  destruct (try_except _ _ _ fs) as [[e|mapping] fs']; [done|].
  unfold lift. by destruct (py_getitem mapping "strings").
Qed.

Lemma init_absent fs :
  files fs !! en_gb_string_po_path = None →
  __init__ fs =
  (inl (Exn LocalizationError "Missing English strings.po localization file"), fs).
Proof.
  intros Hpo. unfold __init__, os_path.exists_.
  rewrite bool_decide_eq_false_2; [done|]. rewrite Hpo. by intros [??].
Qed.

(** The two ways the [try] block ends. *)
Lemma load_hit fs po mapping :
  cached_mapping (md5_hexdigest po) fs = (inr mapping, fs) →
  try_except (cached_mapping (md5_hexdigest po)) isinstance_IOError
             (λ _, rebuilt_mapping po (md5_hexdigest po)) fs
  = (inr mapping, fs).
Proof. unfold try_except. by intros ->. Qed.

Lemma load_error fs po e :
  cached_mapping (md5_hexdigest po) fs = (inl e, fs) →
  isinstance_IOError e = false →
  try_except (cached_mapping (md5_hexdigest po)) isinstance_IOError
             (λ _, rebuilt_mapping po (md5_hexdigest po)) fs
  = (inl e, fs).
Proof. unfold try_except. by intros -> ->. Qed.

Lemma load_miss fs po e :
  cached_mapping (md5_hexdigest po) fs = (inl e, fs) →
  isinstance_IOError e = true →
  try_except (cached_mapping (md5_hexdigest po)) isinstance_IOError
             (λ _, rebuilt_mapping po (md5_hexdigest po)) fs
  = rebuilt_mapping po (md5_hexdigest po) fs.
Proof. unfold try_except. by intros -> ->. Qed.

Lemma rebuilt_decoded fs po text :
  decode_utf8 po = inr text →
  rebuilt_mapping po (md5_hexdigest po) fs
  = (inr (cache_record (_parse_strings_po text) (md5_hexdigest po)),
     with_cache fs (cache_record (_parse_strings_po text) (md5_hexdigest po))).
Proof. intros Hd. unfold rebuilt_mapping. rewrite bind_unfold. unfold lift. by rewrite Hd. Qed.

Lemma rebuilt_undecoded fs po e :
  decode_utf8 po = inl e →
  rebuilt_mapping po (md5_hexdigest po) fs = (inl e, fs).
Proof. intros Hd. unfold rebuilt_mapping. rewrite bind_unfold. unfold lift. by rewrite Hd. Qed.

(** How the [try] block ends, from what the cache file holds. *)
Lemma cached_absent d fs :
  files fs !! string_mapping_path = None →
  cached_mapping d fs = (inl (Exn IOError "No such file or directory"), fs).
Proof.
  intros Hc. unfold cached_mapping, read_cache, read_file.
  rewrite !bind_unfold. by rewrite Hc.
Qed.

Lemma cached_present d fs data :
  files fs !! string_mapping_path = Some data →
  cached_mapping d fs =
  match pickle_load data with
  | inl e => (inl e, fs)
  | inr mapping =>
      match py_getitem mapping "md5" with
      | inl e => (inl e, fs)
      | inr stored =>
          if py_ne_str stored d
          then (inl (Exn IOError "English strings.po has been updated"), fs)
          else (inr mapping, fs)
      end
  end.
Proof.
  intros Hc. unfold cached_mapping, read_cache, read_file, lift.
  rewrite !bind_unfold, Hc. destruct (pickle_load data) as [e|mapping]; [done|].
  rewrite bind_unfold. destruct (py_getitem mapping "md5") as [e|stored]; [done|].
  by destruct (py_ne_str stored d).
Qed.

Lemma init_rebuilds fs po text e :
  files fs !! en_gb_string_po_path = Some po →
  decode_utf8 po = inr text →
  cached_mapping (md5_hexdigest po) fs = (inl e, fs) →
  isinstance_IOError e = true →
  __init__ fs = rebuilt fs po text.
Proof.
  intros Hpo Hd Hc He.
  by rewrite (init_present fs po Hpo), (load_miss fs po e Hc He),
    (rebuilt_decoded fs po text Hd).
Qed.

Lemma init_after_rebuild fs po text :
  pickle_contract →
  files fs !! en_gb_string_po_path = Some po →
  let fs' := with_cache fs (cache_record (_parse_strings_po text) (md5_hexdigest po)) in
  __init__ fs' = (inr (service (strings_dict (_parse_strings_po text))), fs').
Proof.
  intros Hrt Hpo fs'.
  assert (files fs' !! en_gb_string_po_path = Some po) as Hpo'.
  { unfold fs', with_cache. cbn [files].
    rewrite lookup_insert_ne; [done|]. intros Heq. by apply paths_distinct. }
  rewrite (init_present fs' po Hpo').
  rewrite (load_hit fs' po (cache_record (_parse_strings_po text) (md5_hexdigest po))).
  - done.
  - unfold cached_mapping. rewrite bind_unfold.
    unfold fs'. rewrite read_cache_with_cache.
    rewrite (Hrt (_parse_strings_po text) (md5_hexdigest po)).
    rewrite bind_unfold. unfold lift. rewrite cache_record_md5.
    cbn [py_ne_str]. by rewrite String.eqb_refl.
Qed.

(** C3. Self-healing: when the cache file holds a record whose stored
    digest differs from the digest of the catalog bytes, [__init__]
    returns the mapping parsed from the catalog and overwrites the
    cache file with the record of the new digest and that mapping; the
    cache then reads back as that record, and [__init__] run again
    returns the same service without touching the file system (the
    cache-hit path). *)
Theorem stale_cache_is_rebuilt fs po text data d stored :
  pickle_contract →
  files fs !! en_gb_string_po_path = Some po →
  decode_utf8 po = inr text →
  files fs !! string_mapping_path = Some data →
  pickle_load data = inr (PyDict d) →
  d !! "md5" = Some stored →
  py_ne_str stored (md5_hexdigest po) = true →
  let record := cache_record (_parse_strings_po text) (md5_hexdigest po) in
  let fs' := with_cache fs record in
  let self := service (strings_dict (_parse_strings_po text)) in
  __init__ fs = (inr self, fs')
  ∧ read_cache fs' = (inr record, fs')
  ∧ __init__ fs' = (inr self, fs').
Proof.
  intros Hrt Hpo Hd Hc Hload Hmd5 Hne record fs' self. split; [|split].
  - apply (init_rebuilds fs po text
             (Exn IOError "English strings.po has been updated")); try done.
    rewrite (cached_present _ fs data Hc), Hload. cbn [py_getitem].
    by rewrite Hmd5, Hne.
  - unfold fs', record. by rewrite read_cache_with_cache, Hrt.
  - by apply init_after_rebuild.
Qed.

Lemma try_world fs po :
  let r := try_except (cached_mapping (md5_hexdigest po)) isinstance_IOError
                      (λ _, rebuilt_mapping po (md5_hexdigest po)) fs in
  r.2 = fs ∨
  ∃ text, r = (inr (cache_record (_parse_strings_po text) (md5_hexdigest po)),
                with_cache fs (cache_record (_parse_strings_po text) (md5_hexdigest po))).
Proof.
  intros r. unfold r, try_except.
  pose proof (cached_mapping_world (md5_hexdigest po) fs) as Hw.
  destruct (cached_mapping (md5_hexdigest po) fs) as [[e|v] fs1]; cbn [snd] in Hw;
    subst fs1; [|by left].
  destruct (isinstance_IOError e); [|by left].
  destruct (decode_utf8 po) as [e'|text] eqn:Hd.
  - left. by rewrite (rebuilt_undecoded fs po e' Hd).
  - right. exists text. by rewrite (rebuilt_decoded fs po text Hd).
Qed.

(** C4. Idempotence: whatever a first [__init__] returns and leaves
    behind, a second one right after it returns the same result (the
    same in-memory mapping) and leaves the file system as it found it:
    no file is written. *)
Theorem init_twice fs r fs1 :
  pickle_contract →
  __init__ fs = (r, fs1) →
  __init__ fs1 = (r, fs1).
Proof.
  intros Hrt Hinit.
  destruct (files fs !! en_gb_string_po_path) as [po|] eqn:Hpo.
  2:{ rewrite (init_absent fs Hpo) in Hinit. injection Hinit as <- <-.
      by apply init_absent. }
  pose proof Hinit as Hinit'. rewrite (init_present fs po Hpo) in Hinit'.
  destruct (try_world fs po) as [Hsame|(text & Hre)].
  - destruct (try_except _ _ _ fs) as [[e|mapping] fs2]; cbn [snd] in Hsame; subst fs2.
    + injection Hinit' as <- <-. done.
    + destruct (py_getitem mapping "strings"); by injection Hinit' as <- <-.
  - rewrite Hre, cache_record_strings in Hinit'. injection Hinit' as <- <-.
    by apply init_after_rebuild.
Qed.

(** C6. Missing catalog: without the strings.po file, [__init__] raises
    the [LocalizationError] for the missing file and leaves the file
    system untouched (no cache write). *)
Theorem init_missing_catalog fs :
  files fs !! en_gb_string_po_path = None →
  __init__ fs
  = (inl (Exn LocalizationError "Missing English strings.po localization file"), fs).
Proof. apply init_absent. Qed.

(** C1, as the code has it.  With a cache file present, [__init__]
    recovers by rebuilding only when reading the cache raises an
    [IOError] or the value read is a dict whose ['md5'] entry differs
    from the digest.  An unpickling error of another class, a value
    that is not a dict, a dict without ['md5'], or a dict with the
    current digest and no ['strings'], makes [__init__] fail with that
    error, the file system untouched. *)
Theorem init_malformed_cache fs po data :
  files fs !! en_gb_string_po_path = Some po →
  files fs !! string_mapping_path = Some data →
  (∀ e, pickle_load data = inl e → isinstance_IOError e = false →
        __init__ fs = (inl e, fs))
  ∧ (∀ v, pickle_load data = inr v → (∀ d, v ≠ PyDict d) →
          ∃ msg, __init__ fs = (inl (Exn TypeError msg), fs))
  ∧ (∀ d, pickle_load data = inr (PyDict d) → d !! "md5" = None →
          __init__ fs = (inl (Exn KeyError "md5"), fs))
  ∧ (∀ d stored, pickle_load data = inr (PyDict d) → d !! "md5" = Some stored →
          py_ne_str stored (md5_hexdigest po) = false → d !! "strings" = None →
          __init__ fs = (inl (Exn KeyError "strings"), fs))
  ∧ (∀ text, decode_utf8 po = inr text →
       (∃ e, pickle_load data = inl e ∧ isinstance_IOError e = true)
       ∨ (∃ d stored, pickle_load data = inr (PyDict d) ∧ d !! "md5" = Some stored
                      ∧ py_ne_str stored (md5_hexdigest po) = true) →
       __init__ fs = rebuilt fs po text).
Proof.
  intros Hpo Hc.
  pose proof (cached_present (md5_hexdigest po) fs data Hc) as Hcached.
  pose proof (init_present fs po Hpo) as Hinit.
  repeat split.
  - intros e Hload He. rewrite Hload in Hcached.
    by rewrite Hinit, (load_error fs po e Hcached He).
  - intros v Hload Hv. rewrite Hload in Hcached.
    destruct v as [| | | | |d]; try (by destruct (Hv d));
      (eexists; rewrite Hinit, (load_error fs po _ Hcached); done).
  - intros d Hload Hmd5. rewrite Hload in Hcached. cbn [py_getitem] in Hcached.
    rewrite Hmd5 in Hcached. by rewrite Hinit, (load_error fs po _ Hcached).
  - intros d stored Hload Hmd5 Heq Hs. rewrite Hload in Hcached.
    cbn [py_getitem] in Hcached. rewrite Hmd5, Heq in Hcached.
    rewrite Hinit, (load_hit fs po _ Hcached). cbn [py_getitem]. by rewrite Hs.
  - intros text Hd [(e & Hload & He)|(d & stored & Hload & Hmd5 & Hne)].
    + rewrite Hload in Hcached. by apply (init_rebuilds fs po text e).
    + rewrite Hload in Hcached. cbn [py_getitem] in Hcached.
      rewrite Hmd5, Hne in Hcached.
      by apply (init_rebuilds fs po text
                  (Exn IOError "English strings.po has been updated")).
Qed.


End service.

(** ** The diagnostic wrapper *)

Section debug.
Context `{Platform} `{Interpreter}.


End debug.

(** ** The JSON-RPC wrappers *)

Import kodi_api.

Section api.
Context `{Platform} `{JsonRpcHost}.

Lemma send_json_rpc_world method params w :
  (send_json_rpc method params w).2 = after_call method params w.
Proof.
  unfold send_json_rpc, after_call, logger_debug, call_host, lift, mbind, M_bind.
  cbn [kodi requests log].
  destruct (executeJSONRPC _ (kodi w)) as [[e|reply] k]; cbn [snd kodi requests log].
  { by rewrite app_nil_r. }
  by destruct (py_getitem reply "result").
Qed.

Lemma after_call_requests method params w :
  requests (after_call method params w)
  = (requests w ++ [jsonrpc_request method params])%list.
Proof. unfold after_call. by destruct (executeJSONRPC _ _). Qed.

Lemma after_call_kodi method params w :
  kodi (after_call method params w)
  = (executeJSONRPC (jsonrpc_request method params) (kodi w)).2.
Proof. unfold after_call. by destruct (executeJSONRPC _ _). Qed.

Lemma send_json_rpc_run method params w :
  send_json_rpc method params w
  = (match (executeJSONRPC (jsonrpc_request method params) (kodi w)).1 with
     | inl e => inl e
     | inr json_reply => py_getitem json_reply "result"
     end, after_call method params w).
Proof.
  rewrite <-send_json_rpc_world.
  unfold send_json_rpc, logger_debug, call_host, lift, mbind, M_bind.
  cbn [kodi requests log].
  by destruct (executeJSONRPC _ (kodi w)) as [[e|reply] k].
Qed.

Lemma no_data_rule_intro rpc key err :
  no_data_rule
    (result ← rpc;
     value ← lift (py_get result key);
     if negb (py_bool value) then raise err else lift (py_getitem result key))
    rpc key err.
Proof.
  intros w result w' Hrpc. rewrite bind_unfold, Hrpc, bind_unfold.
  unfold lift, raise, absent_or_empty. cbn [py_get py_getitem].
  destruct (result !! key) as [v|] eqn:Hv; cbn [default from_option id py_bool negb].
  - destruct (py_bool v) eqn:Hb; cbn [negb].
    + split; [|by intros ? [= <-]]. split; [done|].
      intros [?|(v' & [= <-] & ?)]; congruence.
    + split; [|intros ? [= <-]; congruence]. split; [|done]. intros _. right. eauto.
  - split; [|done]. split; [|done]. by left.
Qed.

Lemma response_rule_intro method params key err :
  response_rule
    (result ← send_json_rpc method (Some params);
     value ← lift (py_get result key);
     if negb (py_bool value) then raise err else lift (py_getitem result key))
    method params key err.
Proof.
  intros w w'.
  pose proof (send_json_rpc_run method (Some params) w) as Hrun. fold w' in Hrun.
  destruct (executeJSONRPC _ (kodi w)).1 as [e|json_reply].
  { by rewrite bind_unfold, Hrun. }
  destruct json_reply as [| | | | |reply]; cbn [py_getitem] in Hrun;
    try (eexists; by rewrite bind_unfold, Hrun).
  destruct (reply !! "result") as [result|]; [|by rewrite bind_unfold, Hrun].
  destruct result as [| | | | |result];
    try (by rewrite bind_unfold, Hrun, bind_unfold).
  by apply no_data_rule_intro.
Qed.

(** C8, as the code has it.  On a response that carries a result dict,
    [get_tvshows] and [get_episodes] raise their [NoDataError] exactly
    when the expected key (['tvshows'], ['episodes']) is absent or maps
    to an empty value, and return the value of that key unchanged
    otherwise.  On every other response they raise another error: the
    one of the transport, [TypeError] on a reply that is no dict,
    [KeyError('result')] on an error reply, [AttributeError] on a
    result that is no dict.  The request has been sent each time. *)
Theorem library_queries_no_data :
  response_rule get_tvshows "VideoLibrary.GetTVShows" get_tvshows_params
    "tvshows" (NoData "Kodi medialibrary has no TV shows")
  ∧ ∀ tvshowid,
      response_rule (get_episodes tvshowid) "VideoLibrary.GetEpisodes"
        (get_episodes_params tvshowid) "episodes"
        (NoData ("TV show " ++ pretty tvshowid ++ " has no episodes")).
Proof. split; [|intros tvshowid]; apply response_rule_intro. Qed.

(** C10. With [original] the playcount of the episode details,
    [set_episode_playcount] sends the SetEpisodeDetails request if and
    only if the requested playcount differs from
    [int(bool(original))]: the requests sent after the details query
    are that one request or none; when it is sent the host is the one
    that answered it, and when the playcounts agree the call ends in
    the world the details query left (nothing sent, nothing changed). *)
Theorem set_episode_playcount_updates episode_id playcount w details original w1 :
  get_episode_details episode_id w = (inr details, w1) →
  py_getitem details "playcount" = inr original →
  let normalized := int_of_bool (py_bool original) in
  let params := Some (set_episode_playcount_params episode_id playcount) in
  let update := jsonrpc_request "VideoLibrary.SetEpisodeDetails" params in
  let w2 := (set_episode_playcount episode_id playcount w).2 in
  requests w2
  = (requests w1 ++ if bool_decide (playcount ≠ normalized) then [update] else [])%list
  ∧ (playcount ≠ normalized →
     kodi w2 = (executeJSONRPC update (kodi w1)).2)
  ∧ (playcount = normalized →
     set_episode_playcount episode_id playcount w = (inr (), w1)).
Proof.
  intros Hdetails Horig normalized params update w2.
  assert (set_episode_playcount episode_id playcount w =
          if negb (Z.eqb playcount normalized)
          then (send_json_rpc "VideoLibrary.SetEpisodeDetails" params;; mret ()) w1
          else (inr (), w1)) as Hrun.
  { unfold set_episode_playcount. rewrite bind_unfold, Hdetails, bind_unfold.
    unfold lift. rewrite Horig. fold normalized.
    by destruct (Z.eqb playcount normalized). }
  unfold w2. rewrite Hrun. destruct (Z.eqb_spec playcount normalized) as [Heq|Hne];
    cbn [negb].
  - rewrite bool_decide_eq_false_2 by tauto. by rewrite app_nil_r.
  - rewrite bool_decide_eq_true_2 by done.
    assert (((send_json_rpc "VideoLibrary.SetEpisodeDetails" params;; mret ()) w1).2
            = after_call "VideoLibrary.SetEpisodeDetails" params w1) as ->.
    { rewrite bind_unfold, <-send_json_rpc_world.
      by destruct (send_json_rpc _ _ w1) as [[?|?] ?]. }
    by rewrite after_call_requests, after_call_kodi.
Qed.
End api.

(** ** The reference serializer keeps the cache contract *)

Module reference_proofs.

Import reference reference.codec.

#[local] Open Scope list_scope.

Lemma N_of_byte_of_N n : (n < 256)%N → N_of_byte (byte_of_N n) = n.
Proof.
  intros Hn. unfold N_of_byte, byte_of_N.
  rewrite ascii_of_byte_of_ascii. by apply N_ascii_embedding.
Qed.

Lemma read_varint_fuel fuel n rest :
  (n < 128 * 2 ^ N.of_nat fuel)%N →
  read_varint (varint_fuel fuel n ++ rest) = Some (n, rest).
Proof.
  revert n. induction fuel as [|f IH]; intros n Hn.
  - simpl in *. rewrite N_of_byte_of_N by lia.
    by replace (n <? 128)%N with true by (symmetry; apply N.ltb_lt; lia).
  - cbn [varint_fuel]. destruct (N.ltb_spec n 128) as [Hlt|Hge].
    + cbn [app read_varint]. rewrite N_of_byte_of_N by lia.
      by replace (n <? 128)%N with true by (symmetry; apply N.ltb_lt; lia).
    + cbn [app read_varint].
      pose proof (N.mod_lt n 128 ltac:(lia)) as Hmod.
      rewrite N_of_byte_of_N by lia.
      assert ((128 + n mod 128 <? 128)%N = false) as ->.
      { apply N.ltb_ge, N.le_add_r. }
      rewrite IH.
      * cbn [mbind option_bind]. f_equal. f_equal. clear Hn IH.
        pose proof (N.div_mod n 128 ltac:(lia)) as Hdm. clear Hmod.
        generalize dependent (n / 128)%N. generalize dependent (n mod 128)%N.
        intros. lia.
      * rewrite Nat2N.inj_succ, N.pow_succ_r' in Hn.
        apply N.Div0.div_lt_upper_bound.
        generalize dependent (2 ^ N.of_nat f)%N. intros X _ Hn. lia.
Qed.

Lemma read_varint_varint n rest :
  read_varint (varint n ++ rest) = Some (n, rest).
Proof.
  apply read_varint_fuel. rewrite N2Nat.id.
  destruct (N.eq_dec n 0%N) as [->|Hn]; [done|].
  pose proof (N.log2_spec n ltac:(lia)) as [_ Hlt].
  rewrite N.pow_succ_r' in Hlt.
  generalize dependent (2 ^ N.log2 n)%N. intros X Hlt. lia.
Qed.

Lemma read_str_dump_str s rest : read_str (dump_str s ++ rest) = Some (s, rest).
Proof.
  unfold read_str, dump_str. rewrite <-app_assoc, read_varint_varint.
  cbn [mbind option_bind].
  set (cs := map byte_of_ascii (list_ascii_of_string s)).
  assert (length cs = String.length s) as Hlen.
  { unfold cs. rewrite length_map. clear. induction s; simpl; congruence. }
  rewrite length_app, Hlen.
  replace (N.of_nat (String.length s) <=? N.of_nat (String.length s + length rest))%N
    with true by (symmetry; apply N.leb_le; lia).
  rewrite Nat2N.id, <-Hlen, take_app_length, drop_app_length. f_equal. f_equal.
  unfold cs. rewrite map_map.
  rewrite (map_ext _ id) by (intros; apply ascii_of_byte_of_ascii).
  rewrite map_id. apply string_of_list_ascii_of_string.
Qed.

Lemma load_int f z rest :
  load_value (S f) (dump_value (PyInt z) ++ rest) = Some (PyInt z, rest).
Proof.
  cbn [dump_value]. destruct (Z.leb_spec 0 z).
  - cbn [app load_value]. unfold tag. rewrite ascii_of_byte_of_ascii.
    cbn [Ascii.eqb Bool.eqb andb]. rewrite read_varint_varint.
    cbn [mbind option_bind]. by rewrite Z2N.id.
  - cbn [app load_value]. unfold tag. rewrite ascii_of_byte_of_ascii.
    cbn [Ascii.eqb Bool.eqb andb]. rewrite read_varint_varint.
    cbn [mbind option_bind]. rewrite Z2N.id by lia. by rewrite Z.opp_involutive.
Qed.

Lemma load_str f s rest :
  load_value (S f) (dump_value (PyStr s) ++ rest) = Some (PyStr s, rest).
Proof.
  cbn [dump_value app load_value]. unfold tag. rewrite ascii_of_byte_of_ascii.
  cbn [Ascii.eqb Bool.eqb andb]. by rewrite read_str_dump_str.
Qed.

Lemma load_entries_dump load es rest :
  Forall (λ kv, ∀ rest, load (dump_value kv.2 ++ rest) = Some (kv.2, rest)) es →
  load_entries load (length es) (dump_entries es ++ rest)
  = Some (list_to_map es, rest).
Proof.
  induction 1 as [|[k v] es Hv _ IH]; [done|].
  cbn [length dump_entries foldr uncurry load_entries].
  rewrite <-!app_assoc, read_str_dump_str. cbn [mbind option_bind].
  rewrite (Hv _). cbn [mbind option_bind snd].
  unfold dump_entries in IH. by rewrite IH.
Qed.

Lemma load_dict f d rest :
  map_Forall (λ _ v, ∀ rest, load_value f (dump_value v ++ rest) = Some (v, rest)) d →
  load_value (S f) (dump_value (PyDict d) ++ rest) = Some (PyDict d, rest).
Proof.
  intros Hd. cbn [dump_value app load_value]. unfold tag. rewrite ascii_of_byte_of_ascii.
  cbn [Ascii.eqb Bool.eqb andb].
  rewrite <-app_assoc, read_varint_varint. cbn [mbind option_bind].
  rewrite Nat2N.id, map_fold_foldr, <-length_map_to_list.
  fold (dump_entries (map_to_list d)).
  rewrite load_entries_dump.
  - cbn [mbind option_bind]. by rewrite list_to_map_to_list.
  - apply Forall_forall. intros [k v] Hkv%elem_of_map_to_list. apply (Hd k v Hkv).
Qed.

Lemma load_cache_record f (strings_mapping : gmap string Z) (md5 : string) rest :
  load_value (S (S (S f)))
    (dump_value (cache_record strings_mapping md5) ++ rest)
  = Some (cache_record strings_mapping md5, rest).
Proof.
  apply load_dict. apply map_Forall_insert_2; [|apply map_Forall_insert_2].
  - intros rest'. apply load_dict. intros k v Hkv rest''.
    rewrite lookup_fmap in Hkv. destruct (strings_mapping !! k); [|done].
    injection Hkv as <-. apply load_int.
  - intros rest'. apply load_str.
  - apply map_Forall_empty.
Qed.

(** The reference digest is MD5: the test suite of RFC 1321, in part. *)
Lemma md5_test_suite :
  md5.hexdigest [] = "d41d8cd98f00b204e9800998ecf8427e"
  ∧ md5.hexdigest (list_byte_of_string "abc") = "900150983cd24fb0d6963f7d28e17f72"
  ∧ md5.hexdigest (list_byte_of_string "message digest")
    = "f96b697d7cb7938d525a2f31aaf161d0"
  ∧ md5.hexdigest
      (list_byte_of_string
         "12345678901234567890123456789012345678901234567890123456789012345678901234567890")
    = "57edf4a22be3c955ac49da2e2107b67a".
Proof. repeat split; vm_compute; reflexivity. Qed.

Lemma pickle_contract_holds : pickle_contract.
Proof.
  intros strings_mapping md5. cbn [pickle_load pickle_dump platform].
  unfold load, dump.
  pose proof (load_cache_record
                (length (dump_value (cache_record strings_mapping md5)))
                strings_mapping md5 []) as Hload.
  rewrite app_nil_r in Hload.
  remember (dump_value (cache_record strings_mapping md5)) as bs.
  destruct bs as [|b bs]; [done|].
  change (3 + length (b :: bs))%nat with (S (S (S (length (b :: bs))))).
  by rewrite Hload.
Qed.

End reference_proofs.

(** ** pickle reads back the cache records it writes *)

Module pickle_proofs.

Import reference.codec pickle pickle_aux.

#[local] Open Scope list_scope.

Lemma length_le_bytes k n : length (le_bytes k n) = k.
Proof. revert n. induction k as [|k IH]; intros n; [done|]. cbn. by rewrite IH. Qed.

Lemma le_value_le_bytes k n : le_value (le_bytes k n) = (n mod 256 ^ N.of_nat k)%N.
Proof.
  revert n. induction k as [|k IH]; intros n.
  - cbn. by rewrite N.mod_1_r.
  - cbn [le_bytes le_value]. rewrite IH.
    rewrite reference_proofs.N_of_byte_of_N by (apply N.mod_lt; lia).
    rewrite Nat2N.inj_succ, N.pow_succ_r'.
    by rewrite N.Div0.mod_mul_r.
Qed.

Lemma le_value_small k n :
  (n < 256 ^ N.of_nat k)%N → le_value (le_bytes k n) = n.
Proof. intros Hn. rewrite le_value_le_bytes. by apply N.mod_small. Qed.

Lemma read_app a rest : read (length a) (a ++ rest) = Some (a, rest).
Proof.
  unfold read. rewrite length_app.
  replace (length a <=? length a + length rest)%nat with true
    by (symmetry; apply Nat.leb_le; lia).
  by rewrite take_app_length, drop_app_length.
Qed.

Lemma read_1 b rest : read 1 (b :: rest) = Some ([b], rest).
Proof. done. Qed.

Lemma read_le_bytes k n rest :
  read k (le_bytes k n ++ rest) = Some (le_bytes k n, rest).
Proof. rewrite <-(length_le_bytes k n) at 1. apply read_app. Qed.

(** ** Running a piece of a pickle *)

Lemma exec_nil stack : exec [] stack stack.
Proof. intros memo rest fuel Hf. by exists fuel, memo. Qed.

Lemma exec_app b1 b2 s0 s1 s2 :
  exec b1 s0 s1 → exec b2 s1 s2 → exec (b1 ++ b2) s0 s2.
Proof.
  intros H1 H2 memo rest fuel Hf. rewrite <-app_assoc in Hf |- *.
  destruct (H1 memo (b2 ++ rest) fuel Hf) as (f1 & m1 & Hf1 & ->).
  apply (H2 m1 rest f1 Hf1).
Qed.

Lemma exec_step op operand stack stack' :
  (∀ rest memo, ∃ memo', step op (operand ++ rest) stack memo = Next rest stack' memo') →
  exec (op :: operand) stack stack'.
Proof.
  intros Hstep memo rest fuel Hf. destruct fuel as [|fuel]; [lia|].
  destruct (Hstep rest memo) as [memo' Hs].
  cbn [app run]. rewrite Hs. exists fuel, memo'. split; [|done].
  cbn [app length] in Hf. rewrite length_app in Hf. lia.
Qed.

Lemma exec_op op stack stack' :
  (∀ rest memo, ∃ memo', step op rest stack memo = Next rest stack' memo') →
  exec [op] stack stack'.
Proof. apply (exec_step op []). Qed.

(** ** Text *)

Lemma utf8_chars_utf8 cs :
  reference.utf8_chars (concat (map utf8_char cs)) = Some cs.
Proof.
  induction cs as [|c cs IH]; [done|].
  cbn [map concat]. unfold utf8_char at 1.
  pose proof (N_ascii_bounded c) as Hc.
  destruct (N.ltb_spec (N_of_ascii c) 128) as [Hlt|Hge].
  - cbn [app reference.utf8_chars].
    rewrite reference_proofs.N_of_byte_of_N by lia.
    replace (N_of_ascii c <? 128)%N with true by (symmetry; apply N.ltb_lt; lia).
    rewrite IH. cbn [fmap option_fmap option_map]. f_equal. f_equal.
    unfold byte_of_N. by rewrite ascii_of_byte_of_ascii, ascii_N_embedding.
  - cbn [app reference.utf8_chars].
    assert (N_of_ascii c / 64 = 2 ∨ N_of_ascii c / 64 = 3)%N as Hq.
    { assert (2 ≤ N_of_ascii c / 64)%N by (apply N.div_le_lower_bound; lia).
      assert (N_of_ascii c / 64 < 4)%N by (apply N.Div0.div_lt_upper_bound; lia).
      lia. }
    pose proof (N.mod_lt (N_of_ascii c) 64 ltac:(lia)) as Hr.
    pose proof (N.div_mod (N_of_ascii c) 64 ltac:(lia)) as Hdm.
    remember (N_of_ascii c / 64)%N as q eqn:Eq.
    remember (N_of_ascii c mod 64)%N as r eqn:Er.
    clear Eq Er.
    rewrite !reference_proofs.N_of_byte_of_N by lia.
    replace (192 + q <? 128)%N with false by (symmetry; apply N.ltb_ge; lia).
    replace ((192 + q =? 194) || (192 + q =? 195))%N
      with true by (destruct Hq as [-> | ->]; done).
    replace ((128 <=? 128 + r) && (128 + r <? 192))%N with true
      by (symmetry; apply andb_true_intro; split;
          [apply N.leb_le|apply N.ltb_lt]; lia).
    rewrite IH. cbn [fmap option_fmap option_map]. f_equal. f_equal.
    replace ((192 + q - 192) * 64 + (128 + r - 128))%N
      with (N_of_ascii c) by lia.
    apply ascii_N_embedding.
Qed.

Lemma decode_utf8_encoded s : reference.decode (utf8 s) = inr s.
Proof.
  unfold reference.decode, utf8. rewrite utf8_chars_utf8.
  by rewrite string_of_list_ascii_of_string.
Qed.

Lemma exec_put idx v stack : exec (put idx) (Obj v :: stack) (Obj v :: stack).
Proof.
  unfold put. destruct (idx <? 256)%N.
  - apply (exec_step BINPUT [byte_of_N idx]). intros rest memo.
    cbn [step BINPUT]. unfold load_put.
    cbn [app]. rewrite read_1. by eexists.
  - apply (exec_step LONG_BINPUT (le_bytes 4 idx)). intros rest memo.
    cbn [step LONG_BINPUT]. unfold load_put.
    rewrite read_le_bytes. by eexists.
Qed.

Lemma exec_unicode s idx stack :
  text_fits s → exec (save_unicode s idx).1 stack (Obj (PyStr s) :: stack).
Proof.
  intros Hs. unfold save_unicode. cbn [fst].
  change (BINUNICODE :: ?a ++ ?b ++ ?c) with ((BINUNICODE :: a ++ b) ++ c).
  apply (exec_app _ _ _ (Obj (PyStr s) :: stack)); [|apply exec_put].
  apply (exec_step BINUNICODE). intros rest memo.
  cbn [step BINUNICODE]. rewrite <-app_assoc, read_le_bytes.
  rewrite le_value_small by apply Hs.
  rewrite Nat2N.id, read_app, decode_utf8_encoded. by eexists.
Qed.

(** ** Integers *)

#[local] Open Scope Z_scope.

Lemma pow_256 k : 0 ≤ k → 2 ^ (8 * k) = 256 ^ k.
Proof. intros Hk. by rewrite Z.pow_mul_r by lia. Qed.

Lemma pow_256_half k : 0 < k → 2 ^ (8 * k - 1) = 128 * 256 ^ (k - 1).
Proof.
  intros Hk. replace (8 * k - 1) with (7 + 8 * (k - 1)) by lia.
  rewrite Z.pow_add_r, pow_256 by lia. done.
Qed.

Lemma pow_256_succ k : 0 < k → 256 ^ k = 256 * 256 ^ (k - 1).
Proof.
  intros Hk. replace k with (Z.succ (k - 1)) at 1 by lia.
  by rewrite Z.pow_succ_r by lia.
Qed.

Lemma decode_long_le_bytes (k : nat) (n : N) :
  k ≠ O →
  decode_long (le_bytes k n)
  = let v := Z.of_N n mod 256 ^ Z.of_nat k in
    if 128 * 256 ^ (Z.of_nat k - 1) <=? v then v - 256 ^ Z.of_nat k else v.
Proof.
  intros Hk. destruct k as [|k]; [done|].
  unfold decode_long. change (le_bytes (S k) n) with
    (byte_of_N (n mod 256) :: le_bytes k (n / 256)).
  change (byte_of_N (n mod 256) :: le_bytes k (n / 256)) with (le_bytes (S k) n).
  rewrite le_value_le_bytes, length_le_bytes.
  rewrite pow_256_half, pow_256 by lia.
  rewrite N2Z.inj_mod, N2Z.inj_pow, nat_N_Z. done.
Qed.

(** Two's complement in [k] bytes reads back as the integer. *)
Lemma decode_long_signed (k : nat) z :
  k ≠ O →
  - (128 * 256 ^ (Z.of_nat k - 1)) ≤ z < 128 * 256 ^ (Z.of_nat k - 1) →
  decode_long (le_bytes k (Z.to_N (z mod 256 ^ Z.of_nat k))) = z.
Proof.
  intros Hk Hz. rewrite decode_long_le_bytes by done. cbv zeta.
  pose proof (pow_256_succ (Z.of_nat k) ltac:(lia)) as Hp.
  assert (0 < 256 ^ (Z.of_nat k - 1)) as Hpos by (apply Z.pow_pos_nonneg; lia).
  remember (256 ^ (Z.of_nat k - 1)) as P eqn:EP. clear EP.
  remember (256 ^ Z.of_nat k) as Q eqn:EQ. clear EQ. subst Q.
  rewrite Z2N.id by (apply Z.mod_pos_bound; lia).
  rewrite Z.mod_mod by lia.
  destruct (Z.le_gt_cases 0 z) as [Hnn|Hneg].
  - rewrite (Z.mod_small z) by lia.
    destruct (Z.leb_spec (128 * P) z); [lia|done].
  - replace (z mod (256 * P)) with (z + 256 * P).
    + destruct (Z.leb_spec (128 * P) (z + 256 * P)); lia.
    + symmetry. rewrite <-(Z_mod_plus_full z 1 (256 * P)).
      rewrite Z.mod_small; lia.
Qed.

Lemma encode_long_spec z :
  z ≠ 0 →
  encode_long z ≠ [] ∧ decode_long (encode_long z) = z.
Proof.
  intros Hz. unfold encode_long.
  set (nbits := Z.log2 (Z.abs z) + 1).
  set (nbytes := Z.shiftr nbits 3 + 1).
  assert (0 < Z.abs z) as Habs by lia.
  pose proof (Z.log2_spec (Z.abs z) Habs) as [Hlo Hhi].
  pose proof (Z.log2_nonneg (Z.abs z)) as Hlog.
  fold nbits in Hhi.
  assert (nbits < 8 * nbytes ∧ 0 < nbytes) as [Hbits Hnb].
  { unfold nbytes. rewrite Z.shiftr_div_pow2 by lia. change (2 ^ 3) with 8.
    pose proof (Z.div_mod nbits 8 ltac:(lia)) as Hdm.
    pose proof (Z.mod_pos_bound nbits 8 ltac:(lia)) as Hm.
    assert (0 ≤ nbits / 8) by (apply Z.div_pos; lia). lia. }
  assert (Z.abs z < 128 * 256 ^ (nbytes - 1)) as Hsmall.
  { rewrite <-pow_256_half by lia. eapply Z.lt_le_trans; [apply Hhi|].
    apply Z.pow_le_mono_r; lia. }
  rewrite (pow_256 nbytes) by lia.
  set (u := z mod 256 ^ nbytes).
  destruct ((z <? 0) && (1 <? nbytes) && (u / 256 ^ (nbytes - 1) =? 255)
            && (128 <=? (u / 256 ^ (nbytes - 2)) mod 256)) eqn:Htrim.
  - (* the last byte holds sign bits only *)
    apply andb_prop in Htrim as [Htrim H128]. apply andb_prop in Htrim as [Htrim H255].
    apply andb_prop in Htrim as [Hneg H1].
    apply Z.ltb_lt in Hneg, H1. apply Z.eqb_eq in H255. apply Z.leb_le in H128.
    assert (Z.to_nat (nbytes - 1) ≠ O) as Hk by lia.
    split. { destruct (Z.to_nat (nbytes - 1)); done. }
    rewrite decode_long_le_bytes by done. cbv zeta.
    rewrite Z2Nat.id by lia.
    assert (0 < 256 ^ (nbytes - 2)) as Hpos by (apply Z.pow_pos_nonneg; lia).
    pose proof (pow_256_succ (nbytes - 1) ltac:(lia)) as Hq.
    pose proof (pow_256_succ nbytes ltac:(lia)) as Hr.
    replace (nbytes - 1 - 1) with (nbytes - 2) in * by lia.
    assert (0 ≤ u < 256 ^ nbytes) as Hu by (apply Z.mod_pos_bound; lia).
    assert (u = z + 256 ^ nbytes) as Huz.
    { unfold u. rewrite <-(Z_mod_plus_full z 1 (256 ^ nbytes)).
      rewrite Z.mod_small; lia. }
    rewrite Z2N.id by lia.
    pose proof (Z.div_mod u (256 ^ (nbytes - 1)) ltac:(lia)) as Hdm1.
    pose proof (Z.mod_pos_bound u (256 ^ (nbytes - 1)) ltac:(lia)) as Hm1.
    rewrite H255 in Hdm1.
    pose proof (Z.div_mod u (256 ^ (nbytes - 2)) ltac:(lia)) as Hdm2.
    pose proof (Z.mod_pos_bound u (256 ^ (nbytes - 2)) ltac:(lia)) as Hm2.
    pose proof (Z.div_mod (u / 256 ^ (nbytes - 2)) 256 ltac:(lia)) as Hdm3.
    pose proof (Z.mod_pos_bound (u / 256 ^ (nbytes - 2)) 256 ltac:(lia)) as Hm3.
    remember (u mod 256 ^ (nbytes - 1)) as r1 eqn:E1.
    remember (u / 256 ^ (nbytes - 2)) as q2 eqn:E2.
    remember (u mod 256 ^ (nbytes - 2)) as r2 eqn:E3.
    remember (q2 / 256) as t eqn:E4.
    remember (q2 mod 256) as m eqn:E5.
    remember (256 ^ (nbytes - 2)) as P eqn:EP.
    clear E1 E2 E3 E4 E5 EP. rewrite Hq in *. rewrite Hr in *.
    assert (t = 255) as -> by nia.
    destruct (Z.leb_spec (128 * P) r1); nia.
  - assert (Z.to_nat nbytes ≠ O) as Hk by lia.
    split. { destruct (Z.to_nat nbytes); done. }
    pose proof (decode_long_signed (Z.to_nat nbytes) z Hk) as Hd.
    rewrite Z2Nat.id in Hd by lia. apply Hd. lia.
Qed.

Lemma encode_long_length z :
  long_fits z → Z.of_nat (length (encode_long z)) < 2 ^ 31.
Proof.
  unfold long_fits, encode_long. intros Hfit. rewrite length_le_bytes.
  pose proof (Z.log2_nonneg (Z.abs z)) as Hlog.
  assert (0 ≤ Z.shiftr (Z.log2 (Z.abs z) + 1) 3) as Hs
    by (apply Z.shiftr_nonneg; lia).
  destruct (_ && _); lia.
Qed.

Lemma decode_long_le_4 n :
  (n < 2 ^ 31)%N → decode_long (le_bytes 4 n) = Z.of_N n.
Proof.
  intros Hn. pose proof (decode_long_signed 4 (Z.of_N n) ltac:(done)) as Hd.
  change (256 ^ Z.of_nat 4) with 4294967296 in Hd.
  change (128 * 256 ^ (Z.of_nat 4 - 1)) with 2147483648 in Hd.
  change (2 ^ 31)%N with 2147483648%N in Hn.
  rewrite Z.mod_small, N2Z.id in Hd by lia. apply Hd. lia.
Qed.

Lemma exec_long z stack :
  long_fits z → exec (save_long z) stack (Obj (PyInt z) :: stack).
Proof.
  intros Hfit. unfold save_long. cbv zeta.
  change (2 ^ 31) with 2147483648. change (2 ^ 32) with 4294967296.
  destruct (_ && _) eqn:H32.
  - apply andb_prop in H32 as [Hlo Hhi]. apply Z.leb_le in Hlo. apply Z.ltb_lt in Hhi.
    pose proof (Z.mod_pos_bound z 4294967296 ltac:(lia)) as Hu.
    destruct (N.leb_spec 65536 (Z.to_N (z mod 4294967296))) as [H16|H16].
    { apply (exec_step BININT). intros rest memo. cbn [step BININT].
      unfold load_long. rewrite read_le_bytes.
      pose proof (decode_long_signed 4 z ltac:(done)) as Hd.
      change (256 ^ Z.of_nat 4) with 4294967296 in Hd.
      change (128 * 256 ^ (Z.of_nat 4 - 1)) with 2147483648 in Hd.
      rewrite Hd by lia. by eexists. }
    assert (z mod 4294967296 = z) as Hz.
    { destruct (Z.le_gt_cases 0 z); [apply Z.mod_small; lia|].
      exfalso. assert (z mod 4294967296 = z + 4294967296) as Hm.
      { rewrite <-(Z_mod_plus_full z 1 4294967296). rewrite Z.mod_small; lia. }
      lia. }
    rewrite Hz in *.
    destruct (N.leb_spec 256 (Z.to_N z)) as [H8|H8].
    + apply (exec_step BININT2). intros rest memo. cbn [step BININT2].
      rewrite read_le_bytes, le_value_small by (change (256 ^ N.of_nat 2)%N with 65536%N; lia).
      rewrite Z2N.id by lia. by eexists.
    + apply (exec_step BININT1 [byte_of_N (Z.to_N z)]). intros rest memo.
      cbn [step BININT1 app]. rewrite read_1. cbn [le_value].
      rewrite reference_proofs.N_of_byte_of_N by lia.
      rewrite N.mul_0_r, N.add_0_r, Z2N.id by lia. by eexists.
  - assert (z ≠ 0) as Hz.
    { intros ->. done. }
    destruct (encode_long_spec z Hz) as [Hne Hdec].
    pose proof (encode_long_length z Hfit) as Hlen.
    destruct (N.ltb_spec (N.of_nat (length (encode_long z))) 256) as [H1|H4].
    + apply (exec_step LONG1 (byte_of_N (N.of_nat (length (encode_long z)))
                               :: encode_long z)).
      intros rest memo. cbn [step LONG1 app]. rewrite read_1. cbn [le_value].
      rewrite reference_proofs.N_of_byte_of_N by done.
      rewrite N.mul_0_r, N.add_0_r, Nat2N.id. unfold load_long.
      rewrite read_app, Hdec. by eexists.
    + apply (exec_step LONG4). intros rest memo. cbn [step LONG4].
      rewrite <-app_assoc, read_le_bytes.
      rewrite decode_long_le_4 by (change (2 ^ 31)%N with 2147483648%N; lia).
      replace (Z.of_N (N.of_nat (length (encode_long z))) <? 0) with false
        by (symmetry; apply Z.ltb_ge; lia).
      rewrite nat_N_Z, Nat2Z.id. unfold load_long.
      rewrite read_app, Hdec. by eexists.
Qed.

(** ** Dicts *)

#[local] Open Scope list_scope.

Lemma pushed_snoc kvs kv :
  pushed (kvs ++ [kv]) = Obj kv.2 :: Obj (PyStr kv.1) :: pushed kvs.
Proof. unfold pushed. by rewrite foldl_app. Qed.

Lemma pushed_snoc_app kvs kv stack :
  pushed (kvs ++ [kv]) ++ stack
  = Obj kv.2 :: Obj (PyStr kv.1) :: pushed kvs ++ stack.
Proof. by rewrite pushed_snoc. Qed.

Lemma pop_mark_pushed kvs stack acc :
  pop_mark (pushed kvs ++ Mark :: stack) acc = Some (flat kvs ++ acc, stack).
Proof.
  revert acc. induction kvs as [|kv kvs IH] using rev_ind; intros acc; [done|].
  rewrite pushed_snoc. cbn [app pop_mark]. rewrite IH. unfold flat.
  rewrite map_app, concat_app. cbn [map concat]. by rewrite <-!app_assoc.
Qed.

Lemma pairs_flat kvs : pairs (flat kvs) = Some kvs.
Proof.
  induction kvs as [|[k v] kvs IH]; [done|].
  change (flat ((k, v) :: kvs)) with (PyStr k :: v :: flat kvs).
  cbn [pairs]. by rewrite IH.
Qed.

Lemma exec_setitems pend d stack :
  exec [SETITEMS] (pushed pend ++ Mark :: Obj (PyDict d) :: stack)
       (Obj (PyDict (set_items d pend)) :: stack).
Proof.
  apply exec_op. intros rest memo. cbn [step SETITEMS].
  rewrite pop_mark_pushed, app_nil_r, pairs_flat. by eexists.
Qed.

Lemma exec_mark stack : exec [MARK] stack (Mark :: stack).
Proof. apply exec_op. intros rest memo. by eexists. Qed.

Lemma exec_batch_dict entries kvs i idx pend d stack :
  Forall2 entry_ok entries kvs →
  exec (batch_dict i entries idx).1
       (pushed pend ++ Mark :: Obj (PyDict d) :: stack)
       (Obj (PyDict (set_items d (pend ++ kvs))) :: stack).
Proof.
  intros Hok. revert i idx pend d.
  induction Hok as [|entry kv entries kvs Hentry _ IH]; intros i idx pend d.
  - rewrite app_nil_r. apply exec_setitems.
  - cbn [batch_dict]. pose proof (Hentry idx) as Hb.
    destruct (entry idx) as [b idx1]. cbn [fst] in Hb.
    destruct (Nat.eqb (S i) BATCHSIZE).
    + pose proof (IH O idx1 [] (set_items d (pend ++ [kv]))) as Hrest.
      destruct (batch_dict 0 entries idx1) as [bs idx2]. cbn [fst] in *.
      eapply exec_app; [apply Hb|]. rewrite <-pushed_snoc_app.
      change (SETITEMS :: MARK :: bs) with ([SETITEMS] ++ [MARK] ++ bs).
      eapply exec_app; [apply exec_setitems|].
      eapply exec_app; [apply exec_mark|].
      replace (set_items d (pend ++ kv :: kvs))
        with (set_items (set_items d (pend ++ [kv])) ([] ++ kvs)).
      * apply Hrest.
      * unfold set_items. rewrite <-foldl_app, <-app_assoc. done.
    + pose proof (IH (S i) idx1 (pend ++ [kv]) d) as Hrest.
      destruct (batch_dict (S i) entries idx1) as [bs idx2]. cbn [fst] in *.
      eapply exec_app; [apply Hb|]. rewrite <-pushed_snoc_app.
      by rewrite <-app_assoc in Hrest.
Qed.

Lemma set_items_union (kvs : list (string * pyobj)) d :
  NoDup kvs.*1 → set_items d kvs = list_to_map kvs ∪ d.
Proof.
  revert d. induction kvs as [|[k v] kvs IH]; intros d Hnd.
  - cbn. by rewrite (left_id_L ∅ (∪)).
  - rewrite fmap_cons in Hnd. apply NoDup_cons in Hnd as [Hk Hnd].
    cbn [set_items foldl fst snd]. fold (set_items (<[k := v]> d) kvs).
    rewrite IH by done. cbn [list_to_map foldr fst snd].
    rewrite <-insert_union_l, <-insert_union_r; [done|].
    by apply not_elem_of_list_to_map_1.
Qed.

Lemma set_items_to_list (d : gmap string pyobj) : set_items ∅ (map_to_list d) = d.
Proof.
  rewrite set_items_union by apply NoDup_fst_map_to_list.
  by rewrite (right_id_L ∅ (∪)), list_to_map_to_list.
Qed.

Lemma exec_empty_dict idx stack :
  exec (EMPTY_DICT :: put idx) stack (Obj (PyDict ∅) :: stack).
Proof.
  change (EMPTY_DICT :: put idx) with ([EMPTY_DICT] ++ put idx).
  eapply exec_app; [|apply exec_put].
  apply exec_op. intros rest memo. by eexists.
Qed.

Lemma exec_dict (d : gmap string pyobj) idx stack :
  map_Forall (λ k v, text_fits k
                     ∧ ∀ idx stack, exec (save v idx).1 stack (Obj v :: stack)) d →
  exec (save (PyDict d) idx).1 stack (Obj (PyDict d) :: stack).
Proof.
  intros Hd. cbn [save]. rewrite map_fold_foldr.
  set (entries := foldr _ _ _).
  assert (Forall2 entry_ok entries (map_to_list d)) as Hok.
  { unfold entries. assert (Forall (λ kv, d !! kv.1 = Some kv.2) (map_to_list d)) as Hin.
    { apply Forall_forall. intros [k v]. apply elem_of_map_to_list. }
    induction Hin as [|[k v] kvs Hkv _ IH]; [constructor|].
    cbn [foldr uncurry]. constructor; [|apply IH].
    intros idx' stack'. unfold save_entry. cbn [fst snd] in *.
    destruct (Hd k v Hkv) as [Hk Hv].
    pose proof (exec_unicode k idx' stack' Hk) as H1.
    destruct (save_unicode k idx') as [b1 idx1]. cbn [fst] in H1.
    pose proof (Hv idx1 (Obj (PyStr k) :: stack')) as H2.
    destruct (save v idx1) as [b2 idx2]. cbn [fst] in *.
    by eapply exec_app. }
  pose proof (set_items_to_list d) as Hitems.
  unfold save_entries.
  destruct Hok as [|entry [k v] entries' kvs Hentry Hok].
  - cbn [fst]. rewrite app_nil_r. cbn [set_items foldl] in Hitems. subst d.
    apply exec_empty_dict.
  - destruct Hok as [|entry2 kv2 entries'' kvs' Hentry2 Hok].
    + pose proof (Hentry (idx + 1)%N (Obj (PyDict ∅) :: stack)) as Hb.
      destruct (entry (idx + 1)%N) as [b idx1]. cbn [fst snd] in *.
      change (EMPTY_DICT :: put idx ++ b ++ [SETITEM])
        with ((EMPTY_DICT :: put idx) ++ b ++ [SETITEM]).
      eapply exec_app; [apply exec_empty_dict|].
      eapply exec_app; [apply Hb|].
      apply exec_op. intros rest memo. cbn [step SETITEM].
      cbn [set_items foldl fst snd] in Hitems. rewrite Hitems. by eexists.
    + pose proof (exec_batch_dict (entry :: entry2 :: entries'')
                    ((k, v) :: kv2 :: kvs') O (idx + 1)%N [] ∅ stack) as Hb.
      destruct (batch_dict 0 (entry :: entry2 :: entries'') (idx + 1)%N) as [bs idx1].
      cbn [fst] in *. cbn [app] in Hb. rewrite Hitems in Hb.
      change (EMPTY_DICT :: put idx ++ MARK :: bs)
        with ((EMPTY_DICT :: put idx) ++ [MARK] ++ bs).
      eapply exec_app; [apply exec_empty_dict|].
      eapply exec_app; [apply exec_mark|].
      apply Hb. by repeat constructor.
Qed.

(** ** A pickle loads as the object it was made of *)

Lemma loads_dumps v :
  exec (save v 0%N).1 [] [Obj v] → loads (dumps v) = inr v.
Proof.
  intros Hv. unfold loads, dumps.
  assert (exec [PROTO; x02] [] []) as Hproto.
  { apply (exec_step PROTO [x02]). intros rest memo. by eexists. }
  pose proof (exec_app _ _ _ _ _ Hproto Hv) as Hrun.
  destruct (Hrun ∅ [STOP] (S (length (PROTO :: x02 :: (save v 0%N).1 ++ [STOP]))))
    as (fuel & memo & Hfuel & Heq).
  { cbn [app length]. lia. }
  cbn [app] in Heq. rewrite Heq.
  destruct fuel as [|fuel]; [cbn in Hfuel; lia|]. done.
Qed.

Lemma loads_dumps_cache_record (strings_mapping : gmap string Z) (md5 : string) :
  text_fits md5 →
  map_Forall (λ k z, text_fits k ∧ long_fits z) strings_mapping →
  loads (dumps (kodi_service.cache_record strings_mapping md5))
  = inr (kodi_service.cache_record strings_mapping md5).
Proof.
  intros Hmd5 Hm. apply loads_dumps. apply exec_dict.
  apply map_Forall_insert_2; [|apply map_Forall_insert_2; [|apply map_Forall_empty]].
  - split; [done|]. intros idx stack. apply exec_dict.
    intros k v Hkv. rewrite lookup_fmap in Hkv.
    destruct (strings_mapping !! k) as [z|] eqn:Hz; [|done].
    injection Hkv as <-. destruct (Hm k z Hz) as [Hk Hfit].
    split; [done|]. intros idx' stack'. by apply exec_long.
  - split; [done|]. intros idx stack. by apply exec_unicode.
Qed.

(** The pickles of CPython for a cache record, a list of integers at
    the limits of their opcodes, a record without entries and a text
    beyond ASCII with an integer of nine bytes; and a pickle read. *)
Lemma pickle_test_vectors :
  hex (dumps (kodi_service.cache_record {[ "Play" := 100 ]}
                "d41d8cd98f00b204e9800998ecf8427e"))
  = "80027d7100285807000000737472696e677371017d71025804000000506c617971034b647358030000006d64357104582000000064343164386364393866303062323034653938303039393865636638343237657105752e"
  ∧ hex (dumps (PyList [PyInt 0; PyInt 255; PyInt 256; PyInt 65535; PyInt 65536;
                        PyInt (-1); PyInt 2147483647; PyInt 2147483648;
                        PyInt (-2147483648); PyInt (-2147483649);
                        PyInt (-549755813888); PyNone; PyBool true; PyBool false]))
    = "80025d7100284b004bff4d00014dffff4a000001004affffffff4affffff7f8a0500000080004a000000808a05ffffff7fff8a0500000000804e8889652e"
  ∧ hex (dumps (kodi_service.cache_record ∅ ""))
    = "80027d7100285807000000737472696e677371017d710258030000006d6435710358000000007104752e"
  ∧ hex (dumps (PyDict {[ String "c" (String "a" (String "f" (String (ascii_of_nat 233) "")))
                          := PyInt 18446744073709551616 ]}))
    = "80027d71005805000000636166c3a971018a09000000000000000001732e"
  ∧ loads [x80; x02; x7d; x71; x00; x58; x01; x00; x00; x00; x61; x71; x01;
           x4b; x07; x73; x2e]
    = inr (PyDict {[ "a" := PyInt 7 ]})
  ∧ loads [] = inl (Exn EOFError "Ran out of input").
Proof. repeat split; vm_compute; reflexivity. Qed.

End pickle_proofs.

(** ** The cache file round-trips *)

Section pickled_cache.
Context `{Platform}.

(** C5. Round trip: with the pickle of protocol 2 as the serializer,
    writing the record of a mapping and a digest to the cache file and
    reading the cache file back gives that record, for every digest and
    every mapping protocol 2 can hold (texts below 4 GiB of UTF-8,
    integers below 2 GiB). *)
Theorem cache_record_round_trip fs (strings_mapping : gmap string Z) (md5 : string) :
  pickle_dump = pickle.dumps →
  pickle_load = pickle.loads →
  pickle.text_fits md5 →
  map_Forall (λ en_string string_id,
                pickle.text_fits en_string ∧ pickle.long_fits string_id)
             strings_mapping →
  let record := cache_record strings_mapping md5 in
  (write_cache record;; read_cache) fs = (inr record, with_cache fs record).
Proof.
  intros Hdump Hload Hmd5 Hm record. rewrite bind_unfold.
  change (write_cache record fs) with (@inr exn unit (), with_cache fs record).
  cbv beta iota. rewrite read_cache_with_cache, Hdump, Hload. unfold record.
  by rewrite pickle_proofs.loads_dumps_cache_record.
Qed.

End pickled_cache.

(** ** The theorems at work on the reference platform *)

Import examples.

(** C1 fails as stated.  The cache file of [fs_malformed] holds a value
    that deserializes well and is no cache record (an empty dict), and
    [__init__] fails on it with the [KeyError] of the missing ['md5']
    entry instead of rebuilding; the empty cache file of [fs_truncated]
    cannot be deserialized, and [__init__] fails with the [EOFError] of
    the unpickler.  The catalog is in place both times. *)
Lemma malformed_cache_breaks_init :
  files fs_malformed !! en_gb_string_po_path = Some catalog_bytes
  ∧ (data ← files fs_malformed !! string_mapping_path; Some (pickle_load data))
    = Some (inr (PyDict ∅))
  ∧ __init__ fs_malformed = (inl (Exn KeyError "md5"), fs_malformed)
  ∧ files fs_truncated !! en_gb_string_po_path = Some catalog_bytes
  ∧ files fs_truncated !! string_mapping_path = Some []
  ∧ __init__ fs_truncated = (inl (Exn EOFError "Ran out of input"), fs_truncated).
Proof. repeat split; vm_compute; reflexivity. Qed.

(** The theorem for C1 on [fs_malformed] (a dict without ['md5']) and on
    [fs_stale] (a record of another digest, rebuilt). *)

Lemma init_malformed_cache_witness :
  __init__ fs_malformed = (inl (Exn KeyError "md5"), fs_malformed)
  ∧ __init__ fs_stale = rebuilt fs_stale catalog_bytes catalog.
Proof.
  assert (files fs_malformed !! en_gb_string_po_path = Some catalog_bytes) as Hpo
    by (vm_compute; reflexivity).
  assert (files fs_malformed !! string_mapping_path = Some (pickle_dump (PyDict ∅)))
    as Hcache by (vm_compute; reflexivity).
  assert (files fs_stale !! en_gb_string_po_path = Some catalog_bytes) as Hpo'
    by (vm_compute; reflexivity).
  assert (files fs_stale !! string_mapping_path
          = Some (pickle_dump (PyDict stale_dict))) as Hcache'
    by (vm_compute; reflexivity).
  split.
  - destruct (init_malformed_cache fs_malformed catalog_bytes _ Hpo Hcache)
      as (_ & _ & Hkey & _).
    apply (Hkey ∅); vm_compute; reflexivity.
  - destruct (init_malformed_cache fs_stale catalog_bytes _ Hpo' Hcache')
      as (_ & _ & _ & _ & Hstale).
    apply Hstale; [vm_compute; reflexivity|]. right.
    exists stale_dict, (PyStr "00000000000000000000000000000000").
    repeat split; vm_compute; reflexivity.
Defined.

(** The theorem for C3 on [fs_stale]. *)
Lemma stale_cache_is_rebuilt_witness :
  let record := cache_record (_parse_strings_po catalog) (md5_hexdigest catalog_bytes) in
  let fs' := with_cache fs_stale record in
  let self := service (strings_dict (_parse_strings_po catalog)) in
  __init__ fs_stale = (inr self, fs')
  ∧ read_cache fs' = (inr record, fs')
  ∧ __init__ fs' = (inr self, fs').
Proof.
  apply (stale_cache_is_rebuilt fs_stale catalog_bytes catalog
           (pickle_dump (PyDict stale_dict)) stale_dict
           (PyStr "00000000000000000000000000000000"));
    [apply reference_proofs.pickle_contract_holds|vm_compute; reflexivity..].
Defined.

(** The theorem for C4 on a fresh installation: the first [__init__]
    writes the cache, the second finds it. *)
Lemma init_twice_witness :
  let record := cache_record (_parse_strings_po catalog) (md5_hexdigest catalog_bytes) in
  let self := service (strings_dict (_parse_strings_po catalog)) in
  __init__ fs_fresh = (inr self, with_cache fs_fresh record)
  ∧ __init__ (with_cache fs_fresh record) = (inr self, with_cache fs_fresh record).
Proof.
  intros record self.
  assert (__init__ fs_fresh = (inr self, with_cache fs_fresh record)) as Hfirst
    by (vm_compute; reflexivity).
  split; [exact Hfirst|].
  exact (init_twice fs_fresh (inr self) (with_cache fs_fresh record)
           reference_proofs.pickle_contract_holds Hfirst).
Defined.

(** The theorem for C5 on a one-entry mapping, on the reference
    platform with pickle as its serializer. *)
Lemma cache_record_round_trip_witness :
  let record := cache_record {[ "Play" := 100 ]} "d41d8cd98f00b204e9800998ecf8427e" in
  (@write_cache pickle.platform record;; @read_cache pickle.platform) fs_fresh
  = (inr record, @with_cache pickle.platform fs_fresh record).
Proof.
  apply (@cache_record_round_trip pickle.platform fs_fresh {[ "Play" := 100 ]}
           "d41d8cd98f00b204e9800998ecf8427e" eq_refl eq_refl).
  - vm_compute; reflexivity.
  - apply map_Forall_singleton. split; vm_compute; reflexivity.
Defined.

(** The theorem for C6 on the empty file system. *)
Lemma init_missing_catalog_witness :
  __init__ fs_empty
  = (inl (Exn LocalizationError "Missing English strings.po localization file"),
     fs_empty).
Proof. apply (init_missing_catalog fs_empty). vm_compute; reflexivity. Defined.




(** C8 fails as stated.  An error reply has no ['result'] entry, let
    alone a ['tvshows'] entry, and [get_tvshows] raises
    [KeyError('result')] on it, not [NoDataError]; a reply whose result
    is [null] has no ['episodes'] entry, and [get_episodes] raises
    [AttributeError] on it. *)
Lemma error_reply_is_not_no_data :
  py_getitem reference.reply_error "result" = inl (Exn KeyError "result")
  ∧ @get_tvshows reference.platform (reference.canned reference.reply_error) kodi_error
    = (inl (Exn KeyError "result"),
       after_call "VideoLibrary.GetTVShows" (Some get_tvshows_params) kodi_error)
  ∧ py_getitem null_result "result" = inr PyNone
  ∧ @get_episodes reference.platform (reference.canned null_result) 1 kodi_null
    = (inl (Exn AttributeError "object has no attribute 'get'"),
       after_call "VideoLibrary.GetEpisodes" (Some (get_episodes_params 1)) kodi_null).
Proof. repeat split; vm_compute; reflexivity. Qed.

(** The theorem for C8 on a library without TV shows and with one
    episode. *)
Lemma library_queries_no_data_witness :
  get_tvshows kodi0
  = (inl (NoData "Kodi medialibrary has no TV shows"),
     after_call "VideoLibrary.GetTVShows" (Some get_tvshows_params) kodi0)
  ∧ get_episodes 1 kodi0
    = (inr (PyList [PyDict (<["playcount" := PyInt 0]> (<["episodeid" := PyInt 7]> ∅))]),
       after_call "VideoLibrary.GetEpisodes" (Some (get_episodes_params 1)) kodi0).
Proof.
  destruct library_queries_no_data as [Hshows Hepisodes].
  specialize (Hshows kodi0). specialize (Hepisodes 1 kodi0).
  cbv zeta in Hshows, Hepisodes.
  set (shows := {[ "limits" := PyDict ∅ ]} : gmap string pyobj).
  set (episodes := {[ "episodes" :=
                        PyList [PyDict (<["playcount" := PyInt 0]>
                                        (<["episodeid" := PyInt 7]> ∅))] ]}
                   : gmap string pyobj).
  assert ((executeJSONRPC (jsonrpc_request "VideoLibrary.GetTVShows"
                             (Some get_tvshows_params)) (kodi kodi0)).1
          = inr (reference.reply_result (PyDict shows))) as Hr1
    by (vm_compute; reflexivity).
  assert ((executeJSONRPC (jsonrpc_request "VideoLibrary.GetEpisodes"
                             (Some (get_episodes_params 1))) (kodi kodi0)).1
          = inr (reference.reply_result (PyDict episodes))) as Hr2
    by (vm_compute; reflexivity).
  rewrite Hr1 in Hshows. rewrite Hr2 in Hepisodes.
  unfold reference.reply_result in Hshows, Hepisodes.
  rewrite lookup_insert_eq in Hshows, Hepisodes.
  split.
  - apply (proj1 Hshows). left. vm_compute; reflexivity.
  - apply (proj2 Hepisodes); vm_compute; reflexivity.
Defined.

(** The theorem for C10 on an unwatched episode: marking it watched
    sends the update, marking it unwatched sends nothing. *)
Lemma set_episode_playcount_updates_witness :
  let w1 := (get_episode_details 7 kodi0).2 in
  let update :=
    jsonrpc_request "VideoLibrary.SetEpisodeDetails"
                    (Some (set_episode_playcount_params 7 1)) in
  requests (set_episode_playcount 7 1 kodi0).2 = (requests w1 ++ [update])%list
  ∧ set_episode_playcount 7 0 kodi0 = (inr (), w1).
Proof.
  intros w1 update.
  set (details := PyDict (<["playcount" := PyInt 0]> (<["episodeid" := PyInt 7]> ∅))).
  assert (get_episode_details 7 kodi0 = (inr details, w1)) as Hdetails
    by (vm_compute; reflexivity).
  split.
  - pose proof (set_episode_playcount_updates 7 1 kodi0 details (PyInt 0) w1
                  Hdetails eq_refl) as Hup.
    cbv zeta in Hup. destruct Hup as (Hreq & _ & _). exact Hreq.
  - pose proof (set_episode_playcount_updates 7 0 kodi0 details (PyInt 0) w1
                  Hdetails eq_refl) as Hup.
    cbv zeta in Hup. destruct Hup as (_ & _ & Hsame). by apply Hsame.
Defined.

(** * Further properties of the two modules *)

(** ** The localization service: the paths of [__init__] *)

Section service_paths.
Context `{Platform}.

(** X1. A first run: with the catalog in place, decodable, and no cache
    file, [__init__] returns the mapping parsed from the catalog and
    creates the cache file with that mapping and the digest of the
    catalog bytes. *)
Theorem init_without_cache fs po text :
  files fs !! en_gb_string_po_path = Some po →
  files fs !! string_mapping_path = None →
  decode_utf8 po = inr text →
  __init__ fs
  = (inr (service (strings_dict (_parse_strings_po text))),
     with_cache fs (cache_record (_parse_strings_po text) (md5_hexdigest po))).
Proof.
  intros Hpo Hc Hd.
  apply (init_rebuilds fs po text (Exn IOError "No such file or directory"));
    [done|done|by apply cached_absent|done].
Qed.

(** X2. A cache hit: when the cache file holds a dict whose ['md5']
    entry is the digest of the catalog bytes, [__init__] returns its
    ['strings'] entry as it is and leaves the file system untouched.
    The catalog is neither decoded nor parsed: nothing is asked of its
    contents beyond the digest. *)
Theorem init_cache_hit fs po data d strings :
  files fs !! en_gb_string_po_path = Some po →
  files fs !! string_mapping_path = Some data →
  pickle_load data = inr (PyDict d) →
  d !! "md5" = Some (PyStr (md5_hexdigest po)) →
  d !! "strings" = Some strings →
  __init__ fs = (inr (service strings), fs).
Proof.
  intros Hpo Hc Hload Hmd5 Hs.
  rewrite (init_present fs po Hpo), (load_hit fs po (PyDict d)).
  - cbn [py_getitem]. by rewrite Hs.
  - rewrite (cached_present _ fs data Hc), Hload. cbn [py_getitem].
    rewrite Hmd5. cbn [py_ne_str]. by rewrite String.eqb_refl.
Qed.

(** X3. A rebuild needs a catalog that decodes: on a cache miss (no
    cache file, or a record of another digest), a catalog that is not
    UTF-8 makes [__init__] fail with the error of the decoder, and no
    cache file is written. *)
Theorem init_undecodable_catalog fs po e :
  files fs !! en_gb_string_po_path = Some po →
  decode_utf8 po = inl e →
  (files fs !! string_mapping_path = None
   ∨ ∃ data d stored,
       files fs !! string_mapping_path = Some data
       ∧ pickle_load data = inr (PyDict d)
       ∧ d !! "md5" = Some stored
       ∧ py_ne_str stored (md5_hexdigest po) = true) →
  __init__ fs = (inl e, fs).
Proof.
  intros Hpo Hd Hmiss. rewrite (init_present fs po Hpo).
  destruct Hmiss as [Hc|(data & d & stored & Hc & Hload & Hmd5 & Hne)].
  - rewrite (load_miss fs po _ (cached_absent _ fs Hc)) by done.
    by rewrite (rebuilt_undecoded fs po e Hd).
  - rewrite (load_miss fs po (Exn IOError "English strings.po has been updated")).
    + by rewrite (rebuilt_undecoded fs po e Hd).
    + rewrite (cached_present _ fs data Hc), Hload. cbn [py_getitem].
      by rewrite Hmd5, Hne.
    + done.
Qed.

(** X4. What [__init__] leaves alone.  The catalog path and the cache
    path differ, whatever the two directories are; every file but the
    cache file is as it was, the catalog among them; at most one write
    happens, and it goes to the cache path; and a failed [__init__]
    leaves the file system exactly as it found it. *)
Theorem init_touches_only_cache fs :
  let r := (__init__ fs).1 in
  let fs' := (__init__ fs).2 in
  en_gb_string_po_path ≠ string_mapping_path
  ∧ (∀ path, path ≠ string_mapping_path → files fs' !! path = files fs !! path)
  ∧ (written fs' = written fs
     ∨ written fs' = (written fs ++ [string_mapping_path])%list)
  ∧ (∀ e, r = inl e → fs' = fs).
Proof.
  intros r fs'. split; [apply paths_distinct|].
  assert (fs' = fs ∨ ∃ mapping a, r = inr a ∧ fs' = with_cache fs mapping) as Hcases.
  { unfold r, fs'. destruct (files fs !! en_gb_string_po_path) as [po|] eqn:Hpo.
    2:{ left. by rewrite (init_absent fs Hpo). }
    rewrite (init_present fs po Hpo).
    destruct (try_world fs po) as [Hsame|(text & ->)].
    - left. destruct (try_except _ _ _ fs) as [[e|mapping] fs2]; cbn [snd] in Hsame;
        subst fs2; [done|]. by destruct (py_getitem mapping "strings").
    - right. rewrite cache_record_strings. by eexists _, _. }
  destruct Hcases as [->|(mapping & a & Ha & ->)].
  - split; [done|]. split; [by left|done].
  - split; [|split].
    + intros path Hne. unfold with_cache. cbn [files]. by rewrite lookup_insert_ne.
    + by right.
    + intros e He. rewrite Ha in He. done.
Qed.


End service_paths.

(** *** What [__init__] reads *)

Section service_reads.
Context `{Platform}.

Lemma rebuilt_result fs1 fs2 po :
  (rebuilt_mapping po (md5_hexdigest po) fs1).1
  = (rebuilt_mapping po (md5_hexdigest po) fs2).1.
Proof.
  destruct (decode_utf8 po) as [e|text] eqn:Hd.
  - by rewrite !(rebuilt_undecoded _ po e Hd).
  - by rewrite !(rebuilt_decoded _ po text Hd).
Qed.

Lemma load_result fs1 fs2 po :
  files fs1 !! string_mapping_path = files fs2 !! string_mapping_path →
  (try_except (cached_mapping (md5_hexdigest po)) isinstance_IOError
              (λ _, rebuilt_mapping po (md5_hexdigest po)) fs1).1
  = (try_except (cached_mapping (md5_hexdigest po)) isinstance_IOError
                (λ _, rebuilt_mapping po (md5_hexdigest po)) fs2).1.
Proof.
  intros Hc. unfold try_except.
  destruct (files fs1 !! string_mapping_path) as [data|] eqn:Hc1; symmetry in Hc.
  - rewrite (cached_present _ fs1 data Hc1), (cached_present _ fs2 data Hc).
    destruct (pickle_load data) as [e|mapping].
    { destruct (isinstance_IOError e); [apply rebuilt_result|done]. }
    destruct (py_getitem mapping "md5") as [e|stored].
    { destruct (isinstance_IOError e); [apply rebuilt_result|done]. }
    destruct (py_ne_str stored (md5_hexdigest po)); [|done].
    cbn [isinstance_IOError exc_type]. apply rebuilt_result.
  - rewrite (cached_absent _ fs1 Hc1), (cached_absent _ fs2 Hc).
    cbn [isinstance_IOError exc_type]. apply rebuilt_result.
Qed.

(** X24. [__init__] reads two files and no other: on two file systems
    that agree on the catalog file and on the cache file it ends the
    same way, with the same service or the same exception. *)
Theorem init_reads_two_files fs1 fs2 :
  files fs1 !! en_gb_string_po_path = files fs2 !! en_gb_string_po_path →
  files fs1 !! string_mapping_path = files fs2 !! string_mapping_path →
  (__init__ fs1).1 = (__init__ fs2).1.
Proof.
  intros Hpo Hc.
  destruct (files fs1 !! en_gb_string_po_path) as [po|] eqn:Hpo1; symmetry in Hpo.
  - rewrite (init_present fs1 po Hpo1), (init_present fs2 po Hpo).
    pose proof (load_result fs1 fs2 po Hc) as Hload.
    destruct (try_except _ _ _ fs1) as [[e1|m1] w1],
             (try_except _ _ _ fs2) as [[e2|m2] w2]; cbn [fst] in Hload;
      try done; [by injection Hload as ->|].
    injection Hload as ->. by destruct (py_getitem m2 "strings").
  - by rewrite (init_absent fs1 Hpo1), (init_absent fs2 Hpo).
Qed.

End service_reads.


(** ** The catalog parser *)

Module parser_proofs.
Import catalog_spec.
#[local] Open Scope list_scope.

Lemma dict_of_pairs_no_empty_key pairs : dict_of_pairs pairs !! ""%string = None.
Proof.
  unfold dict_of_pairs. generalize (lookup_empty (M:=gmap string) (A:=Z) ""%string).
  generalize (∅ : gmap string Z).
  induction pairs as [|groups pairs IH]; intros m Hm; [done|].
  cbn [fold_left]. apply IH.
  destruct groups as [|string_id [|en_string [|??]]]; try done.
  destruct (String.eqb_spec en_string ""); [done|]. by rewrite lookup_insert_ne.
Qed.

Lemma py_int_nonneg cs :
  forallb re.is_digit cs = true → (0 ≤ py_int (string_of_list_ascii cs))%Z.
Proof.
  unfold py_int. rewrite list_ascii_of_string_of_list_ascii.
  intros Hd.
  assert (∀ acc, (0 ≤ acc)%Z →
            (0 ≤ fold_left (λ acc c, 10 * acc + (Z.of_nat (nat_of_ascii c) - 48))
                           cs acc)%Z) as Hfold; [|apply Hfold; lia].
  induction cs as [|c cs IH]; intros acc Hacc; [done|].
  cbn [forallb] in Hd. apply andb_prop in Hd as [Hc Hd].
  cbn [fold_left]. apply IH; [done|].
  unfold re.is_digit in Hc. apply andb_prop in Hc as [Hlo _].
  apply Nat.leb_le in Hlo. lia.
Qed.

Lemma msgctxt_id_digits l ds :
  msgctxt_id l = Some ds → forallb re.is_digit ds = true.
Proof.
  unfold msgctxt_id. destruct (strip_prefix msgctxt_open (strip_cr l)) as [rest|]; [|done].
  cbn [mbind option_bind]. destruct (unquote rest) as [ds'|]; [|done].
  cbn [mbind option_bind]. destruct (forallb re.is_digit ds') eqn:Hd; [|done].
  destruct (negb _); [|done]. by intros [= <-].
Qed.

Lemma records_digits ls :
  Forall (λ r : list ascii * list ascii, forallb re.is_digit r.1 = true) (records ls).
Proof.
  induction ls as [|l1 ls IH]; [constructor|].
  cbn [records]. apply Forall_app. split; [|done].
  destruct ls as [|l2 ls]; [constructor|].
  destruct (msgctxt_id l1) as [ds|] eqn:Hds; [|constructor].
  destruct (msgid_text l2); [|constructor].
  constructor; [|constructor]. by apply (msgctxt_id_digits l1).
Qed.

Lemma mapping_fold_nonneg (rs : list (list ascii * list ascii)) (m : gmap string Z) :
  Forall (λ r, forallb re.is_digit r.1 = true) rs →
  (∀ s id, m !! s = Some id → (0 ≤ id)%Z) →
  ∀ s id,
    fold_left
      (λ m (r : list ascii * list ascii),
         match r.2 with
         | [] => m
         | _ => <[string_of_list_ascii r.2 := py_int (string_of_list_ascii r.1)]> m
         end) rs m !! s = Some id →
    (0 ≤ id)%Z.
Proof.
  revert m. induction rs as [|[ds str] rs IH]; intros m Hrs Hm; [done|].
  apply Forall_cons in Hrs as [Hd Hrs]. cbn [fold_left]. apply IH; [done|].
  cbn [fst snd] in *. destruct str as [|c str]; [done|].
  intros s id. destruct (decide (string_of_list_ascii (c :: str) = s)) as [<-|Hne].
  - rewrite lookup_insert_eq. intros [= <-]. by apply py_int_nonneg.
  - rewrite lookup_insert_ne by done. apply Hm.
Qed.

Lemma lines_no_newline s : Forall (λ c, c ≠ nl) s → lines s = [s].
Proof.
  induction s as [|c s IH]; [done|]. intros Hs. apply Forall_cons in Hs as [Hc Hs].
  cbn [lines]. rewrite (proj2 (Ascii.eqb_neq c nl)) by done. by rewrite IH.
Qed.

Lemma strip_cr_cons c l : c ≠ cr → strip_cr (c :: l) = c :: strip_cr l.
Proof.
  intros Hc. destruct l as [|c' l]; [|done]. cbn [strip_cr].
  by rewrite (proj2 (Ascii.eqb_neq c cr)).
Qed.

Lemma msgctxt_id_strip_cr l l' : strip_cr l = strip_cr l' → msgctxt_id l = msgctxt_id l'.
Proof. unfold msgctxt_id. by intros ->. Qed.

Lemma msgid_text_strip_cr l l' : strip_cr l = strip_cr l' → msgid_text l = msgid_text l'.
Proof. unfold msgid_text. by intros ->. Qed.

Lemma records_strip_cr ls ls' :
  Forall2 (λ l l', strip_cr l = strip_cr l') ls ls' → records ls = records ls'.
Proof.
  induction 1 as [|l1 l1' ls ls' H1 Hls IH]; [done|].
  cbn [records]. rewrite IH. f_equal.
  destruct Hls as [|l2 l2' ls ls' H2 _]; [done|].
  by rewrite (msgctxt_id_strip_cr l1 l1'), (msgid_text_strip_cr l2 l2').
Qed.

Lemma lines_crlf text :
  Forall (λ c, c ≠ cr) (chars text) →
  Forall2 (λ l l', strip_cr l = strip_cr l')
          (lines (chars text))
          (lines (chars (replace_char re.newline
                           (String re.cr (String re.newline "")) text))).
Proof.
  unfold chars.
  induction text as [|c text IH]; intros Hcr; [by repeat constructor|].
  cbn [list_ascii_of_string] in Hcr. apply Forall_cons in Hcr as [Hc Hcr].
  specialize (IH Hcr). cbn [replace_char list_ascii_of_string].
  destruct (Ascii.eqb_spec c re.newline) as [->|Hnl].
  - rewrite !append_cons. cbn [list_ascii_of_string lines].
    change (String.append "" ?s) with s.
    replace (Ascii.eqb re.newline re.newline) with true by done.
    replace (Ascii.eqb re.cr re.newline) with false by done.
    by constructor.
  - rewrite append_cons. change (String.append "" ?s) with s.
    cbn [list_ascii_of_string lines].
    rewrite (proj2 (Ascii.eqb_neq c re.newline)) by done.
    destruct IH as [|l l' ls ls' Hl Hls]; [by repeat constructor|].
    constructor; [|done]. by rewrite !strip_cr_cons, Hl.
Qed.

Lemma chars_app s t : chars (s ++ t)%string = chars s ++ chars t.
Proof.
  unfold chars. induction s as [|c s IH]; [done|].
  rewrite append_cons. cbn [list_ascii_of_string]. by rewrite IH.
Qed.

Lemma lines_nonempty s : lines s ≠ [].
Proof. destruct (catalog_proofs.lines_spec s) as (l & ls & -> & _). done. Qed.

Lemma lines_app_newline a b : lines (a ++ nl :: b) = lines a ++ lines b.
Proof.
  induction a as [|c a IH]; [done|].
  cbn [app lines]. rewrite IH. destruct (Ascii.eqb c nl); [done|].
  pose proof (lines_nonempty a). by destruct (lines a).
Qed.

Lemma records_app ls x rest :
  records (ls ++ x :: rest) = records (ls ++ [x]) ++ records (x :: rest).
Proof.
  induction ls as [|l ls IH]; [done|].
  cbn [app records]. rewrite IH, <-app_assoc. f_equal.
  by destruct ls.
Qed.

Lemma strip_prefix_app_l pre l : strip_prefix pre (pre ++ l) = Some l.
Proof.
  induction pre as [|p pre IH]; [done|]. cbn [app strip_prefix].
  by rewrite Ascii.eqb_refl.
Qed.

Lemma unquote_app l : unquote (l ++ [dq]) = Some l.
Proof.
  induction l as [|c l IH]; [done|]. cbn [app unquote].
  rewrite IH. by destruct l.
Qed.

Lemma strip_cr_quoted l : strip_cr (l ++ [dq]) = l ++ [dq].
Proof.
  induction l as [|c l IH]; [done|]. cbn [app strip_cr].
  rewrite IH. by destruct l.
Qed.

Lemma msgctxt_id_line ds :
  forallb re.is_digit ds = true → ds ≠ [] →
  msgctxt_id (msgctxt_open ++ ds ++ [dq]) = Some ds.
Proof.
  intros Hd Hne. unfold msgctxt_id.
  rewrite app_assoc, strip_cr_quoted, <-app_assoc, strip_prefix_app_l.
  cbn [mbind option_bind]. rewrite unquote_app. cbn [mbind option_bind].
  rewrite Hd. by rewrite bool_decide_eq_false_2.
Qed.

Lemma msgid_text_line str : msgid_text (msgid_open ++ str ++ [dq]) = Some str.
Proof.
  unfold msgid_text.
  rewrite app_assoc, strip_cr_quoted, <-app_assoc, strip_prefix_app_l.
  cbn [mbind option_bind]. by rewrite unquote_app.
Qed.

Lemma msgid_text_msgctxt_line l : msgid_text (msgctxt_open ++ l ++ [dq]) = None.
Proof.
  unfold msgid_text. by rewrite app_assoc, strip_cr_quoted, <-app_assoc.
Qed.

Lemma chars_po_record string_id en_string :
  chars (po_record string_id en_string)
  = (msgctxt_open ++ chars string_id ++ [dq])
      ++ nl :: (msgid_open ++ chars en_string ++ [dq]).
Proof.
  unfold po_record, quoted. rewrite !chars_app, !append_cons. unfold chars.
  cbn [list_ascii_of_string]. rewrite !chars_app. unfold chars.
  cbn [list_ascii_of_string app]. unfold msgctxt_open, msgid_open, chars.
  cbn [list_ascii_of_string app]. rewrite <-!app_assoc. done.
Qed.

Lemma digits_no_newline ds :
  forallb re.is_digit ds = true → Forall (λ c, c ≠ nl) ds.
Proof.
  induction ds as [|c ds IH]; [constructor|]. cbn [forallb].
  intros [Hc Hd]%andb_prop. constructor; [|by apply IH]. by intros ->.
Qed.

Lemma records_append_record ls string_id en_string :
  ls ≠ [] →
  Forall (λ c, c ≠ nl) (chars en_string) →
  forallb re.is_digit (chars string_id) = true → string_id ≠ ""%string →
  records (ls ++ lines (chars (po_record string_id en_string)))
  = records ls ++ [(chars string_id, chars en_string)].
Proof.
  intros Hls Hs Hd Hid. rewrite chars_po_record.
  assert (Forall (λ c, c ≠ nl) (msgctxt_open ++ chars string_id ++ [dq])) as Hl1.
  { apply Forall_app. split; [repeat constructor; done|]. apply Forall_app. split.
    - by apply digits_no_newline.
    - by repeat constructor. }
  assert (Forall (λ c, c ≠ nl) (msgid_open ++ chars en_string ++ [dq])) as Hl2.
  { apply Forall_app. split; [repeat constructor; done|]. apply Forall_app. split;
      [done|by repeat constructor]. }
  rewrite lines_app_newline, !lines_no_newline by done.
  cbn [app]. rewrite records_app.
  destruct (exists_last Hls) as (ls' & p & ->).
  rewrite <-app_assoc. cbn [app]. rewrite records_app.
  rewrite !catalog_proofs.records_cons. cbn [records]. rewrite msgid_text_msgctxt_line.
  rewrite msgctxt_id_line, msgid_text_line; [|done|by destruct string_id].
  destruct (msgctxt_id p); cbn [app]; by rewrite !app_nil_r.
Qed.

End parser_proofs.

(** X6. The empty string is never a key of the parsed mapping, whatever
    the catalog text. *)
Theorem parse_no_empty_key text : _parse_strings_po text !! "" = None.
Proof. apply parser_proofs.dict_of_pairs_no_empty_key. Qed.

(** X7. Every ID in the parsed mapping is a non-negative integer. *)
Theorem parse_ids_nonneg text en_string (string_id : Z) :
  _parse_strings_po text !! en_string = Some string_id → (0 ≤ string_id)%Z.
Proof.
  rewrite catalog_proofs.parse_strings_po_refines. unfold catalog_spec.mapping.
  apply parser_proofs.mapping_fold_nonneg; [apply parser_proofs.records_digits|done].
Qed.

(** X8. A record takes two lines: a text without a line break parses
    to the empty mapping. *)
Theorem parse_single_line text :
  Forall (λ c, c ≠ re.newline) (list_ascii_of_string text) →
  _parse_strings_po text = ∅.
Proof.
  intros Hnl. rewrite catalog_proofs.parse_strings_po_refines.
  unfold catalog_spec.mapping, catalog_spec.chars.
  by rewrite parser_proofs.lines_no_newline.
Qed.

(** X9. Line ends: for a text without carriage returns, turning every
    line break into CR LF does not change the parsed mapping. *)
Theorem parse_crlf_line_ends text :
  Forall (λ c, c ≠ re.cr) (list_ascii_of_string text) →
  _parse_strings_po (replace_char re.newline (String re.cr (String re.newline "")) text)
  = _parse_strings_po text.
Proof.
  intros Hcr. rewrite !catalog_proofs.parse_strings_po_refines.
  unfold catalog_spec.mapping.
  by rewrite <-(parser_proofs.records_strip_cr _ _ (parser_proofs.lines_crlf text Hcr)).
Qed.

(** X10. The last write wins: appending, on new lines, the record of a
    non-empty run of digits and a non-empty one-line string to any
    catalog text updates the parsed mapping at that string with the
    value of the digits, and changes nothing else. *)
Theorem parse_appended_record text string_id en_string :
  string_id ≠ "" →
  forallb re.is_digit (list_ascii_of_string string_id) = true →
  en_string ≠ "" →
  Forall (λ c, c ≠ re.newline) (list_ascii_of_string en_string) →
  _parse_strings_po (text ++ String re.newline (po_record string_id en_string))
  = <[en_string := py_int string_id]> (_parse_strings_po text).
Proof.
  intros Hid Hd Hs Hnl. rewrite !catalog_proofs.parse_strings_po_refines.
  unfold catalog_spec.mapping.
  rewrite parser_proofs.chars_app. change (catalog_spec.chars (String re.newline ?s))
    with (re.newline :: catalog_spec.chars s).
  rewrite parser_proofs.lines_app_newline.
  rewrite parser_proofs.records_append_record;
    [|apply parser_proofs.lines_nonempty|done..].
  rewrite fold_left_app. cbn [fold_left fst snd].
  unfold catalog_spec.chars. rewrite !string_of_list_ascii_of_string.
  destruct en_string; [done|]. done.
Qed.

(** ** The diagnostic dump *)

Lemma leb_trans s1 s2 s3 :
  String.leb s1 s2 = true → String.leb s2 s3 = true → String.leb s1 s3 = true.
Proof.
  unfold String.leb. revert s2 s3.
  induction s1 as [|a s1 IH]; intros [|b s2] [|c s3]; cbn [String.compare]; try done.
  unfold Ascii.compare.
  destruct (N.compare_spec (N_of_ascii a) (N_of_ascii b)) as [Hab|Hab|Hab];
    destruct (N.compare_spec (N_of_ascii b) (N_of_ascii c)) as [Hbc|Hbc|Hbc];
    destruct (N.compare_spec (N_of_ascii a) (N_of_ascii c)) as [Hac|Hac|Hac];
    try done; try lia.
  apply IH.
Qed.

Lemma var_le_trans : Transitive var_le.
Proof. intros x y z. apply leb_trans. Qed.

Lemma var_le_total : Total var_le.
Proof. intros x y. apply String.leb_total. Qed.

Section dump.
Context `{Platform}.

Lemma NoDup_fst_functional (l : list (string * pyobj)) k v1 v2 :
  NoDup l.*1 → (k, v1) ∈ l → (k, v2) ∈ l → v1 = v2.
Proof.
  induction l as [|[k' v'] l IH]; intros Hnd H1 H2.
  { by apply elem_of_nil in H1. }
  rewrite fmap_cons in Hnd. apply NoDup_cons in Hnd as [Hk Hnd]. cbn [fst] in Hk.
  apply elem_of_cons in H1 as [H1|H1]; apply elem_of_cons in H2 as [H2|H2].
  - congruence.
  - exfalso. apply Hk. apply list_elem_of_fmap. exists (k, v2).
    split; [cbn [fst]; congruence|done].
  - exfalso. apply Hk. apply list_elem_of_fmap. exists (k, v1).
    split; [cbn [fst]; congruence|done].
  - by apply IH.
Qed.

Lemma sorted_vars_unique (l1 l2 : list (string * pyobj)) :
  l1 ≡ₚ l2 → NoDup l1.*1 →
  merge_sort var_le l1 = merge_sort var_le l2.
Proof.
  intros Hp Hnd. apply (StronglySorted_unique_strong var_le).
  - intros [k1 v1] [k2 v2] H1 H2 Hle1 Hle2.
    pose proof (String.leb_antisym _ _ Hle1 Hle2) as Hk. cbn [fst] in Hk. subst k2.
    rewrite merge_sort_Permutation in H1, H2. rewrite <-Hp in H2.
    f_equal. by apply (NoDup_fst_functional l1 k1).
  - apply (@StronglySorted_merge_sort _ var_le _ var_le_trans var_le_total).
  - apply (@StronglySorted_merge_sort _ var_le _ var_le_trans var_le_total).
  - by rewrite !merge_sort_Permutation.
Qed.

Lemma NoDup_fst_filter (P : string * pyobj → Prop) `{∀ x, Decision (P x)}
    (l : list (string * pyobj)) :
  NoDup l.*1 → NoDup (filter P l).*1.
Proof.
  induction l as [|x l IH]; [done|]. rewrite fmap_cons. intros [Hx Hl]%NoDup_cons.
  rewrite filter_cons. destruct (decide (P x)); [|by apply IH].
  rewrite fmap_cons. apply NoDup_cons. split; [|by apply IH].
  intros Hin. apply Hx. apply list_elem_of_fmap in Hin as (y & -> & Hy).
  apply list_elem_of_filter in Hy as [_ Hy]. apply list_elem_of_fmap. by exists y.
Qed.

(** X11. [_format_vars] joins with newlines one [var = value] line for
    each entry of a list that holds exactly the variables whose names
    neither start nor end with a double underscore, each name once, in
    ascending order of the names. *)
Theorem format_vars_listing (variables : gmap string pyobj) :
  ∃ var_list : list (string * pyobj),
    _format_vars variables
    = str_join (String re.newline "")
               (map (λ vv : string * pyobj, vv.1 ++ " = " ++ pformat vv.2) var_list)
    ∧ (∀ var val,
         (var, val) ∈ var_list
         ↔ variables !! var = Some val
           ∧ (startswith var "__" || endswith var "__") = false)
    ∧ NoDup var_list.*1
    ∧ StronglySorted (λ x y, String.leb x.1 y.1 = true) var_list.
Proof.
  eexists. split; [reflexivity|]. split; [|split].
  - intros var val. rewrite merge_sort_Permutation, list_elem_of_filter.
    rewrite elem_of_map_to_list. cbn [fst]. rewrite negb_true_iff. tauto.
  - rewrite merge_sort_Permutation. apply NoDup_fst_filter, NoDup_fst_map_to_list.
  - apply (@StronglySorted_merge_sort _ var_le _ var_le_trans var_le_total).
Qed.

(** X12. A variable whose name starts or ends with a double underscore
    leaves no trace in the output of [_format_vars]: with it or without
    it the text is the same. *)
Theorem format_vars_hides_dunder (variables : gmap string pyobj) var val :
  (startswith var "__" || endswith var "__") = true →
  _format_vars (<[var := val]> variables) = _format_vars (delete var variables).
Proof.
  intros Hd. unfold _format_vars. cbv zeta. f_equal. f_equal.
  apply sorted_vars_unique.
  - rewrite <-(insert_delete_eq variables var val) at 1.
    rewrite map_to_list_insert by apply lookup_delete_eq.
    rewrite filter_cons_False; [done|]. cbn [fst]. by rewrite Hd.
  - apply NoDup_fst_filter, NoDup_fst_map_to_list.
Qed.

Lemma append_assoc (a b c : string) : (a ++ b) ++ c = a ++ (b ++ c).
Proof. induction a as [|x a IH]; [done|]. by rewrite !append_cons, IH. Qed.

Lemma code_context_other lineno i lines :
  (lineno < i ∨ i + Z.of_nat (length lines) ≤ lineno)%Z →
  code_context_lines lineno i lines = other_lines i lines.
Proof.
  revert i. induction lines as [|line lines IH]; intros i Hi; [done|].
  cbn [code_context_lines other_lines]. cbn [length] in Hi.
  rewrite (proj2 (Z.eqb_neq i lineno)) by lia. f_equal. apply IH. lia.
Qed.

Lemma code_context_app lineno i before lines :
  code_context_lines lineno i (before ++ lines)
  = code_context_lines lineno i before
      ++ code_context_lines lineno (i + Z.of_nat (length before)) lines.
Proof.
  revert i. induction before as [|line before IH]; intros i.
  - cbn [app code_context_lines length]. by rewrite Z.add_0_r.
  - cbn [app code_context_lines length]. rewrite IH.
    replace (i + 1 + Z.of_nat (length before)) with (i + Z.of_nat (S (length before)))
      by lia.
    by rewrite !append_assoc.
Qed.

(** X13. [_format_code_context] marks the current line and no other:
    when the frame's index points at [current] in its context, the
    lines before and after are rendered plainly with consecutive
    numbers, and [current] carries the frame's line number and the
    mark [:>]. *)
Theorem format_code_context_marks (fi : frame_info) before current after :
  fi_code_context fi = Some (before ++ current :: after)%list →
  fi_index fi = Z.of_nat (length before) →
  _format_code_context fi
  = other_lines (fi_lineno fi - fi_index fi) before
      ++ (rjust 5 (pretty (fi_lineno fi)) ++ ":>" ++ current)
      ++ other_lines (fi_lineno fi + 1) after.
Proof.
  intros Hctx Hidx. unfold _format_code_context. rewrite Hctx, Hidx.
  rewrite code_context_app. rewrite code_context_other by lia.
  replace (fi_lineno fi - Z.of_nat (length before) + Z.of_nat (length before))
    with (fi_lineno fi) by lia.
  cbn [code_context_lines]. rewrite Z.eqb_refl.
  by rewrite code_context_other by lia.
Qed.

End dump.

(** ** The wrapper and its logger *)

Section wrapper.
Context `{Platform} `{Interpreter}.

(** X14. A failing logger masks the error: when the block raises an
    instance of [Exception] and the logger function raises in turn,
    the exception of the logger leaves the [with] statement, not the
    one of the block. *)
Theorem debug_exception_logger_raises {W A} (logger_func : string → M W unit)
    (block : M W A) (w : W) exc w' e' w'' :
  block w = (inl exc, w') →
  isinstance_Exception exc = true →
  logger_func (diagnostic_message exc) w' = (inl e', w'') →
  debug_exception logger_func block w = (inl e', w'').
Proof.
  intros Hb He Hlog. unfold debug_exception, try_except.
  by rewrite Hb, He, bind_unfold, Hlog.
Qed.




End wrapper.


(** ** The requests of the JSON-RPC layer *)

Section requests.
Context `{Platform} `{JsonRpcHost}.

(** X17. [send_json_rpc] sends exactly one request, whatever comes
    back.  A failure of the transport propagates, with the request
    logged and no reply logged; a reply dict with a ['result'] entry
    gives that entry; a reply dict without one (an error reply) raises
    [KeyError('result')]. *)
Theorem send_json_rpc_outcome method params w :
  let request := jsonrpc_request method params in
  let w' := after_call method params w in
  requests w' = (requests w ++ [request])%list
  ∧ (∀ e k, executeJSONRPC request (kodi w) = (inl e, k) →
       send_json_rpc method params w = (inl e, w')
       ∧ log w' = (log w ++ [(LOGDEBUG, ("JSON-RPC request:" ++ String re.newline ""
                                           ++ pformat request)%string)])%list)
  ∧ (∀ reply result k,
       executeJSONRPC request (kodi w) = (inr (PyDict reply), k) →
       reply !! "result" = Some result →
       send_json_rpc method params w = (inr result, w'))
  ∧ (∀ reply k,
       executeJSONRPC request (kodi w) = (inr (PyDict reply), k) →
       reply !! "result" = None →
       send_json_rpc method params w = (inl (Exn KeyError "result"), w')).
Proof.
  intros request w'. split; [apply after_call_requests|].
  rewrite send_json_rpc_run. fold request w'. split; [|split].
  - intros e k Hex. rewrite Hex. split; [done|].
    unfold w', after_call. fold request. rewrite Hex. cbn [log]. by rewrite app_nil_r.
  - intros reply result k Hex Hres. rewrite Hex. cbn [fst py_getitem]. by rewrite Hres.
  - intros reply k Hex Hres. rewrite Hex. cbn [fst py_getitem]. by rewrite Hres.
Qed.

(** X18. [get_recent_episodes] follows the rule of the other library
    queries: on a result dict it raises [NoDataError] (without a
    message) exactly when ['episodes'] is absent or empty, and returns
    the value of ['episodes'] otherwise. *)
Theorem get_recent_episodes_no_data :
  no_data_rule get_recent_episodes
    (send_json_rpc "VideoLibrary.GetRecentlyAddedEpisodes"
       (Some (PyDict (<["properties" :=
                          PyList [PyStr "playcount"; PyStr "tvshowid";
                                  PyStr "season"; PyStr "episode"]]> ∅))))
    "episodes" (NoData "").
Proof. apply no_data_rule_intro. Qed.

(** X19. [get_episode_details] returns the ['episodedetails'] entry of
    the result; when the result has none it raises
    [KeyError('episodedetails')], not [NoDataError]. *)
Theorem get_episode_details_outcome episode_id w result w' :
  send_json_rpc "VideoLibrary.GetEpisodeDetails"
                (Some (get_episode_details_params episode_id)) w
  = (inr (PyDict result), w') →
  get_episode_details episode_id w
  = (match result !! "episodedetails" with
     | Some details => inr details
     | None => inl (Exn KeyError "episodedetails")
     end, w').
Proof.
  intros Hrpc. unfold get_episode_details. rewrite bind_unfold, Hrpc.
  unfold lift. cbn [py_getitem]. by destruct (result !! "episodedetails").
Qed.

Lemma query_world (rpc : M world pyobj) (k : pyobj → M world pyobj) w :
  (∀ result w', (k result w').2 = w') →
  ((rpc ≫= k) w).2 = (rpc w).2.
Proof.
  intros Hk. rewrite bind_unfold. destruct (rpc w) as [[e|result] w']; [done|].
  apply Hk.
Qed.

Lemma no_data_tail_world key err result (w' : world) :
  ((value ← lift (py_get result key);
    if negb (py_bool value) then raise err else lift (py_getitem result key)) w').2
  = w'.
Proof.
  rewrite bind_unfold. unfold lift, raise.
  destruct (py_get result key) as [e|value]; [done|].
  by destruct (negb (py_bool value)).
Qed.

(** X20. Each of the four queries leaves the world of its one request:
    one request sent, the host stepped once, whether the query then
    returns, raises [NoDataError] or fails on the reply. *)
Theorem queries_send_one_request w :
  (get_tvshows w).2
  = after_call "VideoLibrary.GetTVShows" (Some get_tvshows_params) w
  ∧ (∀ tvshowid,
       (get_episodes tvshowid w).2
       = after_call "VideoLibrary.GetEpisodes" (Some (get_episodes_params tvshowid)) w)
  ∧ (get_recent_episodes w).2
    = after_call "VideoLibrary.GetRecentlyAddedEpisodes"
        (Some (PyDict (<["properties" :=
                           PyList [PyStr "playcount"; PyStr "tvshowid";
                                   PyStr "season"; PyStr "episode"]]> ∅))) w
  ∧ (∀ episode_id,
       (get_episode_details episode_id w).2
       = after_call "VideoLibrary.GetEpisodeDetails"
                    (Some (get_episode_details_params episode_id)) w).
Proof.
  split; [|split; [|split]].
  - unfold get_tvshows. rewrite query_world by apply no_data_tail_world.
    apply send_json_rpc_world.
  - intros tvshowid. unfold get_episodes.
    rewrite query_world by apply no_data_tail_world. apply send_json_rpc_world.
  - unfold get_recent_episodes. cbv zeta.
    rewrite query_world by apply no_data_tail_world. apply send_json_rpc_world.
  - intros episode_id. unfold get_episode_details. cbv zeta.
    rewrite query_world; [apply send_json_rpc_world|].
    intros result w'. unfold lift. done.
Qed.

Lemma set_episode_playcount_run episode_id playcount w :
  set_episode_playcount episode_id playcount w
  = match get_episode_details episode_id w with
    | (inl e, w1) => (inl e, w1)
    | (inr details, w1) =>
        match py_getitem details "playcount" with
        | inl e => (inl e, w1)
        | inr original =>
            if Z.eqb playcount (int_of_bool (py_bool original))
            then (inr (), w1)
            else
              let params := Some (set_episode_playcount_params episode_id playcount) in
              (match (send_json_rpc "VideoLibrary.SetEpisodeDetails" params w1).1 with
               | inl e => inl e
               | inr _ => inr ()
               end, after_call "VideoLibrary.SetEpisodeDetails" params w1)
        end
    end.
Proof.
  unfold set_episode_playcount. rewrite bind_unfold.
  destruct (get_episode_details episode_id w) as [[e|details] w1]; [done|].
  rewrite bind_unfold. unfold lift.
  destruct (py_getitem details "playcount") as [e|original]; [done|].
  destruct (Z.eqb playcount _); cbn [negb]; [done|].
  cbv zeta. rewrite bind_unfold, <-send_json_rpc_world.
  by destruct (send_json_rpc _ _ w1) as [[e|r] w2].
Qed.

(** X21. No update without the details: when the details query fails,
    or the details have no ['playcount'] entry, [set_episode_playcount]
    fails with that error in the world the details query left; the
    SetEpisodeDetails request is not sent. *)
Theorem set_episode_playcount_failure episode_id playcount w :
  (∀ e w1, get_episode_details episode_id w = (inl e, w1) →
     set_episode_playcount episode_id playcount w = (inl e, w1))
  ∧ (∀ details w1,
       get_episode_details episode_id w = (inr (PyDict details), w1) →
       details !! "playcount" = None →
       set_episode_playcount episode_id playcount w
       = (inl (Exn KeyError "playcount"), w1)).
Proof.
  rewrite set_episode_playcount_run. split.
  - by intros e w1 ->.
  - intros details w1 -> Hpc. cbn [py_getitem]. by rewrite Hpc.
Qed.

(** X22. [set_episode_playcount] sends one or two requests: the
    details query for the episode first, always, and after it at most
    the one update for the episode and the playcount asked for. *)
Theorem set_episode_playcount_requests episode_id playcount w :
  let details :=
    jsonrpc_request "VideoLibrary.GetEpisodeDetails"
                    (Some (get_episode_details_params episode_id)) in
  let update :=
    jsonrpc_request "VideoLibrary.SetEpisodeDetails"
                    (Some (set_episode_playcount_params episode_id playcount)) in
  let sent := requests (set_episode_playcount episode_id playcount w).2 in
  sent = (requests w ++ [details])%list
  ∨ sent = (requests w ++ [details; update])%list.
Proof.
  intros details update sent.
  assert (requests (get_episode_details episode_id w).2
          = (requests w ++ [details])%list) as Hd.
  { unfold get_episode_details. cbv zeta.
    rewrite query_world by done. by rewrite send_json_rpc_world, after_call_requests. }
  unfold sent. rewrite set_episode_playcount_run.
  destruct (get_episode_details episode_id w) as [[e|dt] w1]; cbn [snd] in *; [by left|].
  destruct (py_getitem dt "playcount") as [e|original]; [by left|].
  destruct (Z.eqb playcount _); [by left|]. right.
  cbv zeta. cbn [snd]. rewrite after_call_requests, Hd, <-app_assoc. done.
Qed.

(** X23. The comparison is on watched or not: marking watched an
    episode with any non-zero play count sends nothing (the count is
    kept), as does marking unwatched an episode never played; a
    requested playcount other than 0 and 1 always sends the update,
    whatever the original count. *)
Theorem set_episode_playcount_normalizes episode_id playcount w details original w1 :
  get_episode_details episode_id w = (inr details, w1) →
  py_getitem details "playcount" = inr original →
  (py_bool original = true → playcount = 1 →
     set_episode_playcount episode_id playcount w = (inr (), w1))
  ∧ (py_bool original = false → playcount = 0 →
       set_episode_playcount episode_id playcount w = (inr (), w1))
  ∧ (playcount ≠ 0 → playcount ≠ 1 →
       (set_episode_playcount episode_id playcount w).2
       = after_call "VideoLibrary.SetEpisodeDetails"
           (Some (set_episode_playcount_params episode_id playcount)) w1).
Proof.
  intros Hd Ho. rewrite set_episode_playcount_run, Hd, Ho. split; [|split].
  - by intros -> ->.
  - by intros -> ->.
  - intros Hn0 Hn1.
    destruct (Z.eqb_spec playcount (int_of_bool (py_bool original))) as [Heq|?];
      [|done]. by destruct (py_bool original).
Qed.

End requests.

(** ** The further properties on the reference platform *)

Ltac by_decide :=
  match goal with
  | |- ?P => apply (bool_decide_unpack P); vm_compute; exact I
  end.

(** The theorem for X1 on a fresh installation. *)
Lemma init_without_cache_witness :
  __init__ fs_fresh
  = (inr (service (strings_dict (_parse_strings_po catalog))),
     with_cache fs_fresh
       (cache_record (_parse_strings_po catalog) (md5_hexdigest catalog_bytes))).
Proof.
  apply (init_without_cache fs_fresh catalog_bytes catalog); vm_compute; reflexivity.
Defined.

(** The theorem for X2 on [fs_trusted]: the cached mapping comes back,
    not the one of the catalog. *)
Lemma init_cache_hit_witness :
  __init__ fs_trusted = (inr (service (PyDict stale_strings)), fs_trusted).
Proof.
  apply (init_cache_hit fs_trusted catalog_bytes (pickle_dump (PyDict trusted_dict))
           trusted_dict (PyDict stale_strings));
    vm_compute; reflexivity.
Defined.

(** The theorem for X3 on a catalog of one byte that is not UTF-8. *)
Lemma init_undecodable_catalog_witness :
  __init__ fs_undecodable
  = (inl (Exn UnicodeDecodeError "'utf-8' codec can't decode bytes"), fs_undecodable).
Proof.
  apply (init_undecodable_catalog fs_undecodable [Byte.xff]);
    [vm_compute; reflexivity..|left; vm_compute; reflexivity].
Defined.


(** The theorem for X7 on the entry of Play in the example catalog. *)
Lemma parse_ids_nonneg_witness :
  _parse_strings_po catalog !! "Play" = Some 100 ∧ (0 ≤ 100)%Z.
Proof.
  assert (_parse_strings_po catalog !! "Play" = Some 100) as Hplay
    by (vm_compute; reflexivity).
  split; [exact Hplay|]. exact (parse_ids_nonneg catalog "Play" 100 Hplay).
Defined.

(** The theorem for X8 on a [msgctxt] line alone. *)
Lemma parse_single_line_witness :
  _parse_strings_po ("msgctxt " ++ quoted "#100") = ∅.
Proof.
  apply (parse_single_line ("msgctxt " ++ quoted "#100")).
  by_decide.
Defined.

(** The theorem for X9 on the example catalog. *)
Lemma parse_crlf_line_ends_witness :
  _parse_strings_po
    (replace_char re.newline (String re.cr (String re.newline "")) catalog)
  = _parse_strings_po catalog.
Proof.
  apply (parse_crlf_line_ends catalog).
  by_decide.
Defined.

(** The theorem for X10: the record #103 Pause after the example
    catalog. *)
Lemma parse_appended_record_witness :
  _parse_strings_po (catalog ++ String re.newline (po_record "103" "Pause"))
  = <["Pause" := 103]> (_parse_strings_po catalog).
Proof.
  apply (parse_appended_record catalog "103" "Pause"); [done|done|done|].
  by_decide.
Defined.

(** The theorem for X12 on the variables [x] and [__name__]. *)
Lemma format_vars_hides_dunder_witness :
  _format_vars (<["__name__" := PyStr "__main__"]> {[ "x" := PyInt 1 ]})
  = _format_vars (delete "__name__" ({[ "x" := PyInt 1 ]} : gmap string pyobj)).
Proof.
  apply (format_vars_hides_dunder {[ "x" := PyInt 1 ]} "__name__" (PyStr "__main__")).
  vm_compute; reflexivity.
Defined.

(** The theorem for X13 on the frame of the reference interpreter:
    line 12 is the second of two context lines. *)
Lemma format_code_context_marks_witness :
  _format_code_context reference.frame
  = other_lines 11 ["    x = 1"]
      ++ (rjust 5 (pretty 12) ++ ":>" ++ "    raise RuntimeError()")
      ++ other_lines 13 [].
Proof.
  apply (format_code_context_marks reference.frame ["    x = 1"]
           "    raise RuntimeError()" []); reflexivity.
Defined.

(** The theorem for X14: the [RuntimeError] of the block is lost to the
    [IOError] of the logger. *)
Lemma debug_exception_logger_raises_witness :
  debug_exception log_closed fatal_error []
  = (inl (Exn IOError "log is closed"), []).
Proof.
  apply (debug_exception_logger_raises log_closed fatal_error []
           (Exn RuntimeError "Fatal error!") []); vm_compute; reflexivity.
Defined.


(** The theorem for X18 on a host that has no recent episodes. *)
Lemma get_recent_episodes_no_data_witness :
  let rpc :=
    @send_json_rpc reference.platform (reference.canned no_recent_episodes)
      "VideoLibrary.GetRecentlyAddedEpisodes"
      (Some (PyDict (<["properties" :=
                         PyList [PyStr "playcount"; PyStr "tvshowid";
                                 PyStr "season"; PyStr "episode"]]> ∅))) in
  @get_recent_episodes reference.platform (reference.canned no_recent_episodes) kodi_canned
  = (inl (NoData ""), (rpc kodi_canned).2).
Proof.
  intros rpc.
  refine (proj2 (proj1 (@get_recent_episodes_no_data reference.platform
                          (reference.canned no_recent_episodes) kodi_canned
                          {[ "limits" := PyDict ∅ ]} (rpc kodi_canned).2 _))
                (or_introl _));
    vm_compute; reflexivity.
Defined.

(** The theorem for X19 on the episode of the reference library. *)
Lemma get_episode_details_outcome_witness :
  let rpc := send_json_rpc "VideoLibrary.GetEpisodeDetails"
                           (Some (get_episode_details_params 7)) in
  get_episode_details 7 kodi0
  = (inr (PyDict (<["playcount" := PyInt 0]> (<["episodeid" := PyInt 7]> ∅))),
     (rpc kodi0).2).
Proof.
  intros rpc.
  set (result := {[ "episodedetails" :=
                      PyDict (<["playcount" := PyInt 0]>
                              (<["episodeid" := PyInt 7]> ∅)) ]} : gmap string pyobj).
  assert (rpc kodi0 = (inr (PyDict result), (rpc kodi0).2)) as Hrpc
    by (vm_compute; reflexivity).
  refine (eq_trans (get_episode_details_outcome 7 kodi0 result (rpc kodi0).2 Hrpc) _).
  vm_compute; reflexivity.
Defined.

(** The theorem for X23 on an unwatched episode: playcount 0 sends
    nothing, playcount 2 sends the update. *)
Lemma set_episode_playcount_normalizes_witness :
  let w1 := (get_episode_details 7 kodi0).2 in
  set_episode_playcount 7 0 kodi0 = (inr (), w1)
  ∧ (set_episode_playcount 7 2 kodi0).2
    = after_call "VideoLibrary.SetEpisodeDetails"
        (Some (set_episode_playcount_params 7 2)) w1.
Proof.
  intros w1.
  set (details := PyDict (<["playcount" := PyInt 0]> (<["episodeid" := PyInt 7]> ∅))).
  assert (get_episode_details 7 kodi0 = (inr details, w1)) as Hdetails
    by (vm_compute; reflexivity).
  assert (py_getitem details "playcount" = inr (PyInt 0)) as Hplaycount
    by (vm_compute; reflexivity).
  split.
  - destruct (set_episode_playcount_normalizes 7 0 kodi0 details (PyInt 0) w1
                Hdetails Hplaycount) as (_ & Hunwatched & _).
    exact (Hunwatched eq_refl eq_refl).
  - destruct (set_episode_playcount_normalizes 7 2 kodi0 details (PyInt 0) w1
                Hdetails Hplaycount) as (_ & _ & Hupdate).
    apply Hupdate; discriminate.
Defined.

(** The theorem for X17 on a method the reference host does not know:
    the error reply has no ['result'] entry. *)
Lemma send_json_rpc_outcome_witness :
  send_json_rpc "JSONRPC.Ping" None kodi0
  = (inl (Exn KeyError "result"), after_call "JSONRPC.Ping" None kodi0).
Proof.
  destruct (send_json_rpc_outcome "JSONRPC.Ping" None kodi0) as (_ & _ & _ & Herror).
  set (reply := <["error" := PyDict (<["code" := PyInt (-32602)]> ∅)]>
                  (<["jsonrpc" := PyStr "2.0"]> (<["id" := PyStr "1"]> ∅))
                : gmap string pyobj).
  apply (Herror reply (kodi kodi0)); vm_compute; reflexivity.
Defined.

(** The theorem for X21 on an episode the reference library does not
    hold: the error of the details query comes out, in the world that
    query left. *)
Lemma set_episode_playcount_failure_witness :
  set_episode_playcount 8 1 kodi0
  = (inl (Exn KeyError "result"), (get_episode_details 8 kodi0).2).
Proof.
  destruct (set_episode_playcount_failure 8 1 kodi0) as [Hfailure _].
  apply Hfailure. vm_compute; reflexivity.
Defined.

(** The theorem for X24: a file beside the two, and a write made
    before, change nothing. *)
Lemma init_reads_two_files_witness :
  let fs := {| files := <["/tmp/notes.txt" := []]> (files fs_stale);
               written := ["/tmp/notes.txt"] |} in
  (__init__ fs_stale).1 = (__init__ fs).1.
Proof.
  intros fs. apply (init_reads_two_files fs_stale fs); vm_compute; reflexivity.
Defined.
